(** * Visionaray: bounding boxes, triangles, SSE lane classification and
      intersector dispatch

    A shallow embedding of
    - [include/visionaray/math/detail/aabb.inl]     (template [basic_aabb<T>]),
    - [include/visionaray/math/detail/triangle.inl] ([area], [get_bounds]),
    - [include/visionaray/math/simd/detail/sse/float4.inl]
      ([isinf], [isnan], [isfinite]; constructors, [select], [load],
      [store], [get], the shuffles, unary [+] and [-], the comparisons,
      [min], [max], [saturate], [abs], [round], [ceil], [floor]),
    - [include/visionaray/intersector.h]            ([basic_intersector]).

    The C++ templates are generic in the scalar type [T]; the embedding is
    generic in a [Scalar] interface and is instantiated twice: at IEEE-754
    binary32 ([float], through the standard library's [SpecFloat]) and at
    the exact rationals [Q]. *)

From Stdlib Require Import ZArith QArith Qabs Bool List Lia Lqa.
From Stdlib Require Import Floats.SpecFloat.
Import ListNotations.

Set Implicit Arguments.

(* ================================================================== *)
(** * The scalar interface                                             *)
(* ================================================================== *)

(** What the templates require of [T]: the constants [T(0.0)], [T(0.5)],
    [T(1.0)], [T(2.0)], the four arithmetic operators and the comparison
    operators [<], [<=], [==].  As in C++, [>] and [>=] are the flipped
    [<] and [<=], and [!=] is the negation of [==]. *)
Class Scalar (T : Type) : Type := {
  zero : T;
  half : T;
  one : T;
  two : T;
  add : T -> T -> T;
  sub : T -> T -> T;
  mul : T -> T -> T;
  div : T -> T -> T;
  ltb : T -> T -> bool;
  leb : T -> T -> bool;
  eqb : T -> T -> bool
}.

Definition gtb {T} `{Scalar T} (a b : T) : bool := ltb b a.
Definition geb {T} `{Scalar T} (a b : T) : bool := leb b a.
Definition neqb {T} `{Scalar T} (a b : T) : bool := negb (eqb a b).

(** [sqrt], needed by [length] only. *)
Class Sqrt (T : Type) : Type := sqrt : T -> T.

(** [numeric_limits<T>::max()] and [numeric_limits<T>::lowest()]. *)
Class NumericLimits (T : Type) : Type := {
  numeric_max : T;
  numeric_lowest : T
}.

(* ================================================================== *)
(** * IEEE-754 binary32: the [float] instance                          *)
(* ================================================================== *)

Module F32.

Definition prec : Z := 24.
Definition emax : Z := 128.

Definition float : Type := spec_float.

(** The float nearest to [m * 2^e] (round to nearest, ties to even). *)
Definition of_Z_pow2 (m e : Z) : float := binary_normalize prec emax m e false.
Definition of_Z (m : Z) : float := of_Z_pow2 m 0.

Definition pos_zero : float := S754_zero false.
Definition pos_inf : float := S754_infinity false.
Definition neg_inf : float := S754_infinity true.
Definition nan : float := S754_nan.

Definition fadd : float -> float -> float := SFadd prec emax.
Definition fsub : float -> float -> float := SFsub prec emax.
Definition fmul : float -> float -> float := SFmul prec emax.
Definition fdiv : float -> float -> float := SFdiv prec emax.
Definition fsqrt : float -> float := SFsqrt prec emax.

Definition is_nan (f : float) : bool :=
  match f with
  | S754_nan => true
  | _ => false
  end.

Definition is_finite (f : float) : bool :=
  match f with
  | S754_zero _ | S754_finite _ _ _ => true
  | _ => false
  end.

(** A float is well formed when its mantissa and exponent are the
    canonical binary32 ones. *)
Definition well_formed (f : float) : bool := valid_binary prec emax f.

(** A finite binary32 number: a zero, or a finite float in canonical
    form. *)
Definition finite_number (f : float) : bool := is_finite f && well_formed f.

(** The binary32 encoding of a float: sign bit, 8-bit exponent field and
    23-bit fraction.  [magnitude_bits] is the encoding without the sign
    bit; a NaN is encoded as the quiet NaN [0x7FC00000]. *)
Definition magnitude_bits (f : float) : Z :=
  match f with
  | S754_zero _ => 0
  | S754_infinity _ => 0x7F800000
  | S754_nan => 0x7FC00000
  | S754_finite _ m e =>
      if (0x800000 <=? Zpos m)%Z then ((e + 149) * 0x800000 + Zpos m)%Z
      else Zpos m
  end.

Definition sign_bit (f : float) : Z :=
  match f with
  | S754_zero true | S754_infinity true | S754_finite true _ _ => 0x80000000
  | _ => 0
  end.

Definition bits (f : float) : Z := (sign_bit f + magnitude_bits f)%Z.

(** The sign of a float, as [bits] encodes it. *)
Definition sign (f : float) : bool :=
  match f with
  | S754_zero s | S754_infinity s | S754_finite s _ _ => s
  | S754_nan => false
  end.

(** The float that a binary32 pattern encodes: bit 31 is the sign, bits
    30 to 23 the exponent field, bits 22 to 0 the fraction. *)
Definition of_bits (w : Z) : float :=
  let s := Z.testbit w 31 in
  let e := Z.land (Z.shiftr w 23) 0xFF in
  let f := Z.land w 0x7FFFFF in
  if (e =? 0)%Z then
    match f with
    | Zpos m => S754_finite s m (-149)
    | _ => S754_zero s
    end
  else if (e =? 255)%Z then
    match f with
    | Z0 => S754_infinity s
    | _ => S754_nan
    end
  else S754_finite s (Z.to_pos (f + 0x800000)) (e - 150).

(** The rational value of a finite float. *)
Definition to_Q (f : float) : option Q :=
  match f with
  | S754_zero _ => Some 0%Q
  | S754_finite s m e =>
      let v := match e with
               | Z0 => inject_Z (Zpos m)
               | Zpos p => inject_Z (Zpos m * Z.pow_pos 2 p)
               | Zneg p => Qmake (Zpos m) (Pos.pow 2 p)
               end in
      Some (if s then Qopp v else v)
  | _ => None
  end.

End F32.

#[export] Instance float_Scalar : Scalar F32.float := {
  zero := F32.pos_zero;
  half := F32.of_Z_pow2 1 (-1);
  one := F32.of_Z 1;
  two := F32.of_Z 2;
  add := F32.fadd;
  sub := F32.fsub;
  mul := F32.fmul;
  div := F32.fdiv;
  ltb := SFltb;
  leb := SFleb;
  eqb := SFeqb
}.

#[export] Instance float_Sqrt : Sqrt F32.float := F32.fsqrt.

(** Modelled from the spec: [numeric_limits<float>] of [math/limits.h],
    which is not among the sources.  The spec gives the invalid box
    [min = +inf], [max = -inf] on every axis, and [invalidate] stores
    [numeric_limits<T>::max()] and [numeric_limits<T>::lowest()]. *)
#[export] Instance float_NumericLimits : NumericLimits F32.float := {
  numeric_max := F32.pos_inf;
  numeric_lowest := F32.neg_inf
}.

(* ================================================================== *)
(** * Exact rational arithmetic: the [Q] instance                      *)
(* ================================================================== *)

Definition Qltb (a b : Q) : bool := negb (Qle_bool b a).

#[export] Instance Q_Scalar : Scalar Q := {
  zero := 0%Q;
  half := (1 # 2)%Q;
  one := 1%Q;
  two := 2%Q;
  add := Qplus;
  sub := Qminus;
  mul := Qmult;
  div := Qdiv;
  ltb := Qltb;
  leb := Qle_bool;
  eqb := Qeq_bool
}.

(* ================================================================== *)
(** * Scalar [min] / [max]                                             *)
(* ================================================================== *)

Module Math.
Section Defs.
Context {T : Type} `{Scalar T}.

(** Modelled from the spec: the scalar [min] of [math/detail/math.h],
    which is not among the sources; the spec calls [insert] a running
    min/max.  It is taken with the meaning of [std::min]:
    [min(a,b) = b < a ? b : a]. *)
Definition min (a b : T) : T := if ltb b a then b else a.

(** Modelled from the spec: the scalar [max] of [math/detail/math.h],
    which is not among the sources; the spec calls [safe_size] a per-axis
    clamp to [>= 0].  It is taken with the meaning of [std::max]:
    [max(a,b) = a < b ? b : a]. *)
Definition max (a b : T) : T := if ltb a b then b else a.
End Defs.
End Math.

(* ================================================================== *)
(** * [vector<3, T>] and [cartesian_axis<3>]                           *)
(* ================================================================== *)

Module Axis.
(** Modelled from the spec: [cartesian_axis<3>] of [math/axis.h], which is
    not among the sources; the axis argument of [split], one of the labels
    X, Y, Z, used as the indices 0, 1, 2 of a vector. *)
Inductive cartesian_axis : Type := X | Y | Z.

Definition eqb (a b : cartesian_axis) : bool :=
  match a, b with
  | X, X | Y, Y | Z, Z => true
  | _, _ => false
  end.
End Axis.

Abbreviation cartesian_axis := Axis.cartesian_axis.

(** [vector<3, T>] and its operators are declared in [math/vector.h],
    which is not among the sources; the spec describes a point as three
    components.  They are given their usual componentwise meaning. *)
Module Vector3.

(** Modelled from the spec: [vector<3, T>], a 3-component point. *)
Record vector3 (T : Type) : Type := mk { x : T; y : T; z : T }.
Arguments mk {T} _ _ _.
Arguments x {T} _.
Arguments y {T} _.
Arguments z {T} _.

Section Defs.
Context {T : Type} `{Scalar T}.

(** Modelled from the spec: the constructor [vector<3, T>(s)], all three
    components equal to [s]. *)
Definition broadcast (s : T) : vector3 T := mk s s s.

(** Modelled from the spec: [v[axis]], read. *)
Definition get (v : vector3 T) (a : cartesian_axis) : T :=
  match a with Axis.X => x v | Axis.Y => y v | Axis.Z => z v end.

(** Modelled from the spec: the assignment [v[axis] = s]. *)
Definition set (v : vector3 T) (a : cartesian_axis) (s : T) : vector3 T :=
  match a with
  | Axis.X => mk s (y v) (z v)
  | Axis.Y => mk (x v) s (z v)
  | Axis.Z => mk (x v) (y v) s
  end.

(** Modelled from the spec: [u + v]. *)
Definition plus (u v : vector3 T) : vector3 T :=
  mk (add (x u) (x v)) (add (y u) (y v)) (add (z u) (z v)).

(** Modelled from the spec: [u - v]. *)
Definition minus (u v : vector3 T) : vector3 T :=
  mk (sub (x u) (x v)) (sub (y u) (y v)) (sub (z u) (z v)).

(** Modelled from the spec: [u * s] for a scalar [s]. *)
Definition scale (u : vector3 T) (s : T) : vector3 T :=
  mk (mul (x u) s) (mul (y u) s) (mul (z u) s).

(** Modelled from the spec: [u == v], equality on every component. *)
Definition equal (u v : vector3 T) : bool :=
  eqb (x u) (x v) && eqb (y u) (y v) && eqb (z u) (z v).

(** Modelled from the spec: [u != v], a difference on some component. *)
Definition not_equal (u v : vector3 T) : bool :=
  neqb (x u) (x v) || neqb (y u) (y v) || neqb (z u) (z v).

(** Modelled from the spec: [min(u, v)], componentwise. *)
Definition min (u v : vector3 T) : vector3 T :=
  mk (Math.min (x u) (x v)) (Math.min (y u) (y v)) (Math.min (z u) (z v)).

(** Modelled from the spec: [max(u, v)], componentwise. *)
Definition max (u v : vector3 T) : vector3 T :=
  mk (Math.max (x u) (x v)) (Math.max (y u) (y v)) (Math.max (z u) (z v)).

(** Modelled from the spec: [dot(u, v)]. *)
Definition dot (u v : vector3 T) : T :=
  add (add (mul (x u) (x v)) (mul (y u) (y v))) (mul (z u) (z v)).

(** Modelled from the spec: [cross(u, v)], the [e1 x e2] of the triangle
    area. *)
Definition cross (u v : vector3 T) : vector3 T :=
  mk (sub (mul (y u) (z v)) (mul (z u) (y v)))
     (sub (mul (z u) (x v)) (mul (x u) (z v)))
     (sub (mul (x u) (y v)) (mul (y u) (x v))).

(** Modelled from the spec: [length(v)], the Euclidean norm [|v|]. *)
Definition length `{Sqrt T} (v : vector3 T) : T := sqrt (dot v v).

(** Not in the sources, used to state properties: [u <= v] on every
    axis, and [lo <= v <= hi] on every axis. *)
Definition le (u v : vector3 T) : bool :=
  leb (x u) (x v) && leb (y u) (y v) && leb (z u) (z v).

Definition in_range (lo hi : T) (v : vector3 T) : bool :=
  le (broadcast lo) v && le v (broadcast hi).
End Defs.
End Vector3.

Abbreviation vector3 := Vector3.vector3.

(* ================================================================== *)
(** * [basic_aabb<T>]  (math/detail/aabb.inl)                          *)
(* ================================================================== *)

Module Aabb.

Record basic_aabb (T : Type) : Type :=
  mk { min : vector3 T; max : vector3 T }.
Arguments mk {T} _ _.
Arguments min {T} _.
Arguments max {T} _.

Section Members.
Context {T : Type} `{Scalar T}.

Definition center (b : basic_aabb T) : vector3 T :=
  Vector3.scale (Vector3.plus (max b) (min b)) half.

Definition size (b : basic_aabb T) : vector3 T :=
  Vector3.minus (max b) (min b).

Definition safe_size (b : basic_aabb T) : vector3 T :=
  let s := Vector3.minus (max b) (min b) in
  let s := Vector3.set s Axis.X (Math.max zero (Vector3.x s)) in
  let s := Vector3.set s Axis.Y (Math.max zero (Vector3.y s)) in
  let s := Vector3.set s Axis.Z (Math.max zero (Vector3.z s)) in
  s.

(** [invalidate] overwrites both corners of the box it is called on. *)
Definition invalidate `{NumericLimits T} (b : basic_aabb T) : basic_aabb T :=
  mk (Vector3.broadcast numeric_max) (Vector3.broadcast numeric_lowest).

Definition invalid (b : basic_aabb T) : bool :=
  gtb (Vector3.x (min b)) (Vector3.x (max b))
  || gtb (Vector3.y (min b)) (Vector3.y (max b))
  || gtb (Vector3.z (min b)) (Vector3.z (max b)).

Definition valid (b : basic_aabb T) : bool :=
  leb (Vector3.x (min b)) (Vector3.x (max b))
  && leb (Vector3.y (min b)) (Vector3.y (max b))
  && leb (Vector3.z (min b)) (Vector3.z (max b)).

Definition empty (b : basic_aabb T) : bool :=
  geb (Vector3.x (min b)) (Vector3.x (max b))
  || geb (Vector3.y (min b)) (Vector3.y (max b))
  || geb (Vector3.z (min b)) (Vector3.z (max b)).

(** [contains(vector<3, T> const&)] *)
Definition contains (b : basic_aabb T) (v : vector3 T) : bool :=
  geb (Vector3.x v) (Vector3.x (min b)) && leb (Vector3.x v) (Vector3.x (max b))
  && geb (Vector3.y v) (Vector3.y (min b)) && leb (Vector3.y v) (Vector3.y (max b))
  && geb (Vector3.z v) (Vector3.z (min b)) && leb (Vector3.z v) (Vector3.z (max b)).

(** [contains(basic_aabb<T> const&)] *)
Definition contains_box (b c : basic_aabb T) : bool :=
  contains b (min c) && contains b (max c).

(** [insert(vec_type const&)] *)
Definition insert (b : basic_aabb T) (v : vector3 T) : basic_aabb T :=
  mk (Vector3.min (min b) v) (Vector3.max (max b) v).

(** [insert(basic_aabb const&)] *)
Definition insert_box (b v : basic_aabb T) : basic_aabb T :=
  mk (Vector3.min (min b) (min v)) (Vector3.max (max b) (max v)).

(** [operator==] and [operator!=] *)
Definition equal (lhs rhs : basic_aabb T) : bool :=
  Vector3.equal (min lhs) (min rhs) && Vector3.equal (max lhs) (max rhs).

Definition not_equal (lhs rhs : basic_aabb T) : bool :=
  Vector3.not_equal (min lhs) (min rhs) || Vector3.not_equal (max lhs) (max rhs).
End Members.

Section Geometric.
Context {T : Type} `{Scalar T}.

Definition combine (a b : basic_aabb T) : basic_aabb T :=
  mk (Vector3.min (min a) (min b)) (Vector3.max (max a) (max b)).

(** [combine(basic_aabb<T> const&, vector<3, T> const&)] *)
Definition combine_point (a : basic_aabb T) (b : vector3 T) : basic_aabb T :=
  mk (Vector3.min (min a) b) (Vector3.max (max a) b).

Definition intersect (a b : basic_aabb T) : basic_aabb T :=
  mk (Vector3.max (min a) (min b)) (Vector3.min (max a) (max b)).

Definition half_surface_area (box : basic_aabb T) : T :=
  let s := size box in
  add (add (mul (Vector3.x s) (Vector3.y s)) (mul (Vector3.y s) (Vector3.z s)))
      (mul (Vector3.z s) (Vector3.x s)).

Definition safe_half_surface_area (box : basic_aabb T) : T :=
  let s := safe_size box in
  add (add (mul (Vector3.x s) (Vector3.y s)) (mul (Vector3.y s) (Vector3.z s)))
      (mul (Vector3.z s) (Vector3.x s)).

Definition surface_area (box : basic_aabb T) : T :=
  mul two (half_surface_area box).

Definition safe_surface_area (box : basic_aabb T) : T :=
  mul two (safe_half_surface_area box).

Definition volume (box : basic_aabb T) : T :=
  let s := size box in
  mul (mul (Vector3.x s) (Vector3.y s)) (Vector3.z s).

Definition overlap_ratio_union (lhs rhs : basic_aabb T) : T :=
  let I := intersect lhs rhs in
  if empty I then zero
  else div (volume I) (volume (combine lhs rhs)).

Definition overlap_ratio_min (lhs rhs : basic_aabb T) : T :=
  let I := intersect lhs rhs in
  if empty lhs || empty rhs then zero
  else if empty I then zero
  else div (volume I) (Math.min (volume lhs) (volume rhs)).

Definition overlap_ratio (lhs rhs : basic_aabb T) : T :=
  overlap_ratio_min lhs rhs.

Definition split (box : basic_aabb T) (axis : cartesian_axis) (splitpos : T)
  : basic_aabb T * basic_aabb T :=
  let min1 := min box in
  let min2 := min box in
  let max1 := max box in
  let max2 := max box in
  let max1 := Vector3.set max1 axis splitpos in
  let min2 := Vector3.set min2 axis splitpos in
  let box1 := mk min1 max1 in
  let box2 := mk min2 max2 in
  (box1, box2).

(** Not in the sources, used to state properties.  [within c b]: the
    min corner of [c] is not below that of [b] and its max corner is not
    above that of [b], on every axis. *)
Definition within (c b : basic_aabb T) : bool :=
  Vector3.le (min b) (min c) && Vector3.le (max c) (max b).

(** Not in the sources, used to state properties.  [in_limits b]: on every
    axis the min corner of [b] is not above [numeric_limits<T>::max()] and
    its max corner is not below [numeric_limits<T>::lowest()]. *)
Definition in_limits `{NumericLimits T} (b : basic_aabb T) : bool :=
  Vector3.le (min b) (Vector3.broadcast numeric_max)
  && Vector3.le (Vector3.broadcast numeric_lowest) (max b).
End Geometric.

Section Vertices.
Context {T : Type} `{Scalar T}.

(** [compute_vertices]: the eight corners of [box], in the order of the
    initialiser list.  [vertex_list] is an array of eight [vec_type]. *)
Definition compute_vertices (box : basic_aabb T) : list (vector3 T) :=
  let min := min box in
  let max := max box in
  [ Vector3.mk (Vector3.x max) (Vector3.y max) (Vector3.z max);
    Vector3.mk (Vector3.x min) (Vector3.y max) (Vector3.z max);
    Vector3.mk (Vector3.x min) (Vector3.y min) (Vector3.z max);
    Vector3.mk (Vector3.x max) (Vector3.y min) (Vector3.z max);
    Vector3.mk (Vector3.x min) (Vector3.y max) (Vector3.z min);
    Vector3.mk (Vector3.x max) (Vector3.y max) (Vector3.z min);
    Vector3.mk (Vector3.x max) (Vector3.y min) (Vector3.z min);
    Vector3.mk (Vector3.x min) (Vector3.y min) (Vector3.z min) ].

(** Not in the sources, used to state properties.  A point or a box is
    ordered when each of its coordinates compares [<=] with itself: for a
    float, when none of them is a NaN. *)
Definition ordered_point (v : vector3 T) : bool := Vector3.le v v.

Definition ordered (b : basic_aabb T) : bool :=
  ordered_point (min b) && ordered_point (max b).
End Vertices.
End Aabb.

Abbreviation basic_aabb := Aabb.basic_aabb.

(* ================================================================== *)
(** * [basic_triangle<3, T, P>]  (math/triangle.h, detail/triangle.inl) *)
(* ================================================================== *)

Module Triangle.

Record basic_triangle (T : Type) : Type :=
  mk { v1 : vector3 T; e1 : vector3 T; e2 : vector3 T }.
Arguments mk {T} _ _ _.
Arguments v1 {T} _.
Arguments e1 {T} _.
Arguments e2 {T} _.

Section Geometric.
Context {T : Type} `{Scalar T} `{Sqrt T}.

Definition area (t : basic_triangle T) : T :=
  mul half (Vector3.length (Vector3.cross (e1 t) (e2 t))).
End Geometric.

Section Bounds.
Context {T : Type} `{Scalar T} `{NumericLimits T}.

(** [get_bounds] for a triangle in space.  The local [bounds] is declared
    without an initialiser, so its first contents, [uninitialized], are
    whatever the memory holds; [invalidate] overwrites them. *)
Definition get_bounds (uninitialized : basic_aabb T) (t : basic_triangle T)
  : basic_aabb T :=
  let bounds := uninitialized in
  let bounds := Aabb.invalidate bounds in
  let bounds := Aabb.insert bounds (v1 t) in
  let bounds := Aabb.insert bounds (Vector3.plus (v1 t) (e1 t)) in
  let bounds := Aabb.insert bounds (Vector3.plus (v1 t) (e2 t)) in
  bounds.
End Bounds.
End Triangle.

Abbreviation basic_triangle := Triangle.basic_triangle.

(* ================================================================== *)
(** * [simd::float4] classification  (simd/detail/sse/float4.inl)      *)
(* ================================================================== *)

Module Simd.

(** [float4] wraps an [__m128]: four binary32 lanes. *)
Record float4 : Type :=
  mk_float4 { lane0 : F32.float; lane1 : F32.float;
              lane2 : F32.float; lane3 : F32.float }.

(** Modelled from the spec: [mask4] of [simd/detail/sse/mask4.inl], which
    is not among the sources; the spec describes a lane mask as N
    booleans.  [mk_mask4] is the constructor from four [bool]s. *)
Record mask4 : Type :=
  mk_mask4 { bit0 : bool; bit1 : bool; bit2 : bool; bit3 : bool }.

(** Modelled from the spec: [a | b] on masks, lane by lane. *)
Definition mask_or (a b : mask4) : mask4 :=
  mk_mask4 (bit0 a || bit0 b) (bit1 a || bit1 b)
           (bit2 a || bit2 b) (bit3 a || bit3 b).

(** Modelled from the spec: [!a] on a mask, lane by lane. *)
Definition mask_not (a : mask4) : mask4 :=
  mk_mask4 (negb (bit0 a)) (negb (bit1 a)) (negb (bit2 a)) (negb (bit3 a)).

(** Lane [i] of a vector and of a mask, [i < 4]. *)
Definition lane (v : float4) (i : nat) : F32.float :=
  match i with
  | 0%nat => lane0 v | 1%nat => lane1 v | 2%nat => lane2 v | _ => lane3 v
  end.

Definition bit (m : mask4) (i : nat) : bool :=
  match i with
  | 0%nat => bit0 m | 1%nat => bit1 m | 2%nat => bit2 m | _ => bit3 m
  end.

(** [_mm_cmpneq_ps]: a lane is set when its operands are unordered or
    different. *)
Definition mm_cmpneq_ps (u v : float4) : mask4 :=
  mk_mask4 (negb (SFeqb (lane0 u) (lane0 v))) (negb (SFeqb (lane1 u) (lane1 v)))
           (negb (SFeqb (lane2 u) (lane2 v))) (negb (SFeqb (lane3 u) (lane3 v))).

(** [operator!=(float4 const&, float4 const&)] *)
Definition neq (u v : float4) : mask4 := mm_cmpneq_ps u v.

(** [store(float dst[4], float4 const&)]: the four lanes, in order. *)
Definition store (v : float4) : list F32.float :=
  [lane0 v; lane1 v; lane2 v; lane3 v].

(** [std::isinf] of <cmath>, the scalar classification routine. *)
Definition std_isinf (x : F32.float) : bool :=
  match x with
  | S754_infinity _ => true
  | _ => false
  end.

Definition isinf (v : float4) : mask4 :=
  let values := store v in
  mk_mask4 (std_isinf (nth 0 values F32.pos_zero))
           (std_isinf (nth 1 values F32.pos_zero))
           (std_isinf (nth 2 values F32.pos_zero))
           (std_isinf (nth 3 values F32.pos_zero)).

Definition isnan (v : float4) : mask4 := neq v v.

Definition isfinite (v : float4) : mask4 :=
  mask_not (mask_or (isinf v) (isnan v)).

(** The classification as the spec words it, "via bit-pattern tricks or
    self-comparison", to compare with [isinf], [isnan] and [isfinite]: a
    lane is infinite when its bit pattern without the sign bit is
    [0x7F800000], finite when that pattern is below [0x7F800000], and a NaN
    when it differs from itself. *)
Definition spec_isinf_lane (x : F32.float) : bool :=
  (Z.land (F32.bits x) 0x7FFFFFFF =? 0x7F800000)%Z.

Definition spec_isnan_lane (x : F32.float) : bool := negb (SFeqb x x).

Definition spec_isfinite_lane (x : F32.float) : bool :=
  (Z.land (F32.bits x) 0x7FFFFFFF <? 0x7F800000)%Z.

Definition lanewise (f : F32.float -> bool) (v : float4) : mask4 :=
  mk_mask4 (f (lane0 v)) (f (lane1 v)) (f (lane2 v)) (f (lane3 v)).

Definition spec_isinf (v : float4) : mask4 := lanewise spec_isinf_lane v.
Definition spec_isnan (v : float4) : mask4 := lanewise spec_isnan_lane v.
Definition spec_isfinite (v : float4) : mask4 := lanewise spec_isfinite_lane v.

(** All four lanes hold binary32 numbers in canonical form. *)
Definition well_formed (v : float4) : bool :=
  F32.well_formed (lane0 v) && F32.well_formed (lane1 v)
  && F32.well_formed (lane2 v) && F32.well_formed (lane3 v).

(** The body of each of the three functions as a term over the operations
    it calls, so that the technique it uses can be read off. *)
Inductive mask_expr : Type :=
| Cmp_neq_self                   (** [v != v] *)
| Scalar_isinf_per_lane          (** [store(values, v)] and
                                     [mask4(std::isinf(values[0]), ...)] *)
| Mask_or (a b : mask_expr)      (** [a | b] *)
| Mask_not (a : mask_expr).      (** [!a] *)

Fixpoint eval (e : mask_expr) (v : float4) : mask4 :=
  match e with
  | Cmp_neq_self => neq v v
  | Scalar_isinf_per_lane =>
      let values := store v in
      mk_mask4 (std_isinf (nth 0 values F32.pos_zero))
               (std_isinf (nth 1 values F32.pos_zero))
               (std_isinf (nth 2 values F32.pos_zero))
               (std_isinf (nth 3 values F32.pos_zero))
  | Mask_or a b => mask_or (eval a v) (eval b v)
  | Mask_not a => mask_not (eval a v)
  end.

(** Does the term call a scalar classification routine of <cmath>? *)
Fixpoint calls_scalar_routine (e : mask_expr) : bool :=
  match e with
  | Cmp_neq_self => false
  | Scalar_isinf_per_lane => true
  | Mask_or a b => calls_scalar_routine a || calls_scalar_routine b
  | Mask_not a => calls_scalar_routine a
  end.

Inductive classifier : Type := Isinf | Isnan | Isfinite.

Definition body (c : classifier) : mask_expr :=
  match c with
  | Isinf => Scalar_isinf_per_lane
  | Isnan => Cmp_neq_self
  | Isfinite => Mask_not (Mask_or Scalar_isinf_per_lane Cmp_neq_self)
  end.

Definition run (c : classifier) : float4 -> mask4 :=
  match c with
  | Isinf => isinf
  | Isnan => isnan
  | Isfinite => isfinite
  end.

(** The IEEE-754 class of a lane value, as the reference: NaN, infinite,
    or neither. *)
Definition class_nan (x : F32.float) : bool :=
  match SFclassify F32.prec x with
  | FloatClass.NaN => true
  | _ => false
  end.

Definition class_inf (x : F32.float) : bool :=
  match SFclassify F32.prec x with
  | FloatClass.PInf | FloatClass.NInf => true
  | _ => false
  end.

Definition class_finite (x : F32.float) : bool :=
  negb (class_nan x) && negb (class_inf x).

(** ** The other operations of [float4.inl]

    The SSE intrinsics are given the meaning of the instruction set
    reference, with the default control word: round to nearest, ties to
    even, no flush to zero. *)

Definition map4 (f : F32.float -> F32.float) (v : float4) : float4 :=
  mk_float4 (f (lane0 v)) (f (lane1 v)) (f (lane2 v)) (f (lane3 v)).

Definition zip4 (f : F32.float -> F32.float -> F32.float) (u v : float4)
  : float4 :=
  mk_float4 (f (lane0 u) (lane0 v)) (f (lane1 u) (lane1 v))
            (f (lane2 u) (lane2 v)) (f (lane3 u) (lane3 v)).

Definition cmp4 (f : F32.float -> F32.float -> bool) (u v : float4) : mask4 :=
  mk_mask4 (f (lane0 u) (lane0 v)) (f (lane1 u) (lane1 v))
           (f (lane2 u) (lane2 v)) (f (lane3 u) (lane3 v)).

(** [_mm_set_ps(e3, e2, e1, e0)]: the last argument is lane 0. *)
Definition mm_set_ps (e3 e2 e1 e0 : F32.float) : float4 :=
  mk_float4 e0 e1 e2 e3.

Definition mm_set1_ps (a : F32.float) : float4 := mk_float4 a a a a.

Definition mm_setzero_ps : float4 := mm_set1_ps F32.pos_zero.

(** [_mm_load_ps]: four consecutive floats, the first one in lane 0. *)
Definition mm_load_ps (src : list F32.float) : float4 :=
  mk_float4 (nth 0 src F32.pos_zero) (nth 1 src F32.pos_zero)
            (nth 2 src F32.pos_zero) (nth 3 src F32.pos_zero).

Definition mm_add_ps : float4 -> float4 -> float4 := zip4 F32.fadd.
Definition mm_sub_ps : float4 -> float4 -> float4 := zip4 F32.fsub.

(** [_mm_min_ps] and [_mm_max_ps]: [a < b ? a : b] and [a > b ? a : b] on
    each lane, so that the second operand is returned when a lane is
    unordered or holds two zeros. *)
Definition mm_min_ps : float4 -> float4 -> float4 :=
  zip4 (fun a b => if SFltb a b then a else b).

Definition mm_max_ps : float4 -> float4 -> float4 :=
  zip4 (fun a b => if SFltb b a then a else b).

(** The ordered comparisons: false on a lane with a NaN. *)
Definition mm_cmplt_ps : float4 -> float4 -> mask4 := cmp4 SFltb.
Definition mm_cmpgt_ps : float4 -> float4 -> mask4 := cmp4 (fun a b => SFltb b a).
Definition mm_cmple_ps : float4 -> float4 -> mask4 := cmp4 SFleb.
Definition mm_cmpge_ps : float4 -> float4 -> mask4 := cmp4 (fun a b => SFleb b a).
Definition mm_cmpeq_ps : float4 -> float4 -> mask4 := cmp4 SFeqb.

(** *** Members: [float4(x, y, z, w)], [float4(v)], [float4(s)] *)

Definition make (x y z w : F32.float) : float4 := mm_set_ps w z y x.
Definition from_array (v : list F32.float) : float4 := mm_load_ps v.
Definition broadcast (s : F32.float) : float4 := mm_set1_ps s.

(** *** Load / store / get *)

Definition load (src : list F32.float) : float4 := mm_load_ps src.

(** [get<I>(v)]; [static_assert(I < 4)] rejects any other index. *)
Definition get (I : nat) (v : float4) : option F32.float :=
  if (I <? 4)%nat then Some (nth I (store v) F32.pos_zero) else None.

(** *** Transposition *)

(** [_MM_SHUFFLE(z, y, x, w)] packs four 2-bit indices into an immediate. *)
Definition MM_SHUFFLE (z y x w : Z) : Z :=
  Z.lor (Z.shiftl z 6) (Z.lor (Z.shiftl y 4) (Z.lor (Z.shiftl x 2) w)).

Definition select_lane (v : float4) (i : Z) : F32.float :=
  match i with
  | 0%Z => lane0 v
  | 1%Z => lane1 v
  | 2%Z => lane2 v
  | _ => lane3 v
  end.

(** [_mm_shuffle_ps(a, b, imm8)]: lanes 0 and 1 are picked from [a] by
    bits 1:0 and 3:2 of the immediate, lanes 2 and 3 from [b] by bits 5:4
    and 7:6. *)
Definition mm_shuffle_ps (a b : float4) (imm8 : Z) : float4 :=
  mk_float4 (select_lane a (Z.land imm8 3))
            (select_lane a (Z.land (Z.shiftr imm8 2) 3))
            (select_lane b (Z.land (Z.shiftr imm8 4) 3))
            (select_lane b (Z.land (Z.shiftr imm8 6) 3)).

Definition mm_movelh_ps (a b : float4) : float4 :=
  mk_float4 (lane0 a) (lane1 a) (lane0 b) (lane1 b).

Definition mm_movehl_ps (a b : float4) : float4 :=
  mk_float4 (lane2 b) (lane3 b) (lane2 a) (lane3 a).

Definition mm_unpacklo_ps (a b : float4) : float4 :=
  mk_float4 (lane0 a) (lane0 b) (lane1 a) (lane1 b).

Definition mm_unpackhi_ps (a b : float4) : float4 :=
  mk_float4 (lane2 a) (lane2 b) (lane3 a) (lane3 b).

(** [shuffle<U0, U1, V2, V3>(u, v)] and [shuffle<V0, V1, V2, V3>(v)] *)
Definition shuffle2 (U0 U1 V2 V3 : Z) (u v : float4) : float4 :=
  mm_shuffle_ps u v (MM_SHUFFLE V3 V2 U1 U0).

Definition shuffle (V0 V1 V2 V3 : Z) (v : float4) : float4 :=
  mm_shuffle_ps v v (MM_SHUFFLE V3 V2 V1 V0).

Definition move_lo (u v : float4) : float4 := mm_movelh_ps u v.
Definition move_hi (u v : float4) : float4 := mm_movehl_ps u v.
Definition interleave_lo (u v : float4) : float4 := mm_unpacklo_ps u v.
Definition interleave_hi (u v : float4) : float4 := mm_unpackhi_ps u v.

(** *** Basic arithmetics: unary [+] and [-], binary [+] and [-] *)

Definition pos (v : float4) : float4 := mm_add_ps mm_setzero_ps v.
Definition neg (v : float4) : float4 := mm_sub_ps mm_setzero_ps v.
Definition plus (u v : float4) : float4 := mm_add_ps u v.
Definition minus (u v : float4) : float4 := mm_sub_ps u v.

(** *** Comparisons ([operator!=] is [neq] above) *)

Definition lt (u v : float4) : mask4 := mm_cmplt_ps u v.
Definition gt (u v : float4) : mask4 := mm_cmpgt_ps u v.
Definition le (u v : float4) : mask4 := mm_cmple_ps u v.
Definition ge (u v : float4) : mask4 := mm_cmpge_ps u v.
Definition eq (u v : float4) : mask4 := mm_cmpeq_ps u v.

(** *** Math functions *)

Definition min (u v : float4) : float4 := mm_min_ps u v.
Definition max (u v : float4) : float4 := mm_max_ps u v.

Definition saturate (u : float4) : float4 :=
  mm_max_ps mm_setzero_ps (mm_min_ps u (mm_set1_ps (F32.of_Z 1))).

(** *** [ceil] and [floor] without SSE4.1

    [__m128i] is four signed 32-bit integers. *)
Record m128i : Type :=
  mk_m128i { int0 : Z; int1 : Z; int2 : Z; int3 : Z }.

(** The integer part of a float, towards zero; [None] for an infinity or
    a NaN. *)
Definition truncate (x : F32.float) : option Z :=
  match x with
  | S754_zero _ => Some 0%Z
  | S754_finite s m (Zneg k) => Some (cond_Zopp s (Zpos m / Z.pow_pos 2 k))%Z
  | S754_finite s m e => Some (cond_Zopp s (Zpos m * 2 ^ e))%Z
  | _ => None
  end.

(** Does the integer fit a signed 32-bit lane? *)
Definition fits_int32 (n : Z) : bool := ((- 2 ^ 31 <=? n) && (n <? 2 ^ 31))%Z.

(** [_mm_cvttps_epi32]: conversion with truncation; a lane that does not
    fit, an infinity or a NaN gives the integer indefinite value
    [0x80000000], that is [-2^31]. *)
Definition cvtt_lane (x : F32.float) : Z :=
  match truncate x with
  | Some n => if fits_int32 n then n else (- 2 ^ 31)%Z
  | None => (- 2 ^ 31)%Z
  end.

Definition mm_cvttps_epi32 (v : float4) : m128i :=
  mk_m128i (cvtt_lane (lane0 v)) (cvtt_lane (lane1 v))
           (cvtt_lane (lane2 v)) (cvtt_lane (lane3 v)).

(** [_mm_cvtepi32_ps]: the float nearest to each integer. *)
Definition mm_cvtepi32_ps (i : m128i) : float4 :=
  mk_float4 (F32.of_Z (int0 i)) (F32.of_Z (int1 i))
            (F32.of_Z (int2 i)) (F32.of_Z (int3 i)).

(** [_mm_castps_si128] of the result of a comparison: a set lane is the
    pattern [0xFFFFFFFF], the integer [-1]; a clear lane is [0]. *)
Definition mm_castps_si128 (t : mask4) : m128i :=
  mk_m128i (if bit0 t then (-1)%Z else 0%Z) (if bit1 t then (-1)%Z else 0%Z)
           (if bit2 t then (-1)%Z else 0%Z) (if bit3 t then (-1)%Z else 0%Z).

(** The [#else] branches of [ceil] and [floor]. *)
Definition ceil_sse2 (v : float4) : float4 :=
  let i := mm_cvtepi32_ps (mm_cvttps_epi32 v) in
  let t := mm_cmplt_ps i v in
  let d := mm_cvtepi32_ps (mm_castps_si128 t) in
  let r := mm_sub_ps i d in
  r.

Definition floor_sse2 (v : float4) : float4 :=
  let i := mm_cvtepi32_ps (mm_cvttps_epi32 v) in
  let t := mm_cmpgt_ps i v in
  let d := mm_cvtepi32_ps (mm_castps_si128 t) in
  let r := mm_add_ps i d in
  r.

(** *** Bitwise operations, [select] and [abs]

    The bitwise intrinsics read the same register as four 32-bit
    patterns. *)
Record m128 : Type :=
  mk_m128 { word0 : Z; word1 : Z; word2 : Z; word3 : Z }.

Definition is_word (w : Z) : bool := ((0 <=? w) && (w <? 2 ^ 32))%Z.

Definition words_ok (a : m128) : bool :=
  is_word (word0 a) && is_word (word1 a) && is_word (word2 a) && is_word (word3 a).

Definition zip_words (f : Z -> Z -> Z) (a b : m128) : m128 :=
  mk_m128 (f (word0 a) (word0 b)) (f (word1 a) (word1 b))
          (f (word2 a) (word2 b)) (f (word3 a) (word3 b)).

Definition mm_and_ps : m128 -> m128 -> m128 := zip_words Z.land.
Definition mm_or_ps : m128 -> m128 -> m128 := zip_words Z.lor.
Definition mm_xor_ps : m128 -> m128 -> m128 := zip_words Z.lxor.

(** [_mm_andnot_ps(a, b)]: [(~a) & b]. *)
Definition mm_andnot_ps : m128 -> m128 -> m128 :=
  zip_words (fun a b => Z.land (Z.lxor a 0xFFFFFFFF) b).

(** [_mm_blendv_ps(a, b, mask)]: lane of [b] where the sign bit of the
    mask lane is set, lane of [a] elsewhere. *)
Definition mm_blendv_ps (a b mask : m128) : m128 :=
  mk_m128 (if Z.testbit (word0 mask) 31 then word0 b else word0 a)
          (if Z.testbit (word1 mask) 31 then word1 b else word1 a)
          (if Z.testbit (word2 mask) 31 then word2 b else word2 a)
          (if Z.testbit (word3 mask) 31 then word3 b else word3 a).

(** [_mm_castsi128_ps(_mm_set1_epi32(i))]: the pattern [i] in every lane. *)
Definition mm_set1_epi32 (i : Z) : m128 := mk_m128 i i i i.

(** The patterns of four float values. *)
Definition bits_of (v : float4) : m128 :=
  mk_m128 (F32.bits (lane0 v)) (F32.bits (lane1 v))
          (F32.bits (lane2 v)) (F32.bits (lane3 v)).

(** [operator&], [operator|], [operator^]; [operator&&] and [operator||]
    have the bodies of [operator&] and [operator|]. *)
Definition bit_and (u v : m128) : m128 := mm_and_ps u v.
Definition bit_or (u v : m128) : m128 := mm_or_ps u v.
Definition bit_xor (u v : m128) : m128 := mm_xor_ps u v.
Definition logical_and (u v : m128) : m128 := mm_and_ps u v.
Definition logical_or (u v : m128) : m128 := mm_or_ps u v.

(** The four float values that a register of patterns holds. *)
Definition values_of (a : m128) : float4 :=
  mk_float4 (F32.of_bits (word0 a)) (F32.of_bits (word1 a))
            (F32.of_bits (word2 a)) (F32.of_bits (word3 a)).

(** The [#else] branch of [round]: [s] keeps the sign bits of [v], [m] is
    the magic number [2^23] with those sign bits, as patterns; the sum and
    the difference are taken on the values. *)
Definition round_sse2 (v : float4) : float4 :=
  let s := mm_and_ps (bits_of v) (mm_set1_epi32 0x80000000) in
  let m := mm_or_ps s (mm_set1_epi32 0x4B000000) in
  let x := mm_add_ps v (values_of m) in
  let y := mm_sub_ps x (values_of m) in
  y.

(** [select(m, a, b)]; [sse4_1] tells which branch of the [#if] is
    compiled, and [m] is the register [m.f] of the mask. *)
Definition select (sse4_1 : bool) (m a b : m128) : m128 :=
  if sse4_1 then mm_blendv_ps b a m
  else mm_or_ps (mm_and_ps m a) (mm_andnot_ps m b).

Definition abs (u : m128) : m128 := mm_and_ps u (mm_set1_epi32 0x7FFFFFFF).

(** The mask register of four booleans, as the comparisons produce it. *)
Definition mask_bits (m : mask4) : m128 :=
  mk_m128 (if bit0 m then 0xFFFFFFFF else 0) (if bit1 m then 0xFFFFFFFF else 0)
          (if bit2 m then 0xFFFFFFFF else 0) (if bit3 m then 0xFFFFFFFF else 0).

(** Not in the sources, used to state properties: [0 <= x <= 1]; a lane
    that [_mm_cvttps_epi32] cannot convert; the lanes picked by a mask. *)
Definition in_unit_interval (x : F32.float) : bool :=
  SFleb F32.pos_zero x && SFleb x (F32.of_Z 1).

Definition out_of_int32 (x : F32.float) : bool :=
  match truncate x with
  | Some n => negb (fits_int32 n)
  | None => true
  end.

(** Not in the sources, the reference for [floor] and [ceil]: the
    integers just below and just above a finite float, and whether a float
    is exactly a given integer. *)
Definition floor_int (x : F32.float) : option Z :=
  match x with
  | S754_zero _ => Some 0%Z
  | S754_finite s m (Zneg k) => Some (cond_Zopp s (Zpos m) / Z.pow_pos 2 k)%Z
  | S754_finite s m e => Some (cond_Zopp s (Zpos m) * 2 ^ e)%Z
  | _ => None
  end.

Definition ceil_int (x : F32.float) : option Z :=
  match x with
  | S754_zero _ => Some 0%Z
  | S754_finite s m (Zneg k) =>
      Some (- ((- (cond_Zopp s (Zpos m))) / Z.pow_pos 2 k))%Z
  | S754_finite s m e => Some (cond_Zopp s (Zpos m) * 2 ^ e)%Z
  | _ => None
  end.

(** Not in the sources, the reference for [round]: the integer nearest
    to [m / 2^k], the even one of the two when [m / 2^k] lies half way, and
    the integer nearest to a finite float. *)
Definition nearest_even (m : Z) (k : positive) : Z :=
  let q := (m / 2 ^ Zpos k)%Z in
  let r := (m mod 2 ^ Zpos k)%Z in
  let h := (2 ^ (Zpos k - 1))%Z in
  if (r <? h)%Z then q
  else if (h <? r)%Z then (q + 1)%Z
  else if Z.even q then q else (q + 1)%Z.

Definition round_int (x : F32.float) : option Z :=
  match x with
  | S754_zero _ => Some 0%Z
  | S754_finite s m (Zneg k) => Some (cond_Zopp s (nearest_even (Zpos m) k))
  | S754_finite s m e => Some (cond_Zopp s (Zpos m * 2 ^ e))%Z
  | _ => None
  end.

Definition has_value (f : F32.float) (n : Z) : bool :=
  match f with
  | S754_zero _ => (n =? 0)%Z
  | S754_finite s m (Zneg k) => (cond_Zopp s (Zpos m) =? n * Z.pow_pos 2 k)%Z
  | S754_finite s m e => (cond_Zopp s (Zpos m) * 2 ^ e =? n)%Z
  | _ => false
  end.

Definition pick (m : mask4) (a b : m128) : m128 :=
  mk_m128 (if bit0 m then word0 a else word0 b)
          (if bit1 m then word1 a else word1 b)
          (if bit2 m then word2 a else word2 b)
          (if bit3 m then word3 a else word3 b).

End Simd.

(* ================================================================== *)
(** * [basic_intersector<Derived>]  (intersector.h)                    *)
(* ================================================================== *)

Module basic_intersector.
Section Dispatch.
(** Ray, primitive, derived intersector, trailing call argument, result. *)
Variables R P Derived Arg Res : Type.

(** [is_bvh<P>::value], from [bvh.h]. *)
Variable is_bvh : bool.

(** The intersector passed as an argument: [*static_cast<Derived*>(this)]. *)
Variable self_arg : Derived -> Arg.

(** The free functions [intersect] found for a call
    [intersect(ray, prim, args...)]: [None] when no overload accepts the
    arguments, so that the expression is ill-formed. *)
Variable intersect : R -> P -> list Arg -> option Res.

Definition well_formed (ray : R) (prim : P) (args : list Arg) : bool :=
  match intersect ray prim args with Some _ => true | None => false end.

(** First [operator()]: takes any trailing arguments; it takes part in
    overload resolution when [intersect(ray, prim, args...)] is well
    formed (the trailing return type), and its body calls
    [intersect(ray, prim)]. *)
Definition variadic_viable (ray : R) (prim : P) (args : list Arg) : bool :=
  well_formed ray prim args.

Definition variadic_body (ray : R) (prim : P) (args : list Arg) : option Res :=
  intersect ray prim [].

(** Second [operator()]: exactly [(ray, prim)], enabled by
    [is_bvh<P>::value] and by a well-formed
    [intersect(ray, prim, *static_cast<Derived*>(this))]. *)
Definition hierarchy_viable (d : Derived) (ray : R) (prim : P) (args : list Arg)
  : bool :=
  match args with
  | [] => is_bvh && well_formed ray prim [self_arg d]
  | _ :: _ => false
  end.

Definition hierarchy_body (d : Derived) (ray : R) (prim : P) : option Res :=
  intersect ray prim [self_arg d].

(** The call [d(ray, prim, args...)].  When both overloads are viable the
    one without a parameter pack is the more specialised and is chosen;
    [None] when the call does not compile. *)
Definition call (d : Derived) (ray : R) (prim : P) (args : list Arg)
  : option Res :=
  if hierarchy_viable d ray prim args then hierarchy_body d ray prim
  else if variadic_viable ray prim args then variadic_body ray prim args
  else None.
End Dispatch.
End basic_intersector.

(* ================================================================== *)
(** * Laws of the comparison operators                                 *)
(* ================================================================== *)

(** The facts about [<], [<=] and [==] that the proofs use.  They are
    stated so that IEEE floats satisfy them: a value [a] with [a <= a] is
    an ordered one (for a float: not a NaN), and only ordered values are
    required to be comparable. *)
Class OrderLaws (T : Type) `{Scalar T} : Prop := {
  ltb_leb : forall a b : T, ltb a b = true -> leb a b = true;
  ltb_not_leb : forall a b : T, ltb a b = true -> leb b a = false;
  leb_trans : forall a b c : T, leb a b = true -> leb b c = true -> leb a c = true;
  leb_ordered_l : forall a b : T, leb a b = true -> leb a a = true;
  leb_ordered_r : forall a b : T, leb a b = true -> leb b b = true;
  leb_total : forall a b : T,
      leb a a = true -> leb b b = true -> ltb a b = false -> leb b a = true;
  eqb_leb : forall a b : T, eqb a b = leb a b && leb b a;
  zero_ordered : leb (zero : T) zero = true
}.
Arguments OrderLaws T {_}.

(* ================================================================== *)
(** * Predicates, boxes and points used in the statements              *)
(* ================================================================== *)

(** Not in the sources, used to state properties: does a binary32 point
    or box have a NaN coordinate? *)
Definition point_has_nan (v : vector3 F32.float) : bool :=
  F32.is_nan (Vector3.x v) || F32.is_nan (Vector3.y v) || F32.is_nan (Vector3.z v).

Definition box_has_nan (b : basic_aabb F32.float) : bool :=
  point_has_nan (Aabb.min b) || point_has_nan (Aabb.max b).

(** Not in the sources, used to state properties: are all the coordinates
    of a binary32 point or box finite numbers? *)
Definition point_is_finite (v : vector3 F32.float) : bool :=
  F32.finite_number (Vector3.x v) && F32.finite_number (Vector3.y v)
  && F32.finite_number (Vector3.z v).

Definition box_is_finite (b : basic_aabb F32.float) : bool :=
  point_is_finite (Aabb.min b) && point_is_finite (Aabb.max b).

(** Not in the sources, used in the proofs about [area]: a float that is
    a NaN, a zero, or has its sign bit clear. *)
Definition not_negative (x : F32.float) : Prop :=
  match x with
  | S754_zero _ => True
  | S754_infinity s | S754_finite s _ _ => s = false
  | S754_nan => True
  end.

Module Examples.

(** The box [[(a,b,c), (d,e,f)]] with integer corners, in binary32. *)
Definition fbox (a b c d e f : Z) : basic_aabb F32.float :=
  Aabb.mk (Vector3.mk (F32.of_Z a) (F32.of_Z b) (F32.of_Z c))
          (Vector3.mk (F32.of_Z d) (F32.of_Z e) (F32.of_Z f)).

Definition fvec (a b c : Z) : vector3 F32.float :=
  Vector3.mk (F32.of_Z a) (F32.of_Z b) (F32.of_Z c).

(** The boxes of the spec's scenario. *)
Definition box_A : basic_aabb F32.float := fbox 0 0 0 2 2 2.
Definition box_B : basic_aabb F32.float := fbox 1 1 1 3 3 3.

(** Two disjoint unit-sized boxes. *)
Definition box_lo : basic_aabb F32.float := fbox 0 0 0 1 1 1.
Definition box_hi : basic_aabb F32.float := fbox 2 2 2 3 3 3.

(** A box with [min > max] on every axis. *)
Definition box_inverted : basic_aabb F32.float := fbox 5 5 5 1 1 1.

(** A box whose edges have length [2^-50]: its volume, [2^-150], is
    below the smallest positive binary32 number. *)
Definition box_tiny : basic_aabb F32.float :=
  Aabb.mk (Vector3.broadcast F32.pos_zero)
          (Vector3.broadcast (F32.of_Z_pow2 1 (-50))).

(** A box whose edges have length [2^50]: its volume, [2^150], is above
    the largest binary32 number. *)
Definition box_huge : basic_aabb F32.float :=
  Aabb.mk (Vector3.broadcast F32.pos_zero)
          (Vector3.broadcast (F32.of_Z_pow2 1 50)).

(** The box whose two corners are the point [(+inf, +inf, +inf)]. *)
Definition box_at_infinity : basic_aabb F32.float :=
  Aabb.mk (Vector3.broadcast F32.pos_inf) (Vector3.broadcast F32.pos_inf).

(** The box that spans [[-inf, +inf]] on every axis. *)
Definition box_unbounded : basic_aabb F32.float :=
  Aabb.mk (Vector3.broadcast F32.neg_inf) (Vector3.broadcast F32.pos_inf).

(** Another choice of limits, those of [std::numeric_limits<float>]: the
    largest finite binary32 number and its opposite. *)
Definition finite_limits : NumericLimits F32.float := {|
  numeric_max := SFmax_float F32.prec F32.emax;
  numeric_lowest := SFopp (SFmax_float F32.prec F32.emax)
|}.

(** The box whose two corners are the largest finite binary32 number on
    every axis. *)
Definition box_largest : basic_aabb F32.float :=
  Aabb.mk (Vector3.broadcast (SFmax_float F32.prec F32.emax))
          (Vector3.broadcast (SFmax_float F32.prec F32.emax)).

(** The box [[-1, 2^24]] on every axis. *)
Definition box_wide : basic_aabb F32.float :=
  fbox (-1) (-1) (-1) 16777216 16777216 16777216.

Definition point_nan : vector3 F32.float :=
  Vector3.mk F32.nan F32.pos_zero F32.pos_zero.

Definition box_nan : basic_aabb F32.float :=
  Aabb.mk point_nan point_nan.

(** The same scenario in exact rationals. *)
Definition qbox (a b c d e f : Z) : basic_aabb Q :=
  Aabb.mk (Vector3.mk (inject_Z a) (inject_Z b) (inject_Z c))
          (Vector3.mk (inject_Z d) (inject_Z e) (inject_Z f)).

Definition qbox_A : basic_aabb Q := qbox 0 0 0 2 2 2.
Definition qbox_B : basic_aabb Q := qbox 1 1 1 3 3 3.

(** The triangle with [e1 = (1,0,0)], [e2 = (0,1,0)] at vertex [v]. *)
Definition unit_triangle (v : vector3 F32.float) : basic_triangle F32.float :=
  Triangle.mk v (fvec 1 0 0) (fvec 0 1 0).

(** A small overload set for [intersect]: [intersect(ray, prim)] tests a
    leaf, [intersect(ray, prim, isect)] traverses with the intersector it
    is given, and no overload takes more arguments.  Rays, primitives and
    intersectors are numbered. *)
Inductive toy_result : Type :=
| Leaf_hit (ray prim : nat)
| Traversed_with (ray prim isect : nat).

Definition toy_intersect (ray prim : nat) (args : list nat) : option toy_result :=
  match args with
  | [] => Some (Leaf_hit ray prim)
  | [isect] => Some (Traversed_with ray prim isect)
  | _ => None
  end.

End Examples.

(* ================================================================== *)
(** * Tactics                                                          *)
(* ================================================================== *)

(** Case analysis on floats and on the comparisons inside [SFcompare]. *)
Ltac float_cases :=
  repeat match goal with
         | f : spec_float |- _ => destruct f as [?s|?s| |?s ?m ?e]
         | f : F32.float |- _ => destruct f as [?s|?s| |?s ?m ?e]
         end;
  cbn [SFleb SFltb SFeqb SFcompare];
  repeat match goal with s : bool |- _ => destruct s end;
  cbn [SFleb SFltb SFeqb SFcompare CompOpp];
  try discriminate; try reflexivity; try tauto.

Ltac cmp_cases :=
  change (Pos.compare_cont Eq) with Pos.compare;
  repeat match goal with
         | |- context [Z.compare ?a ?b] => destruct (Z.compare_spec a b)
         | |- context [Pos.compare ?a ?b] => destruct (Pos.compare_spec a b)
         end;
  cbn [CompOpp]; subst; try discriminate; try reflexivity; try tauto; try lia.

(** Boolean conjunctions, in the hypotheses and in the goal. *)
Ltac split_and :=
  repeat match goal with
         | H : _ && _ = true |- _ => apply andb_true_iff in H; destruct H
         | |- _ && _ = true => apply andb_true_iff; split
         | |- _ /\ _ => split
         end.

(** Every value that occurs in a [<=] hypothesis is ordered. *)
Ltac ordered_hyps :=
  repeat match goal with
         | H : leb ?a ?b = true |- _ =>
             lazymatch goal with
             | _ : leb a a = true |- _ => fail
             | _ => pose proof (leb_ordered_l _ _ H)
             end
         | H : leb ?a ?b = true |- _ =>
             lazymatch goal with
             | _ : leb b b = true |- _ => fail
             | _ => pose proof (leb_ordered_r _ _ H)
             end
         end.

(* ================================================================== *)
(** * The comparison laws hold for binary32 and for [Q]                *)
(* ================================================================== *)

Lemma SFleb_trans x y z :
  SFleb x y = true -> SFleb y z = true -> SFleb x z = true.
Proof. unfold SFleb. float_cases; cmp_cases. Qed.

Lemma SFltb_SFleb x y : SFltb x y = true -> SFleb x y = true.
Proof. unfold SFltb, SFleb. float_cases; cmp_cases. Qed.

Lemma SFltb_not_SFleb x y : SFltb x y = true -> SFleb y x = false.
Proof. unfold SFltb, SFleb. float_cases; cmp_cases. Qed.

Lemma SFleb_total x y :
  SFleb x x = true -> SFleb y y = true -> SFltb x y = false -> SFleb y x = true.
Proof. unfold SFltb, SFleb. float_cases; cmp_cases. Qed.

Lemma SFleb_ordered_l x y : SFleb x y = true -> SFleb x x = true.
Proof. unfold SFleb. float_cases; cmp_cases. Qed.

Lemma SFleb_ordered_r x y : SFleb x y = true -> SFleb y y = true.
Proof. unfold SFleb. float_cases; cmp_cases. Qed.

Lemma SFeqb_SFleb x y : SFeqb x y = SFleb x y && SFleb y x.
Proof. unfold SFeqb, SFleb. float_cases; cmp_cases. Qed.

(** A float is ordered exactly when it is not a NaN. *)
Lemma SFleb_refl_not_nan x : SFleb x x = negb (F32.is_nan x).
Proof. unfold SFleb. float_cases; cmp_cases. Qed.

#[export] Instance float_OrderLaws : OrderLaws F32.float.
Proof.
  constructor; cbn.
  - exact SFltb_SFleb.
  - exact SFltb_not_SFleb.
  - exact SFleb_trans.
  - exact SFleb_ordered_l.
  - exact SFleb_ordered_r.
  - exact SFleb_total.
  - exact SFeqb_SFleb.
  - reflexivity.
Qed.

Lemma Qltb_lt (a b : Q) : Qltb a b = true <-> (a < b)%Q.
Proof.
  unfold Qltb. rewrite negb_true_iff.
  split.
  - intros E. apply Qnot_le_lt. intros L.
    apply Qle_bool_iff in L. congruence.
  - intros L. destruct (Qle_bool b a) eqn:E; [|reflexivity].
    apply Qle_bool_iff in E. exfalso. apply (Qlt_not_le _ _ L E).
Qed.

Lemma Qltb_false (a b : Q) : Qltb a b = false <-> (b <= a)%Q.
Proof.
  unfold Qltb. rewrite negb_false_iff. apply Qle_bool_iff.
Qed.

#[export] Instance Q_OrderLaws : OrderLaws Q.
Proof.
  constructor; cbn.
  - intros a b L. apply Qltb_lt in L. apply Qle_bool_iff. lra.
  - intros a b L. apply Qltb_lt in L.
    destruct (Qle_bool b a) eqn:E; [|reflexivity].
    apply Qle_bool_iff in E. lra.
  - intros a b c L1 L2. apply Qle_bool_iff in L1, L2. apply Qle_bool_iff. lra.
  - intros a b _. apply Qle_bool_iff. lra.
  - intros a b _. apply Qle_bool_iff. lra.
  - intros a b _ _ L. apply Qltb_false in L. apply Qle_bool_iff. exact L.
  - intros a b. destruct (Qeq_bool a b) eqn:E.
    + apply Qeq_bool_iff in E. symmetry. apply andb_true_iff.
      split; apply Qle_bool_iff; lra.
    + symmetry. apply andb_false_iff.
      destruct (Qle_bool a b) eqn:L1; [|now left].
      destruct (Qle_bool b a) eqn:L2; [|now right].
      apply Qle_bool_iff in L1, L2.
      assert (a == b)%Q as Eab by lra.
      apply Qeq_bool_iff in Eab. congruence.
  - reflexivity.
Qed.

(* ================================================================== *)
(** * Scalar [min] and [max] under the comparison laws                 *)
(* ================================================================== *)

Section MinMax.
Context {T : Type} `{OrderLaws T}.

Lemma min_cases (a b : T) : Math.min a b = a \/ Math.min a b = b.
Proof. unfold Math.min. destruct (ltb b a); auto. Qed.

Lemma max_cases (a b : T) : Math.max a b = a \/ Math.max a b = b.
Proof. unfold Math.max. destruct (ltb a b); auto. Qed.

Lemma min_le_l (a b : T) : leb a a = true -> leb (Math.min a b) a = true.
Proof.
  intros Oa. unfold Math.min. destruct (ltb b a) eqn:E; [|exact Oa].
  now apply ltb_leb.
Qed.

Lemma min_le_r (a b : T) :
  leb a a = true -> leb b b = true -> leb (Math.min a b) b = true.
Proof.
  intros Oa Ob. unfold Math.min. destruct (ltb b a) eqn:E; [exact Ob|].
  now apply leb_total.
Qed.

Lemma max_ge_l (a b : T) : leb a a = true -> leb a (Math.max a b) = true.
Proof.
  intros Oa. unfold Math.max. destruct (ltb a b) eqn:E; [|exact Oa].
  now apply ltb_leb.
Qed.

Lemma max_ge_r (a b : T) :
  leb a a = true -> leb b b = true -> leb b (Math.max a b) = true.
Proof.
  intros Oa Ob. unfold Math.max. destruct (ltb a b) eqn:E; [exact Ob|].
  now apply leb_total.
Qed.

Lemma min_glb (a b c : T) :
  leb c a = true -> leb c b = true -> leb c (Math.min a b) = true.
Proof. intros La Lb. destruct (min_cases a b) as [E|E]; now rewrite E. Qed.

Lemma max_lub (a b c : T) :
  leb a c = true -> leb b c = true -> leb (Math.max a b) c = true.
Proof. intros La Lb. destruct (max_cases a b) as [E|E]; now rewrite E. Qed.

(** [a == a] for an ordered [a]. *)
Lemma eqb_refl_ordered (a : T) : leb a a = true -> eqb a a = true.
Proof. intros Oa. rewrite eqb_leb, Oa. reflexivity. Qed.

(** [min(top, a) == a] when [a <= top], and [max(bot, a) == a] when
    [bot <= a]. *)
Lemma min_absorb (top a : T) : leb a top = true -> eqb (Math.min top a) a = true.
Proof.
  intros L. unfold Math.min. destruct (ltb a top) eqn:E.
  - apply eqb_refl_ordered. now apply leb_ordered_l with top.
  - rewrite eqb_leb, L, andb_true_r.
    apply leb_total; trivial.
    + now apply leb_ordered_l with top.
    + now apply leb_ordered_r with a.
Qed.

Lemma max_absorb (bot a : T) : leb bot a = true -> eqb (Math.max bot a) a = true.
Proof.
  intros L. unfold Math.max. destruct (ltb bot a) eqn:E.
  - apply eqb_refl_ordered. now apply leb_ordered_r with bot.
  - rewrite eqb_leb, L, andb_true_l.
    apply leb_total; trivial.
    + now apply leb_ordered_l with a.
    + now apply leb_ordered_r with bot.
Qed.
End MinMax.

(** A bound between ordered values, through at most one intermediate. *)
Ltac bound_step :=
  first [ assumption
        | now apply min_le_l
        | now apply min_le_r
        | now apply max_ge_l
        | now apply max_ge_r ].

Ltac bound :=
  first [ bound_step
        | match goal with
          | L : leb ?m ?b = true |- leb _ ?b = true =>
              apply (leb_trans _ m _); [solve [bound_step] | exact L]
          | L : leb ?a ?m = true |- leb ?a _ = true =>
              apply (leb_trans _ m _); [exact L | solve [bound_step]]
          end ].

(* ================================================================== *)
(** * Union and intersection of boxes                                  *)
(* ================================================================== *)

Section CombineIntersect.
Context {T : Type} `{OrderLaws T}.

Lemma combine_contains_l (a b : basic_aabb T) :
  Aabb.valid a = true -> Aabb.valid b = true ->
  Aabb.contains_box (Aabb.combine a b) a = true.
Proof.
  destruct a as [[ax ay az] [bx by_ bz]], b as [[cx cy cz] [dx dy dz]].
  unfold Aabb.valid, Aabb.contains_box, Aabb.contains, Aabb.combine, geb; cbn.
  intros Va Vb. split_and; ordered_hyps; bound.
Qed.

Lemma combine_contains_r (a b : basic_aabb T) :
  Aabb.valid a = true -> Aabb.valid b = true ->
  Aabb.contains_box (Aabb.combine a b) b = true.
Proof.
  destruct a as [[ax ay az] [bx by_ bz]], b as [[cx cy cz] [dx dy dz]].
  unfold Aabb.valid, Aabb.contains_box, Aabb.contains, Aabb.combine, geb; cbn.
  intros Va Vb. split_and; ordered_hyps; bound.
Qed.

Lemma intersect_within_l (a b : basic_aabb T) :
  Aabb.valid a = true -> Aabb.valid b = true ->
  Aabb.within (Aabb.intersect a b) a = true.
Proof.
  destruct a as [[ax ay az] [bx by_ bz]], b as [[cx cy cz] [dx dy dz]].
  unfold Aabb.valid, Aabb.within, Vector3.le, Aabb.intersect; cbn.
  intros Va Vb. split_and; ordered_hyps; bound.
Qed.

Lemma intersect_within_r (a b : basic_aabb T) :
  Aabb.valid a = true -> Aabb.valid b = true ->
  Aabb.within (Aabb.intersect a b) b = true.
Proof.
  destruct a as [[ax ay az] [bx by_ bz]], b as [[cx cy cz] [dx dy dz]].
  unfold Aabb.valid, Aabb.within, Vector3.le, Aabb.intersect; cbn.
  intros Va Vb. split_and; ordered_hyps; bound.
Qed.

(** A valid box that lies within [b] is contained in [b]. *)
Lemma within_valid_contains (c b : basic_aabb T) :
  Aabb.valid c = true -> Aabb.within c b = true ->
  Aabb.contains_box b c = true.
Proof.
  destruct c as [[ax ay az] [bx by_ bz]], b as [[cx cy cz] [dx dy dz]].
  unfold Aabb.valid, Aabb.within, Vector3.le, Aabb.contains_box,
    Aabb.contains, geb; cbn.
  intros Vc W. split_and; trivial; eapply leb_trans; eassumption.
Qed.

(** Only a valid intersection is contained in both boxes. *)
Lemma contains_intersect_valid (a b : basic_aabb T) :
  Aabb.contains_box a (Aabb.intersect a b) = true ->
  Aabb.contains_box b (Aabb.intersect a b) = true ->
  Aabb.valid (Aabb.intersect a b) = true.
Proof.
  destruct a as [[ax ay az] [bx by_ bz]], b as [[cx cy cz] [dx dy dz]].
  unfold Aabb.valid, Aabb.contains_box, Aabb.contains, Aabb.intersect, geb; cbn.
  intros Ca Cb. split_and; now apply min_glb.
Qed.
End CombineIntersect.

(** C1, as the code has it.  For valid boxes [a] and [b], [combine(a,b)]
    contains [a] and [b]; [intersect(a,b)] lies within both (its min corner
    is not below, and its max corner not above, those of [a] and of [b]);
    and [a.contains] and [b.contains] accept [intersect(a,b)] exactly when
    that intersection is itself a valid box, that is, when [a] and [b]
    overlap. *)
Theorem combine_contains_intersect_within
  {T : Type} `{OrderLaws T} (a b : basic_aabb T) :
  Aabb.valid a = true -> Aabb.valid b = true ->
  Aabb.contains_box (Aabb.combine a b) a = true /\
  Aabb.contains_box (Aabb.combine a b) b = true /\
  Aabb.within (Aabb.intersect a b) a = true /\
  Aabb.within (Aabb.intersect a b) b = true /\
  (Aabb.valid (Aabb.intersect a b) = true <->
   Aabb.contains_box a (Aabb.intersect a b) = true /\
   Aabb.contains_box b (Aabb.intersect a b) = true).
Proof.
  intros Va Vb.
  split; [now apply combine_contains_l|].
  split; [now apply combine_contains_r|].
  split; [now apply intersect_within_l|].
  split; [now apply intersect_within_r|].
  split.
  - intros VI. split; apply within_valid_contains; trivial.
    + now apply intersect_within_l.
    + now apply intersect_within_r.
  - intros [Ca Cb]. now apply contains_intersect_valid.
Qed.

(** The boxes [A] and [B] of the spec's scenario overlap. *)
Lemma combine_contains_intersect_within_witness :
  Aabb.valid Examples.box_A = true /\ Aabb.valid Examples.box_B = true /\
  Aabb.contains_box (Aabb.combine Examples.box_A Examples.box_B) Examples.box_A = true /\
  Aabb.contains_box (Aabb.combine Examples.box_A Examples.box_B) Examples.box_B = true /\
  Aabb.within (Aabb.intersect Examples.box_A Examples.box_B) Examples.box_A = true /\
  Aabb.within (Aabb.intersect Examples.box_A Examples.box_B) Examples.box_B = true /\
  (Aabb.valid (Aabb.intersect Examples.box_A Examples.box_B) = true <->
   Aabb.contains_box Examples.box_A (Aabb.intersect Examples.box_A Examples.box_B) = true /\
   Aabb.contains_box Examples.box_B (Aabb.intersect Examples.box_A Examples.box_B) = true).
Proof.
  split; [reflexivity|]. split; [reflexivity|].
  apply (combine_contains_intersect_within Examples.box_A Examples.box_B);
    reflexivity.
Defined.

(** C1 as stated fails: the boxes [[0,1]^3] and [[2,3]^3] are valid and
    disjoint; their intersection is the inverted box [[2,1]^3], which
    neither of them contains. *)
Lemma intersect_of_disjoint_not_contained :
  Aabb.valid Examples.box_lo = true /\
  Aabb.valid Examples.box_hi = true /\
  Aabb.intersect Examples.box_lo Examples.box_hi = Examples.fbox 2 2 2 1 1 1 /\
  Aabb.contains_box Examples.box_lo
    (Aabb.intersect Examples.box_lo Examples.box_hi) = false /\
  Aabb.contains_box Examples.box_hi
    (Aabb.intersect Examples.box_lo Examples.box_hi) = false.
Proof. repeat split; vm_compute; reflexivity. Qed.

(* ================================================================== *)
(** * [safe_size]                                                      *)
(* ================================================================== *)

(** C5.  Every component of [safe_size()] is [>= 0], for every box: also
    for one with [min > max] on some axis, and also for one whose
    difference [max - min] is not an ordered value. *)
Theorem safe_size_nonneg {T : Type} `{OrderLaws T} (b : basic_aabb T) :
  geb (Vector3.x (Aabb.safe_size b)) zero = true /\
  geb (Vector3.y (Aabb.safe_size b)) zero = true /\
  geb (Vector3.z (Aabb.safe_size b)) zero = true.
Proof.
  unfold Aabb.safe_size, geb; cbn.
  repeat split; apply max_ge_l; apply zero_ordered.
Qed.

(** [safe_size] of the inverted box [[5,1]^3] is the zero vector. *)
Lemma safe_size_nonneg_witness :
  Aabb.invalid Examples.box_inverted = true /\
  Aabb.safe_size Examples.box_inverted = Vector3.broadcast zero /\
  geb (Vector3.x (Aabb.safe_size Examples.box_inverted)) zero = true /\
  geb (Vector3.y (Aabb.safe_size Examples.box_inverted)) zero = true /\
  geb (Vector3.z (Aabb.safe_size Examples.box_inverted)) zero = true.
Proof.
  split; [reflexivity|]. split; [reflexivity|].
  apply (safe_size_nonneg Examples.box_inverted).
Defined.

(** [size] of the same box is negative on every axis, and [safe_size] of a
    box with a NaN coordinate is zero there. *)
Example size_of_inverted_box :
  Aabb.size Examples.box_inverted = Examples.fvec (-4) (-4) (-4) /\
  Vector3.x (Aabb.size Examples.box_nan) = F32.nan /\
  Vector3.x (Aabb.safe_size Examples.box_nan) = zero.
Proof. repeat split; vm_compute; reflexivity. Qed.


(* ================================================================== *)
(** * The invalidated box                                              *)
(* ================================================================== *)

Section Invalidate.
Context {T : Type} `{OrderLaws T} `{NumericLimits T}.

(** The invalidated box is a left identity of [combine], up to [==], on
    the boxes whose coordinates lie within the numeric limits. *)
Lemma combine_invalidate (b0 b : basic_aabb T) :
  Aabb.in_limits b = true ->
  Aabb.equal (Aabb.combine (Aabb.invalidate b0) b) b = true.
Proof.
  destruct b as [[ax ay az] [bx by_ bz]].
  unfold Aabb.in_limits, Vector3.le, Aabb.equal,
    Vector3.equal, Aabb.combine, Aabb.invalidate; cbn.
  intros L. split_and; first [now apply min_absorb | now apply max_absorb].
Qed.

Lemma insert_box_invalidate (b0 b : basic_aabb T) :
  Aabb.in_limits b = true ->
  Aabb.equal (Aabb.insert_box (Aabb.invalidate b0) b) b = true.
Proof. exact (combine_invalidate b0 b). Qed.

End Invalidate.

(** With the limits [+inf] and [-inf], a binary32 point or box lies
    within the limits exactly when it has no NaN coordinate. *)
Lemma float_in_range_not_nan (p : vector3 F32.float) :
  Vector3.in_range (numeric_lowest : F32.float) numeric_max p
  = negb (point_has_nan p).
Proof.
  destruct p as [[| | |] [| | |] [| | |]]; cbn;
    repeat match goal with s : bool |- _ => destruct s end; reflexivity.
Qed.

Lemma float_le_pos_inf (p : vector3 F32.float) :
  Vector3.le p (Vector3.broadcast F32.pos_inf) = negb (point_has_nan p).
Proof.
  destruct p as [[| | |] [| | |] [| | |]]; cbn;
    repeat match goal with s : bool |- _ => destruct s end; reflexivity.
Qed.

Lemma float_ge_neg_inf (p : vector3 F32.float) :
  Vector3.le (Vector3.broadcast F32.neg_inf) p = negb (point_has_nan p).
Proof.
  destruct p as [[| | |] [| | |] [| | |]]; cbn;
    repeat match goal with s : bool |- _ => destruct s end; reflexivity.
Qed.

Lemma float_in_limits_not_nan (b : basic_aabb F32.float) :
  Aabb.in_limits b = negb (box_has_nan b).
Proof.
  destruct b as [lo hi]. unfold Aabb.in_limits, box_has_nan; cbn.
  rewrite float_le_pos_inf, float_ge_neg_inf, negb_orb. reflexivity.
Qed.

(** [==] fails on a NaN coordinate. *)
Lemma float_equal_nan (u v : vector3 F32.float) :
  point_has_nan v = true -> Vector3.equal u v = false.
Proof.
  destruct u as [ux uy uz], v as [vx vy vz].
  unfold point_has_nan, Vector3.equal; cbn.
  intros N.
  destruct vx; try (destruct ux; cbn; reflexivity);
  destruct vy; try (destruct uy; cbn; rewrite ?andb_false_r; reflexivity);
  destruct vz; try (destruct uz; cbn; rewrite ?andb_false_r; reflexivity);
  discriminate N.
Qed.

(** A box with a NaN coordinate is not [==] to anything, so its union
    with the invalidated box is not [==] to it. *)
Lemma combine_invalidate_nan (b0 b : basic_aabb F32.float) :
  box_has_nan b = true ->
  Aabb.equal (Aabb.combine (Aabb.invalidate b0) b) b = false.
Proof.
  intros N. unfold box_has_nan in N. apply orb_true_iff in N.
  unfold Aabb.equal. destruct N as [N|N].
  - rewrite (float_equal_nan _ _ N). reflexivity.
  - rewrite (float_equal_nan _ _ N). apply andb_false_r.
Qed.

(** C3, as the code has it.  For any scalar type, [invalidate()] leaves
    [min = numeric_limits<T>::max()] and [max = numeric_limits<T>::lowest()]
    on every axis, and for every box [b] within these limits (min corner
    not above the first, max corner not below the second)
    [combine(invalidated, b) == b] and inserting [b] into an invalidated
    accumulator yields a box [== b].  In binary32 the limits are [+inf] and
    [-inf], and the boxes within the limits are those without a NaN
    coordinate. *)
Theorem invalid_box_is_union_identity :
  (forall (T : Type) (S : Scalar T) (L : OrderLaws T) (N : NumericLimits T)
          (b0 b : basic_aabb T),
      Aabb.invalidate b0
      = Aabb.mk (Vector3.broadcast numeric_max) (Vector3.broadcast numeric_lowest) /\
      (Aabb.in_limits b = true ->
       Aabb.equal (Aabb.combine (Aabb.invalidate b0) b) b = true /\
       Aabb.equal (Aabb.insert_box (Aabb.invalidate b0) b) b = true)) /\
  (forall b0 : basic_aabb F32.float,
      Aabb.invalidate b0
      = Aabb.mk (Vector3.broadcast F32.pos_inf) (Vector3.broadcast F32.neg_inf)) /\
  (forall b : basic_aabb F32.float,
      Aabb.in_limits b = negb (box_has_nan b)).
Proof.
  split.
  - intros T S L N b0 b. split; [reflexivity|].
    intros I. split; [now apply combine_invalidate | now apply insert_box_invalidate].
  - split; [reflexivity | exact float_in_limits_not_nan].
Qed.

Lemma invalid_box_is_union_identity_witness :
  Aabb.in_limits Examples.box_A = true /\
  Aabb.equal (Aabb.combine (Aabb.invalidate Examples.box_B) Examples.box_A)
    Examples.box_A = true /\
  Aabb.equal (Aabb.insert_box (Aabb.invalidate Examples.box_B) Examples.box_A)
    Examples.box_A = true.
Proof.
  split; [reflexivity|].
  apply (proj1 invalid_box_is_union_identity F32.float float_Scalar
           float_OrderLaws float_NumericLimits Examples.box_B Examples.box_A).
  reflexivity.
Defined.

(** The identity law does not depend on the limits being infinite.  With
    the largest finite number and its opposite as the limits, the law
    holds for the box [A] and for the unbounded box, and fails for the box
    at [+inf], whose min corner is above the limit: its union with the
    invalidated box has the limit as the min corner. *)
Example invalid_box_with_finite_limits :
  let invalidated := @Aabb.invalidate _ Examples.finite_limits Examples.box_B in
  @Aabb.in_limits _ _ Examples.finite_limits Examples.box_A = true /\
  Aabb.equal (Aabb.combine invalidated Examples.box_A) Examples.box_A = true /\
  @Aabb.in_limits _ _ Examples.finite_limits Examples.box_unbounded = true /\
  Aabb.equal (Aabb.combine invalidated Examples.box_unbounded)
    Examples.box_unbounded = true /\
  @Aabb.in_limits _ _ Examples.finite_limits Examples.box_at_infinity = false /\
  Aabb.combine invalidated Examples.box_at_infinity
  = Aabb.mk (Aabb.min invalidated) (Aabb.max Examples.box_at_infinity) /\
  Aabb.equal (Aabb.combine invalidated Examples.box_at_infinity)
    Examples.box_at_infinity = false.
Proof.
  cbv zeta.
  assert (@Aabb.in_limits _ _ Examples.finite_limits Examples.box_A = true) as LA
      by reflexivity.
  assert (@Aabb.in_limits _ _ Examples.finite_limits Examples.box_unbounded = true)
    as LU by reflexivity.
  split; [exact LA|].
  split; [exact (@combine_invalidate _ _ _ Examples.finite_limits
                   Examples.box_B Examples.box_A LA)|].
  split; [exact LU|].
  split; [exact (@combine_invalidate _ _ _ Examples.finite_limits
                   Examples.box_B Examples.box_unbounded LU)|].
  repeat split; vm_compute; reflexivity.
Qed.

(** C3 as stated fails for a box with a NaN coordinate: the union with
    the invalidated box does not compare equal to it. *)
Lemma invalid_box_not_identity_on_nan :
  Aabb.equal (Aabb.combine (Aabb.invalidate Examples.box_A) Examples.box_nan)
    Examples.box_nan = false /\
  Aabb.equal (Aabb.insert_box (Aabb.invalidate Examples.box_A) Examples.box_nan)
    Examples.box_nan = false.
Proof. split; vm_compute; reflexivity. Qed.

(** C4, as the code has it.  For every point [p] whose coordinates lie
    between [numeric_limits<T>::lowest()] and [numeric_limits<T>::max()],
    [invalidate()] followed by [insert(p)] leaves [min == p], [max == p]
    and a valid box.  In binary32 with the limits [-inf] and [+inf] these
    are the points without a NaN coordinate. *)
Theorem invalidate_then_insert
  {T : Type} `{OrderLaws T} `{NumericLimits T}
  (b0 : basic_aabb T) (p : vector3 T) :
  Vector3.in_range numeric_lowest numeric_max p = true ->
  Vector3.equal (Aabb.min (Aabb.insert (Aabb.invalidate b0) p)) p = true /\
  Vector3.equal (Aabb.max (Aabb.insert (Aabb.invalidate b0) p)) p = true /\
  Aabb.valid (Aabb.insert (Aabb.invalidate b0) p) = true.
Proof.
  destruct p as [px py pz].
  unfold Vector3.in_range, Vector3.le, Vector3.equal, Aabb.valid,
    Aabb.insert, Aabb.invalidate; cbn.
  intros L. split_and;
    try (first [now apply min_absorb | now apply max_absorb]).
  all: match goal with
       | |- leb (Math.min _ ?p) (Math.max _ ?p) = true =>
           apply (leb_trans _ p _);
           [ apply min_le_r | apply max_ge_r ]
       end.
  all: first [ eapply leb_ordered_l; eassumption
             | eapply leb_ordered_r; eassumption ].
Qed.

Lemma invalidate_then_insert_witness :
  Vector3.in_range (numeric_lowest : F32.float) numeric_max
    (Examples.fvec 1 (-2) 3) = true /\
  Vector3.equal
    (Aabb.min (Aabb.insert (Aabb.invalidate Examples.box_A) (Examples.fvec 1 (-2) 3)))
    (Examples.fvec 1 (-2) 3) = true /\
  Vector3.equal
    (Aabb.max (Aabb.insert (Aabb.invalidate Examples.box_A) (Examples.fvec 1 (-2) 3)))
    (Examples.fvec 1 (-2) 3) = true /\
  Aabb.valid (Aabb.insert (Aabb.invalidate Examples.box_A) (Examples.fvec 1 (-2) 3))
  = true.
Proof.
  split; [reflexivity|].
  apply (invalidate_then_insert Examples.box_A (Examples.fvec 1 (-2) 3)).
  reflexivity.
Defined.

(** C4 as stated fails for a point with a NaN coordinate: after
    [invalidate()] and [insert(p)] the box is not valid, and neither corner
    compares equal to [p]. *)
Lemma invalidate_then_insert_nan :
  let b := Aabb.insert (Aabb.invalidate Examples.box_A) Examples.point_nan in
  Vector3.equal (Aabb.min b) Examples.point_nan = false /\
  Vector3.equal (Aabb.max b) Examples.point_nan = false /\
  Aabb.valid b = false.
Proof. repeat split; vm_compute; reflexivity. Qed.

(* ================================================================== *)
(** * The overlap metrics                                              *)
(* ================================================================== *)


Section ExactOverlap.
Local Open Scope Q_scope.

Lemma Q_min_spec (a b : Q) :
  Math.min a b <= a /\ Math.min a b <= b /\ (Math.min a b = a \/ Math.min a b = b).
Proof.
  unfold Math.min; cbn. destruct (Qltb b a) eqn:E.
  - apply Qltb_lt in E. repeat split; try lra. now right.
  - apply Qltb_false in E. repeat split; try lra. now left.
Qed.

Lemma Q_max_spec (a b : Q) :
  a <= Math.max a b /\ b <= Math.max a b /\ (Math.max a b = a \/ Math.max a b = b).
Proof.
  unfold Math.max; cbn. destruct (Qltb a b) eqn:E.
  - apply Qltb_lt in E. repeat split; try lra. now right.
  - apply Qltb_false in E. repeat split; try lra. now left.
Qed.

Lemma Q_geb_false (a b : Q) : geb a b = false -> a < b.
Proof.
  unfold geb; cbn. intros E. apply Qnot_le_lt. intros L.
  apply Qle_bool_iff in L. congruence.
Qed.

Lemma Q_not_empty (b : basic_aabb Q) :
  Aabb.empty b = false ->
  Vector3.x (Aabb.min b) < Vector3.x (Aabb.max b) /\
  Vector3.y (Aabb.min b) < Vector3.y (Aabb.max b) /\
  Vector3.z (Aabb.min b) < Vector3.z (Aabb.max b).
Proof.
  unfold Aabb.empty. intros E.
  apply orb_false_iff in E. destruct E as [E Ez].
  apply orb_false_iff in E. destruct E as [Ex Ey].
  repeat split; now apply Q_geb_false.
Qed.

Lemma prod3_mono (ix iy iz ax ay az : Q) :
  0 < ix -> ix <= ax -> 0 < iy -> iy <= ay -> 0 < iz -> iz <= az ->
  0 < ix * iy * iz /\ ix * iy * iz <= ax * ay * az.
Proof.
  intros.
  assert (0 < ix * iy) by nra.
  assert (ix * iy <= ax * ay) by nra.
  split; nra.
Qed.

Lemma ratio_unit (x m : Q) : 0 < x -> x <= m -> 0 <= x / m <= 1.
Proof.
  intros Hx Hm. split.
  - apply Qle_shift_div_l; lra.
  - apply Qle_shift_div_r; lra.
Qed.

(** The volume of a non-empty intersection is positive and bounded by
    the volume of either box. *)
Lemma Q_volume_intersect (a b : basic_aabb Q) :
  Aabb.empty (Aabb.intersect a b) = false ->
  0 < Aabb.volume (Aabb.intersect a b) /\
  Aabb.volume (Aabb.intersect a b) <= Aabb.volume a /\
  Aabb.volume (Aabb.intersect a b) <= Aabb.volume b.
Proof.
  intros EI. apply Q_not_empty in EI.
  destruct a as [[ax ay az] [bx by_ bz]], b as [[cx cy cz] [dx dy dz]].
  unfold Aabb.volume, Aabb.size, Vector3.minus, Aabb.intersect in *.
  cbn in *.
  destruct (Q_max_spec ax cx) as (? & ? & _), (Q_max_spec ay cy) as (? & ? & _),
    (Q_max_spec az cz) as (? & ? & _).
  destruct (Q_min_spec bx dx) as (? & ? & _), (Q_min_spec by_ dy) as (? & ? & _),
    (Q_min_spec bz dz) as (? & ? & _).
  destruct EI as (Lx & Ly & Lz).
  generalize dependent (Math.max ax cx). generalize dependent (Math.max ay cy).
  generalize dependent (Math.max az cz). generalize dependent (Math.min bx dx).
  generalize dependent (Math.min by_ dy). generalize dependent (Math.min bz dz).
  intros hz ? ? hy ? ? hx ? ? lz ? ? ? ly ? ? ? lx ? ? ?.
  assert (0 < (hx - lx) * (hy - ly) * (hz - lz)
          /\ (hx - lx) * (hy - ly) * (hz - lz) <= (bx - ax) * (by_ - ay) * (bz - az))
    as [P La] by (apply prod3_mono; lra).
  assert (0 < (hx - lx) * (hy - ly) * (hz - lz)
          /\ (hx - lx) * (hy - ly) * (hz - lz) <= (dx - cx) * (dy - cy) * (dz - cz))
    as [_ Lb] by (apply prod3_mono; lra).
  split; [exact P|]. split; [exact La|exact Lb].
Qed.

(** In exact arithmetic the metric always lies in [[0,1]]. *)
Lemma Q_overlap_ratio_min_unit (a b : basic_aabb Q) :
  0 <= Aabb.overlap_ratio_min a b <= 1.
Proof.
  unfold Aabb.overlap_ratio_min.
  destruct (Aabb.empty a || Aabb.empty b); [cbn; lra|].
  destruct (Aabb.empty (Aabb.intersect a b)) eqn:EI; [cbn; lra|].
  destruct (Q_volume_intersect a b EI) as (P & La & Lb).
  change (@div Q _) with Qdiv.
  destruct (Q_min_spec (Aabb.volume a) (Aabb.volume b)) as (_ & _ & [E|E]);
    rewrite E; apply ratio_unit; trivial.
Qed.
End ExactOverlap.




(** The same happens when the volume overflows: the cube with edge [2^50]
    has the volume [+inf], and the metric of the cube with itself is
    [inf / inf], a NaN. *)
Example overlap_ratio_min_overflow :
  Aabb.empty Examples.box_huge = false /\
  Aabb.volume Examples.box_huge = F32.pos_inf /\
  Aabb.overlap_ratio_min Examples.box_huge Examples.box_huge = F32.nan.
Proof. repeat split; vm_compute; reflexivity. Qed.

(** C10.  [overlap_ratio] is [overlap_ratio_min] on every pair of boxes,
    for any scalar type; on the boxes [A] and [B] of the scenario it is
    1/8 and differs from [overlap_ratio_union], which is 1/27. *)
Theorem overlap_ratio_is_overlap_ratio_min :
  (forall (T : Type) (S : Scalar T) (a b : basic_aabb T),
      Aabb.overlap_ratio a b = Aabb.overlap_ratio_min a b) /\
  Aabb.overlap_ratio Examples.box_A Examples.box_B = F32.of_Z_pow2 1 (-3) /\
  Aabb.overlap_ratio_union Examples.box_A Examples.box_B
  = F32.fdiv (F32.of_Z 1) (F32.of_Z 27) /\
  eqb (Aabb.overlap_ratio Examples.box_A Examples.box_B)
      (Aabb.overlap_ratio_union Examples.box_A Examples.box_B) = false /\
  (Aabb.overlap_ratio Examples.qbox_A Examples.qbox_B == 1 # 8)%Q /\
  (Aabb.overlap_ratio_union Examples.qbox_A Examples.qbox_B == 1 # 27)%Q.
Proof.
  split; [intros; reflexivity|].
  repeat split; vm_compute; reflexivity.
Qed.


(* ================================================================== *)
(** * Binary32 subtraction of ordered finite numbers                   *)
(* ================================================================== *)

Lemma shr_1_nonneg (mrs : shr_record) :
  (0 <= shr_m mrs)%Z -> (0 <= shr_m (shr_1 mrs))%Z.
Proof.
  destruct mrs as [m r s]. destruct m as [|p|p]; cbn; intros L; try lia.
  destruct p; cbn; lia.
Qed.

Lemma iter_shr_1_nonneg (p : positive) (mrs : shr_record) :
  (0 <= shr_m mrs)%Z -> (0 <= shr_m (iter_pos shr_1 p mrs))%Z.
Proof.
  revert mrs. induction p as [p IH|p IH|]; intros mrs L; cbn.
  - apply IH, IH, shr_1_nonneg, L.
  - apply IH, IH, L.
  - apply shr_1_nonneg, L.
Qed.

Lemma shr_fexp_nonneg (m e : Z) (l : location) :
  (0 <= m)%Z -> (0 <= shr_m (fst (shr_fexp F32.prec F32.emax m e l)))%Z.
Proof.
  intros L. unfold shr_fexp, shr.
  assert (0 <= shr_m (shr_record_of_loc m l))%Z as L0
      by (destruct l as [|[| |]]; exact L).
  destruct (fexp F32.prec F32.emax (Zdigits2 m + e) - e)%Z; cbn; trivial.
  now apply iter_shr_1_nonneg.
Qed.

Lemma round_nearest_even_nonneg (m : Z) (l : location) :
  (0 <= m)%Z -> (0 <= round_nearest_even m l)%Z.
Proof.
  intros L. destruct l as [|[| |]]; cbn; try lia.
  destruct (Z.even m); lia.
Qed.

(** Rounding a non-negative mantissa keeps the sign it is given. *)
Lemma binary_round_aux_sign (sx : bool) (mx ex : Z) (lx : location) :
  (0 <= mx)%Z ->
  match binary_round_aux F32.prec F32.emax sx mx ex lx with
  | S754_zero s | S754_infinity s | S754_finite s _ _ => s = sx
  | S754_nan => False
  end.
Proof.
  intros L. unfold binary_round_aux.
  pose proof (@shr_fexp_nonneg mx ex lx L) as L1.
  destruct (shr_fexp F32.prec F32.emax mx ex lx) as [mrs' e']. cbn [fst] in L1.
  pose proof (@shr_fexp_nonneg
                (round_nearest_even (shr_m mrs') (loc_of_shr_record mrs')) e' loc_Exact
                (@round_nearest_even_nonneg _ _ L1)) as L2.
  destruct (shr_fexp F32.prec F32.emax _ e' loc_Exact) as [mrs'' e'']. cbn [fst] in L2.
  destruct (shr_m mrs'') as [|p|p]; try reflexivity; try lia.
  destruct (Z.leb e'' (F32.emax - F32.prec)); reflexivity.
Qed.

Lemma binary_normalize_nonneg (m e : Z) :
  (0 <= m)%Z ->
  SFleb (S754_zero false) (binary_normalize F32.prec F32.emax m e false) = true.
Proof.
  intros L. destruct m as [|p|p]; try lia; cbn [binary_normalize]; [reflexivity|].
  unfold binary_round.
  destruct (shl_align p e _) as [mz ez].
  pose proof (@binary_round_aux_sign false (Zpos mz) ez loc_Exact ltac:(lia)) as S.
  destruct (binary_round_aux F32.prec F32.emax false (Zpos mz) ez loc_Exact);
    try contradiction; subst; reflexivity.
Qed.

Lemma iter_xO_pow (m d : positive) :
  Zpos (Pos.iter xO m d) = (Zpos m * 2 ^ Zpos d)%Z.
Proof.
  induction d as [|d IH] using Pos.peano_ind.
  - cbn. lia.
  - rewrite Pos.iter_succ, Pos2Z.inj_xO, IH, Pos2Z.inj_succ, Z.pow_succ_r by lia.
    lia.
Qed.

Lemma shl_align_value (mx : positive) (ex ez : Z) :
  (ez <= ex)%Z ->
  Zpos (fst (shl_align mx ex ez)) = (Zpos mx * 2 ^ (ex - ez))%Z.
Proof.
  intros L. unfold shl_align.
  destruct (ez - ex)%Z as [|d|d] eqn:E; try lia; cbn [fst].
  - replace (ex - ez)%Z with 0%Z by lia. lia.
  - rewrite iter_xO_pow. f_equal. f_equal. lia.
Qed.

Lemma digits2_pos_bounds (m : positive) :
  (2 ^ (Zpos (digits2_pos m) - 1) <= Zpos m < 2 ^ Zpos (digits2_pos m))%Z.
Proof.
  induction m as [m IH|m IH|]; cbn [digits2_pos].
  - rewrite Pos2Z.inj_succ.
    replace (Z.succ (Zpos (digits2_pos m)) - 1)%Z
      with (Z.succ (Zpos (digits2_pos m) - 1))%Z by lia.
    rewrite !Z.pow_succ_r by lia.
    revert IH. generalize (2 ^ (Zpos (digits2_pos m) - 1))%Z.
    generalize (2 ^ Zpos (digits2_pos m))%Z. intros; lia.
  - rewrite Pos2Z.inj_succ.
    replace (Z.succ (Zpos (digits2_pos m)) - 1)%Z
      with (Z.succ (Zpos (digits2_pos m) - 1))%Z by lia.
    rewrite !Z.pow_succ_r by lia.
    revert IH. generalize (2 ^ (Zpos (digits2_pos m) - 1))%Z.
    generalize (2 ^ Zpos (digits2_pos m))%Z. intros; lia.
  - vm_compute. split; [discriminate|reflexivity].
Qed.

(** A canonical binary32 mantissa has at most 24 bits, and exactly 24
    above the smallest exponent. *)
Lemma bounded_digits (m : positive) (e : Z) :
  bounded F32.prec F32.emax m e = true ->
  (-149 <= e)%Z /\ (Zpos (digits2_pos m) <= 24)%Z /\
  (-149 < e -> Zpos (digits2_pos m) = 24)%Z.
Proof.
  unfold bounded, canonical_mantissa, fexp, emin, F32.prec, F32.emax.
  intros B. apply andb_true_iff in B. destruct B as [C _].
  apply Z.eqb_eq in C. lia.
Qed.

(** Between canonical mantissas, a larger exponent means a larger value. *)
Lemma canonical_exponent_order (mx my : positive) (ex ey : Z) :
  bounded F32.prec F32.emax mx ex = true -> bounded F32.prec F32.emax my ey = true ->
  (ey < ex)%Z -> (Zpos my < Zpos mx * 2 ^ (ex - ey))%Z.
Proof.
  intros Bx By L.
  destruct (@bounded_digits mx ex Bx) as (_ & _ & Nx).
  destruct (@bounded_digits my ey By) as (Ey & Dy & _).
  pose proof (digits2_pos_bounds mx) as [Lx _].
  pose proof (digits2_pos_bounds my) as [_ Uy].
  rewrite Nx in Lx by lia. change (2 ^ (24 - 1))%Z with 8388608%Z in Lx.
  assert (2 ^ Zpos (digits2_pos my) <= 2 ^ 24)%Z by (apply Z.pow_le_mono_r; lia).
  change (2 ^ 24)%Z with 16777216%Z in *.
  assert (2 ^ 1 <= 2 ^ (ex - ey))%Z by (apply Z.pow_le_mono_r; lia).
  change (2 ^ 1)%Z with 2%Z in *.
  nia.
Qed.

(** For finite binary32 numbers [y <= x], the rounded difference [x - y]
    is [>= 0]. *)
Lemma fsub_nonneg (x y : F32.float) :
  F32.finite_number x = true -> F32.finite_number y = true ->
  SFleb y x = true ->
  SFleb F32.pos_zero (F32.fsub x y) = true.
Proof.
  unfold F32.finite_number, F32.well_formed, F32.fsub, F32.pos_zero.
  intros Fx Fy. apply andb_true_iff in Fx, Fy.
  destruct Fx as [Fx Vx], Fy as [Fy Vy]. revert Fx Fy Vx Vy.
  destruct x as [sx|sx| |sx mx ex], y as [sy|sy| |sy my ey]; try discriminate;
    intros _ _ Vx Vy L.
  - destruct sx, sy; reflexivity.
  - destruct sy; [reflexivity|discriminate L].
  - destruct sx; [discriminate L|reflexivity].
  - cbn [SFsub valid_binary] in *.
    apply binary_normalize_nonneg.
    rewrite !shl_align_value by lia.
    unfold SFleb, SFcompare in L.
    change (Pos.compare_cont Eq) with Pos.compare in L.
    destruct sx, sy; cbn [cond_Zopp]; try discriminate L.
    + (* x, y < 0 *)
      destruct (Z.compare_spec ey ex) as [E|E|E]; try discriminate L.
      * subst. rewrite Z.min_id, Z.sub_diag.
        destruct (Pos.compare_spec my mx); try discriminate L; lia.
      * rewrite Z.min_l by lia. rewrite Z.sub_diag.
        pose proof (@canonical_exponent_order my mx ey ex Vy Vx). lia.
    + (* y < 0 < x *)
      pose proof (Z.pow_pos_nonneg 2 (ex - Z.min ex ey)).
      pose proof (Z.pow_pos_nonneg 2 (ey - Z.min ex ey)). nia.
    + (* 0 < x, y *)
      destruct (Z.compare_spec ey ex) as [E|E|E]; try discriminate L.
      * subst. rewrite Z.min_id, Z.sub_diag.
        destruct (Pos.compare_spec my mx); try discriminate L; lia.
      * rewrite Z.min_r by lia. rewrite Z.sub_diag.
        pose proof (@canonical_exponent_order mx my ex ey Vx Vy). lia.
Qed.

(* ================================================================== *)
(** * [split]                                                          *)
(* ================================================================== *)

Lemma get_set_same {T : Type} `{Scalar T} (v : vector3 T) (a : cartesian_axis) (s : T) :
  Vector3.get (Vector3.set v a s) a = s.
Proof. destruct a; reflexivity. Qed.

Lemma get_set_other {T : Type} `{Scalar T}
  (v : vector3 T) (a o : cartesian_axis) (s : T) :
  o <> a -> Vector3.get (Vector3.set v a s) o = Vector3.get v o.
Proof. destruct a, o; intros N; try reflexivity; now contradiction N. Qed.

(** The two halves share the split plane and keep everything else. *)
Lemma split_shape {T : Type} `{Scalar T}
  (box : basic_aabb T) (axis : cartesian_axis) (p : T) :
  Vector3.get (Aabb.max (fst (Aabb.split box axis p))) axis = p /\
  Vector3.get (Aabb.min (snd (Aabb.split box axis p))) axis = p /\
  Aabb.min (fst (Aabb.split box axis p)) = Aabb.min box /\
  Aabb.max (snd (Aabb.split box axis p)) = Aabb.max box /\
  (forall other : cartesian_axis, other <> axis ->
     Vector3.get (Aabb.max (fst (Aabb.split box axis p))) other
     = Vector3.get (Aabb.max box) other /\
     Vector3.get (Aabb.min (snd (Aabb.split box axis p))) other
     = Vector3.get (Aabb.min box) other).
Proof.
  unfold Aabb.split; cbn.
  split; [apply get_set_same|].
  split; [apply get_set_same|].
  split; [reflexivity|]. split; [reflexivity|].
  intros other N. split; now apply get_set_other.
Qed.

(** In exact arithmetic the two sizes on the split axis are non-negative
    and add up to the size of the box. *)
Lemma Q_split_sizes (box : basic_aabb Q) (axis : cartesian_axis) (p : Q) :
  (Vector3.get (Aabb.min box) axis <= p)%Q ->
  (p <= Vector3.get (Aabb.max box) axis)%Q ->
  (0 <= Vector3.get (Aabb.size (fst (Aabb.split box axis p))) axis)%Q /\
  (0 <= Vector3.get (Aabb.size (snd (Aabb.split box axis p))) axis)%Q /\
  (Vector3.get (Aabb.size (fst (Aabb.split box axis p))) axis
   + Vector3.get (Aabb.size (snd (Aabb.split box axis p))) axis
   == Vector3.get (Aabb.size box) axis)%Q.
Proof.
  destruct box as [[ax ay az] [bx by_ bz]].
  destruct axis; cbn; intros L1 L2; repeat split; lra.
Qed.

Lemma get_minus {T : Type} `{Scalar T} (u v : vector3 T) (a : cartesian_axis) :
  Vector3.get (Vector3.minus u v) a = sub (Vector3.get u a) (Vector3.get v a).
Proof. destruct a; reflexivity. Qed.

(** In binary32, for finite coordinates and a finite split position inside
    the extent, the two sizes on the split axis are [>= 0]. *)
Lemma float_split_sizes_nonneg
  (box : basic_aabb F32.float) (axis : cartesian_axis) (p : F32.float) :
  F32.finite_number (Vector3.get (Aabb.min box) axis) = true ->
  F32.finite_number p = true ->
  F32.finite_number (Vector3.get (Aabb.max box) axis) = true ->
  leb (Vector3.get (Aabb.min box) axis) p = true ->
  leb p (Vector3.get (Aabb.max box) axis) = true ->
  geb (Vector3.get (Aabb.size (fst (Aabb.split box axis p))) axis) zero = true /\
  geb (Vector3.get (Aabb.size (snd (Aabb.split box axis p))) axis) zero = true.
Proof.
  intros Flo Fp Fhi L1 L2.
  unfold Aabb.size, Aabb.split, geb; cbn [fst snd Aabb.min Aabb.max].
  rewrite !get_minus, !get_set_same.
  split; now apply fsub_nonneg.
Qed.

(** C6, as the code has it.  For every box, axis and split position, over
    any scalar type, [split] returns two boxes that share the split plane
    (the first box's max and the second box's min on the axis are the split
    position), the first keeping the box's min corner and the second its
    max corner, and both keeping the box's min and max on the other two
    axes.  For a split position inside the box's extent on the axis: in
    binary32, with finite coordinates, the two sizes on the axis are
    non-negative; in exact rational arithmetic they are non-negative and
    sum to the size of the box on that axis. *)
Theorem split_spec :
  (forall (T : Type) (S : Scalar T)
          (box : basic_aabb T) (axis : cartesian_axis) (p : T),
      Vector3.get (Aabb.max (fst (Aabb.split box axis p))) axis = p /\
      Vector3.get (Aabb.min (snd (Aabb.split box axis p))) axis = p /\
      Aabb.min (fst (Aabb.split box axis p)) = Aabb.min box /\
      Aabb.max (snd (Aabb.split box axis p)) = Aabb.max box /\
      (forall other : cartesian_axis, other <> axis ->
         Vector3.get (Aabb.max (fst (Aabb.split box axis p))) other
         = Vector3.get (Aabb.max box) other /\
         Vector3.get (Aabb.min (snd (Aabb.split box axis p))) other
         = Vector3.get (Aabb.min box) other)) /\
  (forall (box : basic_aabb F32.float) (axis : cartesian_axis) (p : F32.float),
      F32.finite_number (Vector3.get (Aabb.min box) axis) = true ->
      F32.finite_number p = true ->
      F32.finite_number (Vector3.get (Aabb.max box) axis) = true ->
      leb (Vector3.get (Aabb.min box) axis) p = true ->
      leb p (Vector3.get (Aabb.max box) axis) = true ->
      geb (Vector3.get (Aabb.size (fst (Aabb.split box axis p))) axis) zero = true /\
      geb (Vector3.get (Aabb.size (snd (Aabb.split box axis p))) axis) zero = true) /\
  (forall (box : basic_aabb Q) (axis : cartesian_axis) (p : Q),
      (Vector3.get (Aabb.min box) axis <= p)%Q ->
      (p <= Vector3.get (Aabb.max box) axis)%Q ->
      (0 <= Vector3.get (Aabb.size (fst (Aabb.split box axis p))) axis)%Q /\
      (0 <= Vector3.get (Aabb.size (snd (Aabb.split box axis p))) axis)%Q /\
      (Vector3.get (Aabb.size (fst (Aabb.split box axis p))) axis
       + Vector3.get (Aabb.size (snd (Aabb.split box axis p))) axis
       == Vector3.get (Aabb.size box) axis)%Q).
Proof.
  split; [intros T S box axis p; apply split_shape|].
  split; [exact float_split_sizes_nonneg | exact Q_split_sizes].
Qed.

(** The wide box cut at [x = 0.5] in binary32, and the box [A] of the
    scenario cut at [y = 1/2] in exact arithmetic. *)
Lemma split_spec_witness :
  (geb (Vector3.get (Aabb.size (fst (Aabb.split Examples.box_wide Axis.X half))) Axis.X)
       zero = true /\
   geb (Vector3.get (Aabb.size (snd (Aabb.split Examples.box_wide Axis.X half))) Axis.X)
       zero = true) /\
  (Vector3.get (Aabb.min Examples.qbox_A) Axis.Y <= 1 # 2)%Q /\
  (1 # 2 <= Vector3.get (Aabb.max Examples.qbox_A) Axis.Y)%Q /\
  (0 <= Vector3.get (Aabb.size (fst (Aabb.split Examples.qbox_A Axis.Y (1 # 2)))) Axis.Y)%Q /\
  (0 <= Vector3.get (Aabb.size (snd (Aabb.split Examples.qbox_A Axis.Y (1 # 2)))) Axis.Y)%Q /\
  (Vector3.get (Aabb.size (fst (Aabb.split Examples.qbox_A Axis.Y (1 # 2)))) Axis.Y
   + Vector3.get (Aabb.size (snd (Aabb.split Examples.qbox_A Axis.Y (1 # 2)))) Axis.Y
   == Vector3.get (Aabb.size Examples.qbox_A) Axis.Y)%Q.
Proof.
  assert (Vector3.get (Aabb.min Examples.qbox_A) Axis.Y <= 1 # 2)%Q as L1
      by (vm_compute; discriminate).
  assert (1 # 2 <= Vector3.get (Aabb.max Examples.qbox_A) Axis.Y)%Q as L2
      by (vm_compute; discriminate).
  split.
  - apply (proj1 (proj2 split_spec) Examples.box_wide Axis.X half); reflexivity.
  - split; [exact L1|]. split; [exact L2|].
    exact (proj2 (proj2 split_spec) Examples.qbox_A Axis.Y (1 # 2)%Q L1 L2).
Defined.

(** C6 as stated fails in binary32.  The box spans [[-1, 2^24]] on the X
    axis and is cut at [x = 0.5], inside its extent.  The sizes of the two
    halves are 1.5 and 2^24 (16777215.5 is not a binary32 number); their
    sum is 16777218, whereas the size of the box, 16777217, rounds to
    16777216. *)
Lemma split_sizes_rounding :
  let box := Examples.box_wide in
  let halves := Aabb.split box Axis.X half in
  leb (Vector3.get (Aabb.min box) Axis.X) half = true /\
  leb half (Vector3.get (Aabb.max box) Axis.X) = true /\
  Vector3.get (Aabb.size (fst halves)) Axis.X = F32.of_Z_pow2 3 (-1) /\
  Vector3.get (Aabb.size (snd halves)) Axis.X = F32.of_Z 16777216 /\
  add (Vector3.get (Aabb.size (fst halves)) Axis.X)
      (Vector3.get (Aabb.size (snd halves)) Axis.X) = F32.of_Z 16777218 /\
  Vector3.get (Aabb.size box) Axis.X = F32.of_Z 16777216 /\
  eqb (add (Vector3.get (Aabb.size (fst halves)) Axis.X)
           (Vector3.get (Aabb.size (snd halves)) Axis.X))
      (Vector3.get (Aabb.size box) Axis.X) = false.
Proof. repeat split; vm_compute; reflexivity. Qed.

(** With an infinite coordinate a size can be a NaN: the unbounded box cut
    at [x = -inf], which is inside its extent. *)
Example split_sizes_infinite :
  let halves := Aabb.split Examples.box_unbounded Axis.X F32.neg_inf in
  leb (Vector3.get (Aabb.min Examples.box_unbounded) Axis.X) F32.neg_inf = true /\
  leb F32.neg_inf (Vector3.get (Aabb.max Examples.box_unbounded) Axis.X) = true /\
  Vector3.get (Aabb.size (fst halves)) Axis.X = F32.nan /\
  geb (Vector3.get (Aabb.size (fst halves)) Axis.X) zero = false.
Proof. repeat split; vm_compute; reflexivity. Qed.

(* ================================================================== *)
(** * Triangle area                                                    *)
(* ================================================================== *)

(** C7.  [area] is [0.5] times the square root of the sum of the squared
    components of [e1 x e2], for any scalar type; for [e1 = (1,0,0)] and
    [e2 = (0,1,0)], at any vertex, it is the binary32 number 0.5 exactly,
    hence within the relative tolerance [1e-6] of 0.5. *)
Theorem area_is_half_cross_length :
  (forall (T : Type) (S : Scalar T) (R : Sqrt T) (t : basic_triangle T),
      let e1 := Triangle.e1 t in
      let e2 := Triangle.e2 t in
      let cx := sub (mul (Vector3.y e1) (Vector3.z e2)) (mul (Vector3.z e1) (Vector3.y e2)) in
      let cy := sub (mul (Vector3.z e1) (Vector3.x e2)) (mul (Vector3.x e1) (Vector3.z e2)) in
      let cz := sub (mul (Vector3.x e1) (Vector3.y e2)) (mul (Vector3.y e1) (Vector3.x e2)) in
      Triangle.area t = mul half (Vector3.length (Vector3.cross e1 e2)) /\
      Vector3.cross e1 e2 = Vector3.mk cx cy cz /\
      Vector3.length (Vector3.cross e1 e2)
      = sqrt (add (add (mul cx cx) (mul cy cy)) (mul cz cz))) /\
  (forall v : vector3 F32.float,
      Vector3.cross (Examples.fvec 1 0 0) (Examples.fvec 0 1 0) = Examples.fvec 0 0 1 /\
      Triangle.area (Examples.unit_triangle v) = half /\
      F32.to_Q (Triangle.area (Examples.unit_triangle v)) = Some (8388608 # 16777216)%Q /\
      (Qabs ((8388608 # 16777216) - (1 # 2)) <= (1 # 1000000) * (1 # 2))%Q).
Proof.
  split.
  - intros T S R t. cbv zeta. repeat split.
  - intros v. repeat split; vm_compute; try reflexivity; discriminate.
Qed.

(* ================================================================== *)
(** * Lane classification                                              *)
(* ================================================================== *)

(** The terms describe the functions: evaluating a body gives the
    function. *)
Lemma body_run (c : Simd.classifier) (v : Simd.float4) :
  Simd.eval (Simd.body c) v = Simd.run c v.
Proof. destruct c; reflexivity. Qed.

(** One lane against the IEEE class of its value. *)
Lemma SFeqb_refl_finite (s : bool) (m : positive) (e : Z) :
  SFeqb (S754_finite s m e) (S754_finite s m e) = true.
Proof.
  unfold SFeqb, SFcompare.
  rewrite Z.compare_refl.
  change (Pos.compare_cont Eq m m) with (Pos.compare m m).
  rewrite Pos.compare_refl. destruct s; reflexivity.
Qed.

Lemma self_compare_is_nan (x : F32.float) :
  negb (SFeqb x x) = Simd.class_nan x.
Proof.
  destruct x as [s|s| |s m e]; try (destruct s; reflexivity); try reflexivity.
  rewrite SFeqb_refl_finite.
  unfold Simd.class_nan, SFclassify.
  destruct s; destruct (Z.eqb (Zpos (digits2_pos m)) F32.prec); reflexivity.
Qed.

Lemma std_isinf_is_inf (x : F32.float) : Simd.std_isinf x = Simd.class_inf x.
Proof.
  destruct x as [s|s| |s m e]; try (destruct s; reflexivity); try reflexivity.
  unfold Simd.class_inf, SFclassify.
  destruct s; destruct (Z.eqb (Zpos (digits2_pos m)) F32.prec); reflexivity.
Qed.

Lemma isnan_lane (v : Simd.float4) (i : nat) :
  Simd.bit (Simd.isnan v) i = Simd.class_nan (Simd.lane v i).
Proof.
  destruct v as [a b c d].
  destruct i as [|[|[|i]]]; cbn; apply self_compare_is_nan.
Qed.

Lemma isinf_lane (v : Simd.float4) (i : nat) :
  Simd.bit (Simd.isinf v) i = Simd.class_inf (Simd.lane v i).
Proof.
  destruct v as [a b c d].
  destruct i as [|[|[|i]]]; cbn; apply std_isinf_is_inf.
Qed.

Lemma isfinite_lane (v : Simd.float4) (i : nat) :
  Simd.bit (Simd.isfinite v) i = Simd.class_finite (Simd.lane v i).
Proof.
  unfold Simd.class_finite.
  rewrite <- isnan_lane, <- isinf_lane.
  destruct i as [|[|[|i]]]; cbn; rewrite negb_orb; apply andb_comm.
Qed.

(** The encoding without the sign bit, and what it says of the class. *)
Lemma magnitude_bits_range (f : F32.float) :
  F32.well_formed f = true -> (0 <= F32.magnitude_bits f < 0x80000000)%Z.
Proof.
  destruct f as [s|s| |s m e]; cbn; try lia.
  unfold F32.well_formed; cbn [valid_binary]. intros B.
  destruct (@bounded_digits m e B) as (E & D & _).
  pose proof (digits2_pos_bounds m) as [_ U].
  assert (2 ^ Zpos (digits2_pos m) <= 2 ^ 24)%Z by (apply Z.pow_le_mono_r; lia).
  change (2 ^ 24)%Z with 16777216%Z in *.
  unfold bounded in B. apply andb_true_iff in B. destruct B as [_ B].
  apply Z.leb_le in B. unfold F32.emax, F32.prec in B.
  destruct (Z.leb_spec 0x800000 (Zpos m)); lia.
Qed.

Lemma clear_sign_bit (f : F32.float) :
  F32.well_formed f = true ->
  Z.land (F32.bits f) 0x7FFFFFFF = F32.magnitude_bits f.
Proof.
  intros W. pose proof (magnitude_bits_range f W) as R.
  change 0x7FFFFFFF%Z with (Z.ones 31). rewrite Z.land_ones by lia.
  unfold F32.bits. change (2 ^ 31)%Z with 0x80000000%Z.
  symmetry.
  apply Z.mod_unique_pos with (q := (F32.sign_bit f / 0x80000000)%Z); [lia|].
  destruct f as [[|]|[|]| |[|] m e]; cbn [F32.sign_bit]; 
    try change (0x80000000 / 0x80000000)%Z with 1%Z;
    try change (0 / 0x80000000)%Z with 0%Z; lia.
Qed.

Lemma magnitude_bits_infinite (f : F32.float) :
  F32.well_formed f = true ->
  (F32.magnitude_bits f =? 0x7F800000)%Z = Simd.std_isinf f.
Proof.
  destruct f as [s|s| |s m e]; try reflexivity.
  unfold F32.well_formed; cbn [valid_binary F32.magnitude_bits Simd.std_isinf].
  intros B.
  destruct (@bounded_digits m e B) as (E & D & _).
  pose proof (digits2_pos_bounds m) as [_ U].
  assert (2 ^ Zpos (digits2_pos m) <= 2 ^ 24)%Z by (apply Z.pow_le_mono_r; lia).
  change (2 ^ 24)%Z with 16777216%Z in *.
  unfold bounded in B. apply andb_true_iff in B. destruct B as [_ B].
  apply Z.leb_le in B. unfold F32.emax, F32.prec in B.
  apply Z.eqb_neq.
  destruct (Z.leb_spec 0x800000 (Zpos m)); lia.
Qed.

Lemma magnitude_bits_finite (f : F32.float) :
  F32.well_formed f = true ->
  (F32.magnitude_bits f <? 0x7F800000)%Z = Simd.class_finite f.
Proof.
  destruct f as [[|]|[|]| |s m e]; try reflexivity.
  unfold F32.well_formed; cbn [valid_binary F32.magnitude_bits].
  intros B.
  assert (Simd.class_finite (S754_finite s m e) = true) as ->.
  { unfold Simd.class_finite, Simd.class_nan, Simd.class_inf, SFclassify.
    destruct s; destruct (Z.eqb _ _); reflexivity. }
  destruct (@bounded_digits m e B) as (E & D & _).
  pose proof (digits2_pos_bounds m) as [_ U].
  assert (2 ^ Zpos (digits2_pos m) <= 2 ^ 24)%Z by (apply Z.pow_le_mono_r; lia).
  change (2 ^ 24)%Z with 16777216%Z in *.
  unfold bounded in B. apply andb_true_iff in B. destruct B as [_ B].
  apply Z.leb_le in B. unfold F32.emax, F32.prec in B.
  apply Z.ltb_lt.
  destruct (Z.leb_spec 0x800000 (Zpos m)); lia.
Qed.

Lemma spec_isinf_lane_correct (x : F32.float) :
  F32.well_formed x = true -> Simd.spec_isinf_lane x = Simd.std_isinf x.
Proof.
  intros W. unfold Simd.spec_isinf_lane.
  rewrite clear_sign_bit by exact W. now apply magnitude_bits_infinite.
Qed.

Lemma spec_isfinite_lane_correct (x : F32.float) :
  F32.well_formed x = true -> Simd.spec_isfinite_lane x = Simd.class_finite x.
Proof.
  intros W. unfold Simd.spec_isfinite_lane.
  rewrite clear_sign_bit by exact W. now apply magnitude_bits_finite.
Qed.

(** On vectors of binary32 numbers the three functions compute what the
    bit-pattern classification of the spec computes. *)
Lemma classification_refines_spec (v : Simd.float4) :
  Simd.well_formed v = true ->
  Simd.isinf v = Simd.spec_isinf v /\
  Simd.isnan v = Simd.spec_isnan v /\
  Simd.isfinite v = Simd.spec_isfinite v.
Proof.
  destruct v as [a b c d]. unfold Simd.well_formed; cbn.
  intros W.
  repeat match goal with
         | H : _ && _ = true |- _ => apply andb_true_iff in H; destruct H
         end.
  unfold Simd.isinf, Simd.isnan, Simd.isfinite, Simd.spec_isinf, Simd.spec_isnan,
    Simd.spec_isfinite, Simd.lanewise, Simd.neq, Simd.mm_cmpneq_ps,
    Simd.mask_not, Simd.mask_or; cbn.
  rewrite !spec_isinf_lane_correct, !spec_isfinite_lane_correct by assumption.
  split; [reflexivity|]. split; [reflexivity|].
  unfold Simd.class_finite.
  rewrite <- !self_compare_is_nan, <- !std_isinf_is_inf.
  rewrite !negb_orb.
  f_equal; apply andb_comm.
Qed.

(** C8, as the code has it.  [isnan] is the lane-wise self-comparison
    [v != v] and calls no scalar routine; [isinf] stores the four lanes and
    calls the scalar routine [std::isinf] on each of them; and [isfinite]
    is [!(isinf(v) | isnan(v))], so it goes through the same scalar
    calls.  All three return the right mask: lane [i] of [isnan(v)] is set
    exactly when lane [i] of [v] is a NaN, of [isinf(v)] exactly when it is
    [+inf] or [-inf], and of [isfinite(v)] exactly when it is neither.  On
    vectors of binary32 numbers these are the masks that the bit-pattern
    classification of the spec computes. *)
Theorem classification_masks :
  Simd.body Simd.Isnan = Simd.Cmp_neq_self /\
  Simd.calls_scalar_routine (Simd.body Simd.Isnan) = false /\
  Simd.body Simd.Isinf = Simd.Scalar_isinf_per_lane /\
  Simd.calls_scalar_routine (Simd.body Simd.Isinf) = true /\
  Simd.body Simd.Isfinite
  = Simd.Mask_not (Simd.Mask_or (Simd.body Simd.Isinf) (Simd.body Simd.Isnan)) /\
  Simd.calls_scalar_routine (Simd.body Simd.Isfinite) = true /\
  (forall (c : Simd.classifier) (v : Simd.float4),
      Simd.eval (Simd.body c) v = Simd.run c v) /\
  (forall (v : Simd.float4) (i : nat),
      Simd.bit (Simd.isnan v) i = Simd.class_nan (Simd.lane v i) /\
      Simd.bit (Simd.isinf v) i = Simd.class_inf (Simd.lane v i) /\
      Simd.bit (Simd.isfinite v) i = Simd.class_finite (Simd.lane v i)) /\
  (forall v : Simd.float4,
      Simd.well_formed v = true ->
      Simd.isinf v = Simd.spec_isinf v /\
      Simd.isnan v = Simd.spec_isnan v /\
      Simd.isfinite v = Simd.spec_isfinite v).
Proof.
  repeat (split; [reflexivity|]).
  split; [exact body_run|].
  split; [|exact classification_refines_spec].
  intros v i.
  split; [apply isnan_lane|]. split; [apply isinf_lane|apply isfinite_lane].
Qed.

(** The vector [(NaN, +inf, -inf, 3)]. *)
Lemma classification_masks_witness :
  let v := Simd.mk_float4 F32.nan F32.pos_inf F32.neg_inf (F32.of_Z 3) in
  Simd.well_formed v = true /\
  Simd.isinf v = Simd.spec_isinf v /\
  Simd.isnan v = Simd.spec_isnan v /\
  Simd.isfinite v = Simd.spec_isfinite v.
Proof.
  cbv zeta. split; [reflexivity|].
  destruct classification_masks as (_ & _ & _ & _ & _ & _ & _ & _ & Refines).
  apply Refines. reflexivity.
Defined.

(** C8 as stated fails: [isinf], and through it [isfinite], is written
    with the per-lane scalar routine [std::isinf], not with a bit-pattern
    test or a lane-wise comparison. *)
Lemma isinf_uses_scalar_routine :
  ~ (forall c : Simd.classifier,
        Simd.calls_scalar_routine (Simd.body c) = false).
Proof. intros A. specialize (A Simd.Isinf). discriminate A. Qed.

(** The masks on a vector holding a NaN, both infinities and a finite
    number. *)
Example classification_example :
  let v := Simd.mk_float4 F32.nan F32.pos_inf F32.neg_inf (F32.of_Z 3) in
  Simd.isnan v = Simd.mk_mask4 true false false false /\
  Simd.isinf v = Simd.mk_mask4 false true true false /\
  Simd.isfinite v = Simd.mk_mask4 false false false true.
Proof. repeat split. Qed.

(* ================================================================== *)
(** * Intersector dispatch                                             *)
(* ================================================================== *)

Section DispatchFacts.
Variables R P Derived Arg Res : Type.
Variable self_arg : Derived -> Arg.
Variable intersect : R -> P -> list Arg -> option Res.

(** Default path: for a primitive that is not a hierarchy, any call that
    takes part in overload resolution runs [intersect(ray, prim)]. *)
Lemma call_default (d : Derived) (ray : R) (prim : P) (args : list Arg) :
  basic_intersector.well_formed intersect ray prim args = true ->
  basic_intersector.call false self_arg intersect d ray prim args
  = intersect ray prim [].
Proof.
  intros W. unfold basic_intersector.call, basic_intersector.hierarchy_viable,
    basic_intersector.variadic_viable, basic_intersector.variadic_body.
  rewrite W. destruct args; reflexivity.
Qed.

(** Hierarchy path: for a hierarchy, the call [d(ray, prim)] runs
    [intersect(ray, prim, d)]. *)
Lemma call_hierarchy (d : Derived) (ray : R) (prim : P) :
  basic_intersector.well_formed intersect ray prim [self_arg d] = true ->
  basic_intersector.call true self_arg intersect d ray prim []
  = intersect ray prim [self_arg d].
Proof.
  intros W. unfold basic_intersector.call, basic_intersector.hierarchy_viable,
    basic_intersector.hierarchy_body.
  rewrite W. reflexivity.
Qed.

(** A call with trailing arguments never takes the hierarchy path. *)
Lemma call_with_arguments (is_bvh : bool) (d : Derived) (ray : R) (prim : P)
  (a : Arg) (args : list Arg) :
  basic_intersector.call is_bvh self_arg intersect d ray prim (a :: args)
  = if basic_intersector.well_formed intersect ray prim (a :: args)
    then intersect ray prim [] else None.
Proof. reflexivity. Qed.
End DispatchFacts.

(** C9.  The call resolves along exactly one of two paths: the hierarchy
    overload when it is viable, the variadic overload otherwise.  For a
    primitive that is not a hierarchy, a call with a ray, the primitive and
    any trailing arguments (one that takes part in overload resolution,
    that is, whose [intersect(ray, prim, args...)] is well formed) returns
    [intersect(ray, prim)].  For a hierarchy whose [intersect(ray, prim, d)]
    is well formed, the call [d(ray, prim)] returns
    [intersect(ray, prim, d)], with [d] the derived intersector itself.
    A call with a trailing argument never takes the hierarchy path: on a
    hierarchy too it returns [intersect(ray, prim)]. *)
Theorem dispatch_resolution
  (R P Derived Arg Res : Type) (self_arg : Derived -> Arg)
  (intersect : R -> P -> list Arg -> option Res)
  (d : Derived) (ray : R) (prim : P) :
  (forall (is_bvh : bool) (args : list Arg),
      (basic_intersector.hierarchy_viable is_bvh self_arg intersect d ray prim args = true /\
       basic_intersector.call is_bvh self_arg intersect d ray prim args
       = intersect ray prim [self_arg d])
      \/
      (basic_intersector.hierarchy_viable is_bvh self_arg intersect d ray prim args = false /\
       basic_intersector.call is_bvh self_arg intersect d ray prim args
       = if basic_intersector.well_formed intersect ray prim args
         then intersect ray prim [] else None)) /\
  (forall args : list Arg,
      basic_intersector.well_formed intersect ray prim args = true ->
      basic_intersector.call false self_arg intersect d ray prim args
      = intersect ray prim []) /\
  (basic_intersector.well_formed intersect ray prim [self_arg d] = true ->
   basic_intersector.call true self_arg intersect d ray prim []
   = intersect ray prim [self_arg d]) /\
  (forall (is_bvh : bool) (a : Arg) (args : list Arg),
      basic_intersector.well_formed intersect ray prim (a :: args) = true ->
      basic_intersector.hierarchy_viable is_bvh self_arg intersect d ray prim (a :: args)
      = false /\
      basic_intersector.call is_bvh self_arg intersect d ray prim (a :: args)
      = intersect ray prim []).
Proof.
  split; [|split; [|split]].
  - intros is_bvh args. unfold basic_intersector.call.
    destruct (basic_intersector.hierarchy_viable _ _ _ _ _ _ _); [left|right];
      split; reflexivity.
  - intros args. apply call_default.
  - apply call_hierarchy.
  - intros is_bvh a args W. split; [reflexivity|].
    rewrite call_with_arguments, W. reflexivity.
Qed.

Lemma dispatch_resolution_witness :
  basic_intersector.well_formed Examples.toy_intersect 1%nat 2%nat [9%nat] = true /\
  basic_intersector.call false (fun d : nat => d) Examples.toy_intersect 5%nat 1%nat 2%nat [9%nat]
  = Some (Examples.Leaf_hit 1 2) /\
  basic_intersector.well_formed Examples.toy_intersect 1%nat 2%nat [5%nat] = true /\
  basic_intersector.call true (fun d : nat => d) Examples.toy_intersect 5%nat 1%nat 2%nat []
  = Some (Examples.Traversed_with 1 2 5).
Proof.
  split; [reflexivity|].
  split.
  - apply (proj1 (proj2 (dispatch_resolution (fun d : nat => d) Examples.toy_intersect
                           5%nat 1%nat 2%nat)) [9%nat]).
    reflexivity.
  - split; [reflexivity|].
    apply (proj1 (proj2 (proj2 (dispatch_resolution (fun d : nat => d)
                                  Examples.toy_intersect 5%nat 1%nat 2%nat)))).
    reflexivity.
Defined.

(** C9 as stated fails for a hierarchy that is called with a trailing
    argument: the hierarchy overload takes exactly a ray and a primitive,
    so the call [d(ray, prim, 9)] runs the variadic overload and returns
    [intersect(ray, prim)], not [intersect(ray, prim, d)]. *)
Lemma hierarchy_call_with_argument :
  basic_intersector.well_formed Examples.toy_intersect 1%nat 2%nat [9%nat] = true /\
  basic_intersector.call true (fun d : nat => d) Examples.toy_intersect
    5%nat 1%nat 2%nat [9%nat]
  = Examples.toy_intersect 1%nat 2%nat [] /\
  Examples.toy_intersect 1%nat 2%nat [] = Some (Examples.Leaf_hit 1 2) /\
  Examples.toy_intersect 1%nat 2%nat [5%nat] = Some (Examples.Traversed_with 1 2 5) /\
  basic_intersector.call true (fun d : nat => d) Examples.toy_intersect
    5%nat 1%nat 2%nat [9%nat]
  <> Examples.toy_intersect 1%nat 2%nat [5%nat].
Proof.
  split; [reflexivity|]. split; [reflexivity|]. split; [reflexivity|].
  split; [reflexivity|]. intros E. vm_compute in E. discriminate E.
Qed.

(* ================================================================== *)
(** * Further properties of [basic_aabb]: the order of boxes           *)
(* ================================================================== *)

Section MinMaxMore.
Context {T : Type} `{OrderLaws T}.

Lemma min_ordered (a b : T) :
  leb a a = true -> leb b b = true -> leb (Math.min a b) (Math.min a b) = true.
Proof. intros Oa Ob. destruct (min_cases a b) as [E|E]; now rewrite E. Qed.

Lemma max_ordered (a b : T) :
  leb a a = true -> leb b b = true -> leb (Math.max a b) (Math.max a b) = true.
Proof. intros Oa Ob. destruct (max_cases a b) as [E|E]; now rewrite E. Qed.

Lemma min_below_l (a b c : T) : leb a c = true -> leb (Math.min a b) c = true.
Proof.
  intros L. apply (leb_trans _ a _); [|exact L].
  apply min_le_l. now apply leb_ordered_l with c.
Qed.

Lemma min_below_r (a b c : T) :
  leb a a = true -> leb b c = true -> leb (Math.min a b) c = true.
Proof.
  intros Oa L. apply (leb_trans _ b _); [|exact L].
  apply min_le_r; trivial. now apply leb_ordered_l with c.
Qed.

Lemma max_above_l (a b c : T) : leb c a = true -> leb c (Math.max a b) = true.
Proof.
  intros L. apply (leb_trans _ a _); [exact L|].
  apply max_ge_l. now apply leb_ordered_r with c.
Qed.

Lemma max_above_r (a b c : T) :
  leb a a = true -> leb c b = true -> leb c (Math.max a b) = true.
Proof.
  intros Oa L. apply (leb_trans _ b _); [exact L|].
  apply max_ge_r; trivial. now apply leb_ordered_r with c.
Qed.

Lemma eqb_of_leb (a b : T) : leb a b = true -> leb b a = true -> eqb a b = true.
Proof. intros L1 L2. now rewrite eqb_leb, L1, L2. Qed.









End MinMaxMore.

(** Unfolds the box predicates down to scalar comparisons. *)
Ltac unfold_boxes :=
  unfold Aabb.ordered, Aabb.ordered_point, Aabb.valid, Aabb.invalid, Aabb.empty,
    Aabb.contains_box, Aabb.contains, Aabb.equal, Aabb.within, Aabb.in_limits,
    Aabb.combine, Aabb.combine_point, Aabb.intersect, Aabb.insert,
    Aabb.insert_box, Aabb.invalidate, Vector3.in_range,
    Vector3.equal, Vector3.le, Vector3.min, Vector3.max, Vector3.broadcast,
    geb, gtb in *;
  cbn [Aabb.min Aabb.max Vector3.x Vector3.y Vector3.z] in *.

Ltac destruct_boxes :=
  repeat match goal with
         | b : basic_aabb _ |- _ => destruct b as [[? ? ?] [? ? ?]]
         | v : vector3 _ |- _ => destruct v as [? ? ?]
         end.

Lemma contains_box_self {T : Type} `{OrderLaws T} (b : basic_aabb T) :
  Aabb.contains_box b b = Aabb.valid b.
Proof.
  destruct_boxes. unfold_boxes.
  apply eq_true_iff_eq. split; intros E; split_and; ordered_hyps; assumption.
Qed.

(** X1.  [b.contains(b)] holds exactly when [b] is valid: a box contains
    itself if and only if [min <= max] on every axis.  This covers boxes
    with a coordinate that is not ordered (a NaN), which are neither valid
    nor contained in themselves. *)
Theorem box_contains_itself_iff_valid
  {T : Type} `{OrderLaws T} (b : basic_aabb T) :
  Aabb.contains_box b b = Aabb.valid b.
Proof. apply contains_box_self. Qed.

(** In binary32: the box of the scenario contains itself; the inverted box
    and the box with a NaN coordinate do not. *)
Lemma box_contains_itself_iff_valid_witness :
  Aabb.contains_box Examples.box_A Examples.box_A = true /\
  Aabb.contains_box Examples.box_inverted Examples.box_inverted = false /\
  Aabb.contains_box Examples.box_nan Examples.box_nan = false.
Proof.
  rewrite (box_contains_itself_iff_valid Examples.box_A).
  rewrite (box_contains_itself_iff_valid Examples.box_inverted).
  rewrite (box_contains_itself_iff_valid Examples.box_nan).
  repeat split.
Defined.

(** X2.  [valid], [invalid] and [empty] on one box: a valid box is not
    invalid; an invalid box is empty; and on a box whose coordinates are
    all ordered (for floats: no NaN), [invalid] is the negation of
    [valid]. *)
Theorem valid_invalid_empty
  {T : Type} `{OrderLaws T} (b : basic_aabb T) :
  (Aabb.valid b = true -> Aabb.invalid b = false) /\
  (Aabb.invalid b = true -> Aabb.empty b = true) /\
  (Aabb.ordered b = true -> Aabb.invalid b = negb (Aabb.valid b)).
Proof.
  destruct_boxes. unfold_boxes.
  assert (forall a c : T, leb a c = true -> ltb c a = false) as NotBoth.
  { intros a c L. destruct (ltb c a) eqn:E; [|reflexivity].
    apply ltb_not_leb in E. congruence. }
  assert (forall a c : T, leb a a = true -> leb c c = true ->
                          ltb c a = negb (leb a c)) as Neg.
  { intros a c Oa Oc. destruct (ltb c a) eqn:E.
    - apply ltb_not_leb in E. now rewrite E.
    - apply leb_total in E; trivial. now rewrite E. }
  repeat split.
  - intros V. split_and. now rewrite !NotBoth.
  - intros I. apply orb_true_iff in I. destruct I as [I|I];
      [apply orb_true_iff in I; destruct I as [I|I]|];
      apply ltb_leb in I; rewrite I; cbn; rewrite ?orb_true_r; reflexivity.
  - intros O. split_and. rewrite !Neg by assumption.
    now rewrite !negb_andb.
Qed.

(** A NaN on one axis leaves the binary32 box neither valid nor invalid;
    the inverted box is invalid and empty; a box of one point is valid and
    empty. *)
Lemma valid_invalid_empty_witness :
  Aabb.ordered Examples.box_inverted = true /\
  Aabb.invalid Examples.box_inverted = true /\
  Aabb.empty Examples.box_inverted = true /\
  Aabb.invalid Examples.box_inverted = negb (Aabb.valid Examples.box_inverted) /\
  Aabb.valid Examples.box_at_infinity = true /\
  Aabb.invalid Examples.box_at_infinity = false /\
  Aabb.empty Examples.box_at_infinity = true /\
  Aabb.valid Examples.box_nan = false /\
  Aabb.invalid Examples.box_nan = false.
Proof.
  destruct (valid_invalid_empty Examples.box_inverted) as (_ & E & N).
  destruct (valid_invalid_empty Examples.box_at_infinity) as (V & _ & _).
  split; [reflexivity|]. split; [reflexivity|].
  split; [apply E; reflexivity|].
  split; [apply N; reflexivity|].
  split; [reflexivity|].
  split; [apply V; reflexivity|].
  repeat split; reflexivity.
Defined.

(** X3.  When [numeric_limits<T>::lowest() < numeric_limits<T>::max()],
    the box left by [invalidate()] is invalid, not valid and empty, and
    [contains] rejects every point, whatever box [invalidate] was called
    on. *)
Theorem invalidated_box_contains_nothing
  {T : Type} `{OrderLaws T} `{NumericLimits T} (b0 : basic_aabb T) :
  ltb (numeric_lowest : T) numeric_max = true ->
  Aabb.invalid (Aabb.invalidate b0) = true /\
  Aabb.valid (Aabb.invalidate b0) = false /\
  Aabb.empty (Aabb.invalidate b0) = true /\
  (forall p : vector3 T, Aabb.contains (Aabb.invalidate b0) p = false) /\
  (forall c : basic_aabb T, Aabb.contains_box (Aabb.invalidate b0) c = false).
Proof.
  intros L.
  pose proof (ltb_leb _ _ L) as L1.
  pose proof (ltb_not_leb _ _ L) as L2.
  assert (forall p : vector3 T, Aabb.contains (Aabb.invalidate b0) p = false) as C.
  { intros [px py pz]. unfold_boxes.
    destruct (leb numeric_max px) eqn:E1; [|reflexivity].
    destruct (leb px numeric_lowest) eqn:E2; [|reflexivity].
    pose proof (leb_trans _ _ _ E1 E2). congruence. }
  unfold_boxes. rewrite L, L1, L2. repeat split; try reflexivity.
  - exact C.
  - intros c. unfold Aabb.contains_box. now rewrite C.
Qed.

(** With the binary32 limits [+inf] and [-inf]. *)
Lemma invalidated_box_contains_nothing_witness :
  ltb (numeric_lowest : F32.float) numeric_max = true /\
  Aabb.invalid (Aabb.invalidate Examples.box_A) = true /\
  Aabb.valid (Aabb.invalidate Examples.box_A) = false /\
  Aabb.empty (Aabb.invalidate Examples.box_A) = true /\
  (forall p : vector3 F32.float,
      Aabb.contains (Aabb.invalidate Examples.box_A) p = false) /\
  (forall c : basic_aabb F32.float,
      Aabb.contains_box (Aabb.invalidate Examples.box_A) c = false).
Proof.
  split; [reflexivity|].
  apply (invalidated_box_contains_nothing Examples.box_A). reflexivity.
Defined.





(* ================================================================== *)
(** * Containment                                                      *)
(* ================================================================== *)

(** A bound that follows from two hypotheses by transitivity. *)
Ltac trans_hyps :=
  match goal with
  | L1 : leb ?a ?m = true, L2 : leb ?m ?c = true |- leb ?a ?c = true =>
      exact (leb_trans _ _ _ L1 L2)
  end.

(** X6.  Containment is transitive: a box [a] that contains the box [b]
    contains every point and every box that [b] contains.  Nothing is
    asked of the boxes; [b] may be inverted. *)
Theorem contains_transitive
  {T : Type} `{OrderLaws T} (a b : basic_aabb T) :
  Aabb.contains_box a b = true ->
  (forall v : vector3 T, Aabb.contains b v = true -> Aabb.contains a v = true) /\
  (forall c : basic_aabb T,
      Aabb.contains_box b c = true -> Aabb.contains_box a c = true).
Proof.
  intros Cab.
  assert (forall v : vector3 T,
             Aabb.contains b v = true -> Aabb.contains a v = true) as Point.
  { intros v Cbv. destruct_boxes. unfold_boxes.
    split_and; trans_hyps. }
  split; [exact Point|].
  intros c Cbc. unfold Aabb.contains_box in *.
  apply andb_true_iff in Cbc. destruct Cbc as [C1 C2].
  apply andb_true_iff. split; now apply Point.
Qed.

Lemma contains_transitive_witness :
  Aabb.contains_box (Aabb.combine Examples.box_A Examples.box_B)
    Examples.box_A = true /\
  (forall v : vector3 F32.float,
      Aabb.contains Examples.box_A v = true ->
      Aabb.contains (Aabb.combine Examples.box_A Examples.box_B) v = true) /\
  (forall c : basic_aabb F32.float,
      Aabb.contains_box Examples.box_A c = true ->
      Aabb.contains_box (Aabb.combine Examples.box_A Examples.box_B) c = true).
Proof.
  split; [reflexivity|].
  apply (contains_transitive (Aabb.combine Examples.box_A Examples.box_B)
           Examples.box_A).
  reflexivity.
Defined.

(** X7.  [insert(v)] of a point [v] whose coordinates are ordered (for
    floats: not NaN) only grows a box: every point that the box contained
    is still contained after the insertion, and this is so too when [min]
    and [max] are given their operands in the other order, so that it does
    not matter which of [b < a ? b : a] and [a < b ? a : b] the scalar
    [min] is.  When the coordinates of the box are ordered too, the box
    contains [v] afterwards.  [combine(box, v)] is the same box as
    [insert] leaves. *)
Theorem insert_grows
  {T : Type} `{OrderLaws T} (b : basic_aabb T) (v : vector3 T) :
  Aabb.ordered_point v = true ->
  (forall w : vector3 T,
      Aabb.contains b w = true -> Aabb.contains (Aabb.insert b v) w = true) /\
  (forall w : vector3 T,
      Aabb.contains b w = true ->
      Aabb.contains (Aabb.mk (Vector3.min v (Aabb.min b))
                             (Vector3.max v (Aabb.max b))) w = true) /\
  (Aabb.ordered b = true -> Aabb.contains (Aabb.insert b v) v = true) /\
  Aabb.combine_point b v = Aabb.insert b v.
Proof.
  intros Ov. split; [|split; [|split; [|reflexivity]]].
  - intros w C. destruct_boxes. unfold_boxes. unfold geb.
    split_and; first [now apply min_below_l | now apply max_above_l].
  - intros w C. destruct_boxes. unfold_boxes. unfold geb.
    split_and; first [now apply min_below_r | now apply max_above_r].
  - intros Ob. destruct_boxes. unfold_boxes.
    split_and; first [now apply min_le_r | now apply max_ge_r].
Qed.

Lemma insert_grows_witness :
  Aabb.ordered_point (Examples.fvec 5 (-1) 1) = true /\
  (forall w : vector3 F32.float,
      Aabb.contains Examples.box_A w = true ->
      Aabb.contains (Aabb.insert Examples.box_A (Examples.fvec 5 (-1) 1)) w = true) /\
  Aabb.ordered Examples.box_A = true /\
  Aabb.contains (Aabb.insert Examples.box_A (Examples.fvec 5 (-1) 1))
    (Examples.fvec 5 (-1) 1) = true.
Proof.
  assert (Aabb.ordered_point (Examples.fvec 5 (-1) 1) = true) as Ov by reflexivity.
  destruct (insert_grows Examples.box_A (Examples.fvec 5 (-1) 1) Ov)
    as (G & _ & C & _).
  split; [exact Ov|]. split; [exact G|]. split; [reflexivity|].
  apply C; reflexivity.
Defined.

(** X8.  [combine(a,b)] is the least box that contains [a] and [b]: every
    box [c] that contains both (by [contains]) also contains
    [combine(a,b)]. *)
Theorem combine_least_upper_bound
  {T : Type} `{OrderLaws T} (a b c : basic_aabb T) :
  Aabb.contains_box c a = true -> Aabb.contains_box c b = true ->
  Aabb.contains_box c (Aabb.combine a b) = true.
Proof.
  destruct_boxes. unfold_boxes. intros Ca Cb.
  split_and;
    first [ now apply min_glb | now apply max_lub
          | match goal with
            | |- leb (Math.min ?x ?y) _ = true =>
                destruct (min_cases x y) as [E|E]; rewrite E; assumption
            | |- leb _ (Math.max ?x ?y) = true =>
                destruct (max_cases x y) as [E|E]; rewrite E; assumption
            end ].
Qed.

Lemma combine_least_upper_bound_witness :
  Aabb.contains_box (Examples.fbox (-1) (-1) (-1) 4 4 4) Examples.box_A = true /\
  Aabb.contains_box (Examples.fbox (-1) (-1) (-1) 4 4 4) Examples.box_B = true /\
  Aabb.contains_box (Examples.fbox (-1) (-1) (-1) 4 4 4)
    (Aabb.combine Examples.box_A Examples.box_B) = true.
Proof.
  split; [reflexivity|]. split; [reflexivity|].
  apply combine_least_upper_bound; reflexivity.
Defined.

(** X9.  [intersect(a,b)] is the greatest box within [a] and [b]: every
    box [c] that both [a] and [b] contain is contained in
    [intersect(a,b)]. *)
Theorem intersect_greatest_lower_bound
  {T : Type} `{OrderLaws T} (a b c : basic_aabb T) :
  Aabb.contains_box a c = true -> Aabb.contains_box b c = true ->
  Aabb.contains_box (Aabb.intersect a b) c = true.
Proof.
  destruct_boxes. unfold_boxes. intros Ca Cb.
  split_and; first [now apply min_glb | now apply max_lub].
Qed.

Lemma intersect_greatest_lower_bound_witness :
  Aabb.contains_box Examples.box_A (Examples.fbox 1 1 1 2 2 2) = true /\
  Aabb.contains_box Examples.box_B (Examples.fbox 1 1 1 2 2 2) = true /\
  Aabb.contains_box (Aabb.intersect Examples.box_A Examples.box_B)
    (Examples.fbox 1 1 1 2 2 2) = true.
Proof.
  split; [reflexivity|]. split; [reflexivity|].
  apply intersect_greatest_lower_bound; reflexivity.
Defined.

(* ================================================================== *)
(** * Bounds of a triangle and of the vertices of a box                *)
(* ================================================================== *)

Ltac order_goal :=
  match goal with
  | |- leb ?a ?a = true =>
      first [ assumption
            | apply min_ordered; order_goal
            | apply max_ordered; order_goal ]
  end.

(** A bound on a nest of [min]s or [max]s from bounds on its leaves. *)
Ltac lattice_bound :=
  first [ assumption
        | trans_hyps
        | order_goal
        | apply min_glb; lattice_bound
        | apply max_lub; lattice_bound
        | apply min_below_r; [order_goal | lattice_bound]
        | apply min_below_l; lattice_bound
        | apply max_above_r; [order_goal | lattice_bound]
        | apply max_above_l; lattice_bound ].

Section Bounds.
Context {T : Type} `{OrderLaws T} `{NumericLimits T}.

(** The box left by inserting three points into an invalidated box. *)
Lemma bounds_of_three (b0 : basic_aabb T) (p1 p2 p3 : vector3 T) :
  Vector3.in_range numeric_lowest numeric_max p1 = true ->
  Vector3.in_range numeric_lowest numeric_max p2 = true ->
  Vector3.in_range numeric_lowest numeric_max p3 = true ->
  let bounds := Aabb.insert (Aabb.insert (Aabb.insert (Aabb.invalidate b0) p1) p2) p3 in
  Aabb.valid bounds = true /\
  Aabb.contains bounds p1 = true /\
  Aabb.contains bounds p2 = true /\
  Aabb.contains bounds p3 = true /\
  (forall c : basic_aabb T,
      Aabb.contains c p1 = true -> Aabb.contains c p2 = true ->
      Aabb.contains c p3 = true -> Aabb.contains_box c bounds = true).
Proof.
  intros R1 R2 R3 bounds. subst bounds.
  destruct_boxes. unfold_boxes. split_and; ordered_hyps.
  1-3: match goal with
       | |- leb (Math.min _ ?m) (Math.max _ ?m) = true =>
           apply (leb_trans _ m _); lattice_bound
       end.
  1-18: lattice_bound.
  intros [[? ? ?] [? ? ?]]; cbn [Aabb.min Aabb.max Vector3.x Vector3.y Vector3.z].
  intros C1 C2 C3. split_and; ordered_hyps; lattice_bound.
Qed.

End Bounds.

(** X10.  [get_bounds] of a triangle whose three vertices [v1], [v1 + e1]
    and [v1 + e2], as computed in [T], lie within the numeric limits (for
    floats: are not NaN): the result is a valid box that contains the three
    vertices, it is contained in every box that contains them, and it does
    not depend on the uninitialised contents of the local [bounds]. *)
Theorem get_bounds_is_tight
  {T : Type} `{OrderLaws T} `{NumericLimits T}
  (uninitialized : basic_aabb T) (t : basic_triangle T) :
  Vector3.in_range numeric_lowest numeric_max (Triangle.v1 t) = true ->
  Vector3.in_range numeric_lowest numeric_max
    (Vector3.plus (Triangle.v1 t) (Triangle.e1 t)) = true ->
  Vector3.in_range numeric_lowest numeric_max
    (Vector3.plus (Triangle.v1 t) (Triangle.e2 t)) = true ->
  Aabb.valid (Triangle.get_bounds uninitialized t) = true /\
  Aabb.contains (Triangle.get_bounds uninitialized t) (Triangle.v1 t) = true /\
  Aabb.contains (Triangle.get_bounds uninitialized t)
    (Vector3.plus (Triangle.v1 t) (Triangle.e1 t)) = true /\
  Aabb.contains (Triangle.get_bounds uninitialized t)
    (Vector3.plus (Triangle.v1 t) (Triangle.e2 t)) = true /\
  (forall c : basic_aabb T,
      Aabb.contains c (Triangle.v1 t) = true ->
      Aabb.contains c (Vector3.plus (Triangle.v1 t) (Triangle.e1 t)) = true ->
      Aabb.contains c (Vector3.plus (Triangle.v1 t) (Triangle.e2 t)) = true ->
      Aabb.contains_box c (Triangle.get_bounds uninitialized t) = true) /\
  (forall other : basic_aabb T,
      Triangle.get_bounds other t = Triangle.get_bounds uninitialized t).
Proof.
  intros R1 R2 R3.
  destruct (bounds_of_three uninitialized _ _ _ R1 R2 R3) as (V & C1 & C2 & C3 & L).
  repeat split; trivial.
Qed.

(** The triangle [(1,2,3)], [(2,2,3)], [(1,3,3)] in binary32: its bounds
    are [[(1,2,3), (2,3,3)]]. *)
Lemma get_bounds_is_tight_witness :
  let t := Examples.unit_triangle (Examples.fvec 1 2 3) in
  Vector3.in_range (numeric_lowest : F32.float) numeric_max (Triangle.v1 t) = true /\
  Vector3.in_range (numeric_lowest : F32.float) numeric_max
    (Vector3.plus (Triangle.v1 t) (Triangle.e1 t)) = true /\
  Vector3.in_range (numeric_lowest : F32.float) numeric_max
    (Vector3.plus (Triangle.v1 t) (Triangle.e2 t)) = true /\
  Triangle.get_bounds Examples.box_nan t = Examples.fbox 1 2 3 2 3 3 /\
  Aabb.valid (Triangle.get_bounds Examples.box_nan t) = true /\
  (forall c : basic_aabb F32.float,
      Aabb.contains c (Triangle.v1 t) = true ->
      Aabb.contains c (Vector3.plus (Triangle.v1 t) (Triangle.e1 t)) = true ->
      Aabb.contains c (Vector3.plus (Triangle.v1 t) (Triangle.e2 t)) = true ->
      Aabb.contains_box c (Triangle.get_bounds Examples.box_nan t) = true).
Proof.
  intros t.
  assert (Vector3.in_range (numeric_lowest : F32.float) numeric_max
            (Triangle.v1 t) = true) as R1 by (vm_compute; reflexivity).
  assert (Vector3.in_range (numeric_lowest : F32.float) numeric_max
            (Vector3.plus (Triangle.v1 t) (Triangle.e1 t)) = true) as R2
      by (vm_compute; reflexivity).
  assert (Vector3.in_range (numeric_lowest : F32.float) numeric_max
            (Vector3.plus (Triangle.v1 t) (Triangle.e2 t)) = true) as R3
      by (vm_compute; reflexivity).
  destruct (get_bounds_is_tight Examples.box_nan t R1 R2 R3)
    as (V & _ & _ & _ & L & _).
  split; [exact R1|]. split; [exact R2|]. split; [exact R3|].
  split; [vm_compute; reflexivity|]. split; [exact V|]. exact L.
Defined.

Section Vertices.
Context {T : Type} `{OrderLaws T}.

Lemma contains_vertices (c b : basic_aabb T) :
  forallb (Aabb.contains c) (Aabb.compute_vertices b) = Aabb.contains_box c b.
Proof.
  destruct_boxes. unfold Aabb.compute_vertices. unfold_boxes. cbn [forallb].
  unfold Aabb.contains, geb. cbn [Aabb.min Aabb.max Vector3.x Vector3.y Vector3.z].
  apply eq_true_iff_eq. split; intros E; split_and; first [assumption|reflexivity].
Qed.
End Vertices.

(** X11.  [compute_vertices] returns eight points, and a box [c] contains
    all of them exactly when [c.contains(box)] holds; in particular the
    eight vertices of [box] all lie in [box] exactly when [box] is valid. *)
Theorem compute_vertices_contained
  {T : Type} `{OrderLaws T} (box : basic_aabb T) :
  length (Aabb.compute_vertices box) = 8%nat /\
  (forall c : basic_aabb T,
      forallb (Aabb.contains c) (Aabb.compute_vertices box)
      = Aabb.contains_box c box) /\
  forallb (Aabb.contains box) (Aabb.compute_vertices box) = Aabb.valid box.
Proof.
  split; [reflexivity|]. split.
  - intros c. apply contains_vertices.
  - rewrite contains_vertices. apply contains_box_self.
Qed.

(** In binary32: the union of the scenario's boxes contains the eight
    vertices of [A]; the vertices of the inverted box are not in it. *)
Lemma compute_vertices_contained_witness :
  forallb (Aabb.contains (Aabb.combine Examples.box_A Examples.box_B))
    (Aabb.compute_vertices Examples.box_A) = true /\
  forallb (Aabb.contains Examples.box_inverted)
    (Aabb.compute_vertices Examples.box_inverted) = false.
Proof.
  destruct (compute_vertices_contained Examples.box_A) as (_ & C & _).
  destruct (compute_vertices_contained Examples.box_inverted) as (_ & _ & V).
  rewrite C, V. split; reflexivity.
Defined.

(** [insert] on a box and a point given by their coordinates. *)
Lemma insert_corners {T : Type} `{Scalar T} (a b c d e f x y z : T) :
  Aabb.insert (Aabb.mk (Vector3.mk a b c) (Vector3.mk d e f)) (Vector3.mk x y z)
  = Aabb.mk (Vector3.mk (Math.min a x) (Math.min b y) (Math.min c z))
            (Vector3.mk (Math.max d x) (Math.max e y) (Math.max f z)).
Proof. reflexivity. Qed.

(** X12.  The vertices of a box give the box back: inserting the eight
    points of [compute_vertices(box)] into an invalidated box yields a box
    [== box], for every valid [box] within the numeric limits. *)
Theorem bounds_of_vertices
  {T : Type} `{OrderLaws T} `{NumericLimits T} (b0 box : basic_aabb T) :
  Aabb.valid box = true -> Aabb.in_limits box = true ->
  Aabb.equal
    (fold_left Aabb.insert (Aabb.compute_vertices box) (Aabb.invalidate b0))
    box = true.
Proof.
  destruct_boxes. intros V L.
  unfold Aabb.compute_vertices, Aabb.invalidate, Vector3.broadcast.
  cbn [fold_left Aabb.min Aabb.max Vector3.x Vector3.y Vector3.z].
  rewrite !insert_corners.
  unfold_boxes. split_and; ordered_hyps; apply eqb_of_leb; lattice_bound.
Qed.

Lemma bounds_of_vertices_witness :
  Aabb.valid Examples.box_A = true /\ Aabb.in_limits Examples.box_A = true /\
  Aabb.equal
    (fold_left Aabb.insert (Aabb.compute_vertices Examples.box_A)
       (Aabb.invalidate Examples.box_inverted))
    Examples.box_A = true.
Proof.
  split; [reflexivity|]. split; [reflexivity|].
  apply bounds_of_vertices; reflexivity.
Defined.

(* ================================================================== *)
(** * Sizes, areas and the union overlap metric                        *)
(* ================================================================== *)

Lemma safe_size_equal_size {T : Type} `{OrderLaws T} (b : basic_aabb T) :
  Vector3.le (Vector3.broadcast zero) (Aabb.size b) = true ->
  Vector3.equal (Aabb.safe_size b) (Aabb.size b) = true.
Proof.
  unfold Aabb.safe_size, Aabb.size, Vector3.le, Vector3.equal; cbn.
  intros L. split_and; now apply max_absorb.
Qed.

Lemma float_size_nonneg (b : basic_aabb F32.float) :
  Aabb.valid b = true -> box_is_finite b = true ->
  Vector3.le (Vector3.broadcast zero) (Aabb.size b) = true.
Proof.
  destruct_boxes.
  unfold box_is_finite, point_is_finite, Aabb.valid, Aabb.size, Vector3.le; cbn.
  intros V F. split_and; now apply fsub_nonneg.
Qed.

Lemma Q_size_nonneg (b : basic_aabb Q) :
  Aabb.valid b = true ->
  Vector3.le (Vector3.broadcast zero) (Aabb.size b) = true.
Proof.
  destruct_boxes. unfold Aabb.valid, Aabb.size, Vector3.le; cbn.
  intros V. split_and;
    repeat match goal with
           | L : Qle_bool _ _ = true |- _ => apply Qle_bool_iff in L
           end;
    apply Qle_bool_iff; lra.
Qed.

(** X13.  [safe_size()] differs from [size()] only on boxes that are not
    valid: whenever every component of [size()] is [>= 0], [safe_size()]
    [== size()].  That is the case for every valid binary32 box with finite
    coordinates, and for every valid box in exact arithmetic. *)
Theorem safe_size_is_size_of_valid_box :
  (forall (T : Type) (S : Scalar T) (L : OrderLaws T) (b : basic_aabb T),
      Vector3.le (Vector3.broadcast zero) (Aabb.size b) = true ->
      Vector3.equal (Aabb.safe_size b) (Aabb.size b) = true) /\
  (forall b : basic_aabb F32.float,
      Aabb.valid b = true -> box_is_finite b = true ->
      Vector3.equal (Aabb.safe_size b) (Aabb.size b) = true) /\
  (forall b : basic_aabb Q,
      Aabb.valid b = true ->
      Vector3.equal (Aabb.safe_size b) (Aabb.size b) = true).
Proof.
  split; [|split].
  - intros T S L b. apply safe_size_equal_size.
  - intros b V F. apply safe_size_equal_size. now apply float_size_nonneg.
  - intros b V. apply safe_size_equal_size. now apply Q_size_nonneg.
Qed.

Lemma safe_size_is_size_of_valid_box_witness :
  Aabb.valid Examples.box_wide = true /\
  box_is_finite Examples.box_wide = true /\
  Vector3.equal (Aabb.safe_size Examples.box_wide) (Aabb.size Examples.box_wide)
  = true /\
  Aabb.valid Examples.qbox_A = true /\
  Vector3.equal (Aabb.safe_size Examples.qbox_A) (Aabb.size Examples.qbox_A)
  = true.
Proof.
  destruct safe_size_is_size_of_valid_box as (_ & F & E).
  split; [reflexivity|]. split; [reflexivity|].
  split; [apply F; reflexivity|].
  split; [reflexivity|]. apply E; reflexivity.
Defined.

Section ExactMeasures.
Local Open Scope Q_scope.

Lemma Q_leb (a b : Q) : leb a b = true <-> a <= b.
Proof. apply Qle_bool_iff. Qed.

(** Boolean comparisons on [Q] as propositions. *)
Ltac Q_props :=
  repeat match goal with
         | L : @leb Q _ _ _ = true |- _ => apply Q_leb in L
         | L : Qle_bool _ _ = true |- _ => apply Qle_bool_iff in L
         | |- @leb Q _ _ _ = true => apply Q_leb
         | |- Qle_bool _ _ = true => apply Qle_bool_iff
         end.

Lemma Q_geb_true (a b : Q) : geb a b = true -> b <= a.
Proof. unfold geb; cbn. apply Qle_bool_iff. Qed.

(** If a box is empty, so is its intersection with any box. *)
Lemma Q_empty_intersect_l (a b : basic_aabb Q) :
  Aabb.empty a = true -> Aabb.empty (Aabb.intersect a b) = true.
Proof.
  destruct a as [[ax ay az] [bx by_ bz]], b as [[cx cy cz] [dx dy dz]].
  unfold Aabb.empty, Aabb.intersect; cbn [Aabb.min Aabb.max Vector3.x Vector3.y
    Vector3.z Vector3.min Vector3.max].
  destruct (Q_max_spec ax cx) as (? & ? & _), (Q_max_spec ay cy) as (? & ? & _),
    (Q_max_spec az cz) as (? & ? & _).
  destruct (Q_min_spec bx dx) as (? & ? & _), (Q_min_spec by_ dy) as (? & ? & _),
    (Q_min_spec bz dz) as (? & ? & _).
  intros E. apply orb_true_iff in E. destruct E as [E|E];
    [apply orb_true_iff in E; destruct E as [E|E]|];
    apply Q_geb_true in E.
  - apply orb_true_iff; left; apply orb_true_iff; left.
    unfold geb. apply Q_leb. lra.
  - apply orb_true_iff; left; apply orb_true_iff; right.
    unfold geb. apply Q_leb. lra.
  - apply orb_true_iff; right.
    unfold geb. apply Q_leb. lra.
Qed.

Lemma Q_empty_intersect_r (a b : basic_aabb Q) :
  Aabb.empty b = true -> Aabb.empty (Aabb.intersect a b) = true.
Proof.
  destruct a as [[ax ay az] [bx by_ bz]], b as [[cx cy cz] [dx dy dz]].
  unfold Aabb.empty, Aabb.intersect; cbn [Aabb.min Aabb.max Vector3.x Vector3.y
    Vector3.z Vector3.min Vector3.max].
  destruct (Q_max_spec ax cx) as (? & ? & _), (Q_max_spec ay cy) as (? & ? & _),
    (Q_max_spec az cz) as (? & ? & _).
  destruct (Q_min_spec bx dx) as (? & ? & _), (Q_min_spec by_ dy) as (? & ? & _),
    (Q_min_spec bz dz) as (? & ? & _).
  intros E. apply orb_true_iff in E. destruct E as [E|E];
    [apply orb_true_iff in E; destruct E as [E|E]|];
    apply Q_geb_true in E.
  - apply orb_true_iff; left; apply orb_true_iff; left.
    unfold geb. apply Q_leb. lra.
  - apply orb_true_iff; left; apply orb_true_iff; right.
    unfold geb. apply Q_leb. lra.
  - apply orb_true_iff; right.
    unfold geb. apply Q_leb. lra.
Qed.

(** The volume of the union is at least the volume of either box, when
    neither is empty. *)
Lemma Q_volume_combine (a b : basic_aabb Q) :
  Aabb.empty a = false -> Aabb.empty b = false ->
  Aabb.volume a <= Aabb.volume (Aabb.combine a b) /\
  Aabb.volume b <= Aabb.volume (Aabb.combine a b) /\
  0 < Aabb.volume a /\ 0 < Aabb.volume b.
Proof.
  intros Ea Eb. apply Q_not_empty in Ea, Eb.
  destruct a as [[ax ay az] [bx by_ bz]], b as [[cx cy cz] [dx dy dz]].
  unfold Aabb.volume, Aabb.size, Vector3.minus, Aabb.combine in *.
  cbn in *.
  destruct (Q_min_spec ax cx) as (? & ? & _), (Q_min_spec ay cy) as (? & ? & _),
    (Q_min_spec az cz) as (? & ? & _).
  destruct (Q_max_spec bx dx) as (? & ? & _), (Q_max_spec by_ dy) as (? & ? & _),
    (Q_max_spec bz dz) as (? & ? & _).
  destruct Ea as (? & ? & ?), Eb as (? & ? & ?).
  generalize dependent (Math.min ax cx). generalize dependent (Math.min ay cy).
  generalize dependent (Math.min az cz). generalize dependent (Math.max bx dx).
  generalize dependent (Math.max by_ dy). generalize dependent (Math.max bz dz).
  intros hz ? ? hy ? ? hx ? ? lz ? ? ly ? ? lx ? ?.
  assert (0 < (bx - ax) * (by_ - ay) * (bz - az)
          /\ (bx - ax) * (by_ - ay) * (bz - az) <= (hx - lx) * (hy - ly) * (hz - lz))
    as [Pa La] by (apply prod3_mono; lra).
  assert (0 < (dx - cx) * (dy - cy) * (dz - cz)
          /\ (dx - cx) * (dy - cy) * (dz - cz) <= (hx - lx) * (hy - ly) * (hz - lz))
    as [Pb Lb] by (apply prod3_mono; lra).
  repeat split; assumption.
Qed.

Lemma ratio_antitone (x m c : Q) :
  0 < x -> 0 < m -> m <= c -> 0 <= x / c /\ x / c <= x / m.
Proof.
  intros Px Pm L.
  assert (0 < c) as Pc by lra.
  split.
  - apply Qle_shift_div_l; trivial. lra.
  - apply Qle_shift_div_l; trivial.
    assert (x / c * m == x * (m / c)) as E by (field; lra).
    rewrite E.
    assert (m / c <= 1) as U by (apply Qle_shift_div_r; trivial; lra).
    assert (0 <= m / c) by (apply Qle_shift_div_l; trivial; lra).
    nra.
Qed.

Lemma Q_overlap_ratio_union_bounds (a b : basic_aabb Q) :
  0 <= Aabb.overlap_ratio_union a b /\
  Aabb.overlap_ratio_union a b <= Aabb.overlap_ratio_min a b /\
  Aabb.overlap_ratio_min a b <= 1.
Proof.
  pose proof (Q_overlap_ratio_min_unit a b) as [M0 M1].
  unfold Aabb.overlap_ratio_union.
  destruct (Aabb.empty (Aabb.intersect a b)) eqn:EI.
  - cbn. repeat split; trivial. lra.
  - assert (Aabb.empty a = false) as Ea.
    { destruct (Aabb.empty a) eqn:E; [|reflexivity].
      apply Q_empty_intersect_l with (b := b) in E. congruence. }
    assert (Aabb.empty b = false) as Eb.
    { destruct (Aabb.empty b) eqn:E; [|reflexivity].
      apply Q_empty_intersect_r with (a := a) in E. congruence. }
    destruct (Q_volume_intersect a b EI) as (P & _ & _).
    destruct (Q_volume_combine a b Ea Eb) as (La & Lb & Pa & Pb).
    unfold Aabb.overlap_ratio_min in *. rewrite Ea, Eb, EI in *. cbn [orb] in *.
    change (@div Q _) with Qdiv in *.
    destruct (Q_min_spec (Aabb.volume a) (Aabb.volume b)) as (_ & _ & [E|E]);
      rewrite E in *;
      [destruct (@ratio_antitone (Aabb.volume (Aabb.intersect a b))
                   (Aabb.volume a) (Aabb.volume (Aabb.combine a b))) as [R0 R1]
      |destruct (@ratio_antitone (Aabb.volume (Aabb.intersect a b))
                   (Aabb.volume b) (Aabb.volume (Aabb.combine a b))) as [R0 R1]];
      trivial; repeat split; trivial.
Qed.

Lemma Q_center_contained (b : basic_aabb Q) :
  Aabb.valid b = true -> Aabb.contains b (Aabb.center b) = true.
Proof.
  destruct_boxes.
  unfold Aabb.valid, Aabb.contains, Aabb.center, Vector3.scale, Vector3.plus, geb;
    cbn.
  intros V. split_and; Q_props; lra.
Qed.

(** Sizes of a valid box inside another one. *)
Lemma Q_sizes_contained (a b : basic_aabb Q) :
  Aabb.contains_box a b = true -> Aabb.valid b = true ->
  (0 <= Vector3.x (Aabb.size b) <= Vector3.x (Aabb.size a)) /\
  (0 <= Vector3.y (Aabb.size b) <= Vector3.y (Aabb.size a)) /\
  (0 <= Vector3.z (Aabb.size b) <= Vector3.z (Aabb.size a)).
Proof.
  destruct_boxes.
  unfold Aabb.contains_box, Aabb.contains, Aabb.valid, Aabb.size, geb; cbn.
  intros C V. split_and; Q_props; lra.
Qed.

Lemma Q_measures_monotone (a b : basic_aabb Q) :
  Aabb.contains_box a b = true -> Aabb.valid b = true ->
  (0 <= Aabb.volume b <= Aabb.volume a) /\
  (0 <= Aabb.half_surface_area b <= Aabb.half_surface_area a) /\
  (0 <= Aabb.surface_area b <= Aabb.surface_area a).
Proof.
  intros C V. destruct (Q_sizes_contained a b C V) as (Sx & Sy & Sz).
  unfold Aabb.volume, Aabb.surface_area, Aabb.half_surface_area.
  cbn [add mul two Q_Scalar].
  generalize dependent (Aabb.size a). generalize dependent (Aabb.size b).
  intros [sx sy sz] [tx ty tz]; cbn [Vector3.x Vector3.y Vector3.z].
  intros.
  assert (0 <= sx * sy) by nra. assert (sx * sy <= tx * ty) by nra.
  assert (0 <= sy * sz) by nra. assert (sy * sz <= ty * tz) by nra.
  assert (0 <= sz * sx) by nra. assert (sz * sx <= tz * tx) by nra.
  repeat split; try nra.
Qed.

Lemma Q_safe_surface_area_nonneg (b : basic_aabb Q) :
  0 <= Aabb.safe_half_surface_area b /\ 0 <= Aabb.safe_surface_area b.
Proof.
  unfold Aabb.safe_surface_area, Aabb.safe_half_surface_area, Aabb.safe_size.
  cbn [add mul two zero Q_Scalar Vector3.set Vector3.x Vector3.y Vector3.z].
  destruct (Q_max_spec 0 (Vector3.x (Vector3.minus (Aabb.max b) (Aabb.min b))))
    as (Sx & _).
  destruct (Q_max_spec 0 (Vector3.y (Vector3.minus (Aabb.max b) (Aabb.min b))))
    as (Sy & _).
  destruct (Q_max_spec 0 (Vector3.z (Vector3.minus (Aabb.max b) (Aabb.min b))))
    as (Sz & _).
  revert Sx Sy Sz.
  generalize (Math.max 0 (Vector3.x (Vector3.minus (Aabb.max b) (Aabb.min b)))).
  generalize (Math.max 0 (Vector3.y (Vector3.minus (Aabb.max b) (Aabb.min b)))).
  generalize (Math.max 0 (Vector3.z (Vector3.minus (Aabb.max b) (Aabb.min b)))).
  intros sz sy sx Sx Sy Sz.
  assert (0 <= sx * sy) by nra. assert (0 <= sy * sz) by nra.
  assert (0 <= sz * sx) by nra.
  split; nra.
Qed.
End ExactMeasures.

(** X14.  In exact arithmetic, for every pair of boxes,
    [0 <= overlap_ratio_union(a,b) <= overlap_ratio_min(a,b) <= 1]: the
    union metric is a fraction and never exceeds the min metric.  In
    binary32 the guard [I.empty()] does not exclude a volume that rounds to
    zero: for the cube of edge [2^-50] the union metric of the cube with
    itself is [0/0], a NaN. *)
Theorem overlap_ratio_union_bounds :
  (forall a b : basic_aabb Q,
      (0 <= Aabb.overlap_ratio_union a b)%Q /\
      (Aabb.overlap_ratio_union a b <= Aabb.overlap_ratio_min a b)%Q /\
      (Aabb.overlap_ratio_min a b <= 1)%Q) /\
  Aabb.empty Examples.box_tiny = false /\
  F32.is_nan (Aabb.overlap_ratio_union Examples.box_tiny Examples.box_tiny) = true.
Proof.
  split; [exact Q_overlap_ratio_union_bounds|].
  split; vm_compute; reflexivity.
Qed.

(** X15.  In exact arithmetic the [center()] of a valid box lies in the
    box.  In binary32 the sum [max + min] can overflow: the valid box whose
    two corners are the largest finite number has its center at [+inf],
    outside the box. *)
Theorem center_contained :
  (forall b : basic_aabb Q,
      Aabb.valid b = true -> Aabb.contains b (Aabb.center b) = true) /\
  (Aabb.valid Examples.box_largest = true /\
   box_is_finite Examples.box_largest = true /\
   Aabb.center Examples.box_largest = Vector3.broadcast F32.pos_inf /\
   Aabb.contains Examples.box_largest (Aabb.center Examples.box_largest) = false).
Proof.
  split; [exact Q_center_contained|].
  repeat split; vm_compute; reflexivity.
Qed.

Lemma center_contained_witness :
  Aabb.valid Examples.qbox_A = true /\
  Aabb.contains Examples.qbox_A (Aabb.center Examples.qbox_A) = true.
Proof.
  split; [reflexivity|].
  apply (proj1 center_contained). reflexivity.
Defined.

(** X16.  In exact arithmetic, volume and surface area are monotone under
    containment: for a valid box [b] contained in [a],
    [0 <= volume(b) <= volume(a)],
    [0 <= half_surface_area(b) <= half_surface_area(a)] and
    [0 <= surface_area(b) <= surface_area(a)]; and
    [safe_half_surface_area] and [safe_surface_area] are [>= 0] for every
    box, valid or not. *)
Theorem measures_monotone :
  (forall a b : basic_aabb Q,
      Aabb.contains_box a b = true -> Aabb.valid b = true ->
      (0 <= Aabb.volume b <= Aabb.volume a)%Q /\
      (0 <= Aabb.half_surface_area b <= Aabb.half_surface_area a)%Q /\
      (0 <= Aabb.surface_area b <= Aabb.surface_area a)%Q) /\
  (forall b : basic_aabb Q,
      (0 <= Aabb.safe_half_surface_area b)%Q /\
      (0 <= Aabb.safe_surface_area b)%Q).
Proof.
  split; [exact Q_measures_monotone|exact Q_safe_surface_area_nonneg].
Qed.

Lemma measures_monotone_witness :
  Aabb.contains_box (Aabb.combine Examples.qbox_A Examples.qbox_B)
    Examples.qbox_A = true /\
  Aabb.valid Examples.qbox_A = true /\
  (0 <= Aabb.volume Examples.qbox_A
   <= Aabb.volume (Aabb.combine Examples.qbox_A Examples.qbox_B))%Q /\
  (0 <= Aabb.half_surface_area Examples.qbox_A
   <= Aabb.half_surface_area (Aabb.combine Examples.qbox_A Examples.qbox_B))%Q /\
  (0 <= Aabb.surface_area Examples.qbox_A
   <= Aabb.surface_area (Aabb.combine Examples.qbox_A Examples.qbox_B))%Q.
Proof.
  split; [reflexivity|]. split; [reflexivity|].
  apply (proj1 measures_monotone); reflexivity.
Defined.

(* ================================================================== *)
(** * The two halves of a split                                        *)
(* ================================================================== *)

Section SplitHalves.
Context {T : Type} `{OrderLaws T}.


End SplitHalves.



(* ================================================================== *)
(** * Further properties of [simd::float4]                             *)
(* ================================================================== *)

Lemma lane_zip4 (f : F32.float -> F32.float -> F32.float) (u v : Simd.float4)
  (i : nat) :
  Simd.lane (Simd.zip4 f u v) i = f (Simd.lane u i) (Simd.lane v i).
Proof. destruct i as [|[|[|i]]]; reflexivity. Qed.

Lemma lane_map4 (f : F32.float -> F32.float) (v : Simd.float4) (i : nat) :
  Simd.lane (Simd.map4 f v) i = f (Simd.lane v i).
Proof. destruct i as [|[|[|i]]]; reflexivity. Qed.

Lemma lane_set1 (a : F32.float) (i : nat) :
  Simd.lane (Simd.mm_set1_ps a) i = a.
Proof. destruct i as [|[|[|i]]]; reflexivity. Qed.

Lemma bit_cmp4 (f : F32.float -> F32.float -> bool) (u v : Simd.float4)
  (i : nat) :
  Simd.bit (Simd.cmp4 f u v) i = f (Simd.lane u i) (Simd.lane v i).
Proof. destruct i as [|[|[|i]]]; reflexivity. Qed.

(** Two vectors with the same four lanes are the same vector. *)
Lemma float4_ext (u v : Simd.float4) :
  (forall i : nat, Simd.lane u i = Simd.lane v i) -> u = v.
Proof.
  destruct u as [a b c d], v as [a' b' c' d']. intros E.
  pose proof (E 0%nat) as E0. pose proof (E 1%nat) as E1.
  pose proof (E 2%nat) as E2. pose proof (E 3%nat) as E3.
  cbn in *. congruence.
Qed.

(** ** [saturate] *)

(** One lane of [saturate]. *)
Lemma saturate_lane (v : Simd.float4) (i : nat) :
  Simd.lane (Simd.saturate v) i
  = let t := if SFltb (Simd.lane v i) (F32.of_Z 1)
             then Simd.lane v i else F32.of_Z 1 in
    if SFltb t F32.pos_zero then F32.pos_zero else t.
Proof.
  unfold Simd.saturate, Simd.mm_max_ps, Simd.mm_min_ps, Simd.mm_setzero_ps.
  now rewrite !lane_zip4, !lane_set1.
Qed.

Lemma of_Z_1 : F32.of_Z 1 = S754_finite false 8388608 (-23).
Proof. vm_compute. reflexivity. Qed.

Lemma SFltb_SFleb_trans x y z :
  SFltb x y = true -> SFleb y z = true -> SFltb x z = true.
Proof. unfold SFltb, SFleb. float_cases; cmp_cases. Qed.

(** [x <= y] without [x < y] leaves [x == y]: the same float, unless both
    are zeros. *)
Lemma SFleb_not_SFltb x y :
  SFleb x y = true -> SFltb x y = false ->
  match y with
  | S754_zero _ => True
  | _ => x = y
  end.
Proof.
  unfold SFltb, SFleb.
  destruct x as [s|s| |s m e], y as [s'|s'| |s' m' e']; cbn [SFcompare];
    repeat match goal with s : bool |- _ => destruct s end;
    try discriminate; try reflexivity; try tauto;
    change (Pos.compare_cont Eq) with Pos.compare;
    destruct (Z.compare_spec e e'); cbn [CompOpp]; try discriminate;
    destruct (Pos.compare_spec m m'); cbn [CompOpp]; try discriminate;
    intros; subst; reflexivity.
Qed.

Lemma saturate_lane_unit (x : F32.float) :
  let t := if SFltb x (F32.of_Z 1) then x else F32.of_Z 1 in
  Simd.in_unit_interval (if SFltb t F32.pos_zero then F32.pos_zero else t) = true.
Proof.
  cbv zeta. unfold Simd.in_unit_interval. rewrite of_Z_1.
  destruct (SFltb x (S754_finite false 8388608 (-23))) eqn:L1.
  - destruct (SFltb x F32.pos_zero) eqn:L0; [reflexivity|].
    pose proof (SFltb_SFleb _ _ L1) as U.
    rewrite U, andb_true_r.
    apply SFleb_total; trivial.
    now apply SFleb_ordered_l with (S754_finite false 8388608 (-23)).
  - reflexivity.
Qed.

Lemma saturate_lane_fixed (x : F32.float) :
  Simd.in_unit_interval x = true ->
  (let t := if SFltb x (F32.of_Z 1) then x else F32.of_Z 1 in
   if SFltb t F32.pos_zero then F32.pos_zero else t) = x.
Proof.
  unfold Simd.in_unit_interval. rewrite of_Z_1. intros U.
  apply andb_true_iff in U. destruct U as [L0 L1]. cbv zeta.
  assert (SFltb x F32.pos_zero = false) as N0.
  { destruct (SFltb x F32.pos_zero) eqn:E; [|reflexivity].
    apply SFltb_not_SFleb in E. congruence. }
  destruct (SFltb x (S754_finite false 8388608 (-23))) eqn:E1.
  - now rewrite N0.
  - pose proof (SFleb_not_SFltb _ _ L1 E1) as E. cbv iota in E.
    rewrite <- E, N0. reflexivity.
Qed.

(** X17.  [saturate] clamps every lane into [[0,1]], whatever the input:
    each result lane [r] satisfies [0 <= r] and [r <= 1], so it is never a
    NaN; a NaN lane becomes 1, a lane below 0 becomes 0 and a lane above 1
    becomes 1; a lane already in [[0,1]] is returned unchanged; and
    [saturate] is idempotent. *)
Theorem saturate_clamps (v : Simd.float4) :
  (forall i : nat,
      Simd.in_unit_interval (Simd.lane (Simd.saturate v) i) = true) /\
  (forall i : nat,
      F32.is_nan (Simd.lane v i) = true ->
      Simd.lane (Simd.saturate v) i = F32.of_Z 1) /\
  (forall i : nat,
      SFltb (Simd.lane v i) F32.pos_zero = true ->
      Simd.lane (Simd.saturate v) i = F32.pos_zero) /\
  (forall i : nat,
      SFltb (F32.of_Z 1) (Simd.lane v i) = true ->
      Simd.lane (Simd.saturate v) i = F32.of_Z 1) /\
  (forall i : nat,
      Simd.in_unit_interval (Simd.lane v i) = true ->
      Simd.lane (Simd.saturate v) i = Simd.lane v i) /\
  Simd.saturate (Simd.saturate v) = Simd.saturate v.
Proof.
  repeat split.
  - intros i. rewrite saturate_lane. apply saturate_lane_unit.
  - intros i N. rewrite saturate_lane.
    destruct (Simd.lane v i); try discriminate. reflexivity.
  - intros i L. rewrite saturate_lane. cbv zeta.
    assert (SFltb (Simd.lane v i) (F32.of_Z 1) = true) as L1.
    { apply SFltb_SFleb_trans with F32.pos_zero; [exact L|].
      rewrite of_Z_1. reflexivity. }
    now rewrite L1, L.
  - intros i L. rewrite saturate_lane. cbv zeta.
    assert (SFltb (Simd.lane v i) (F32.of_Z 1) = false) as L1.
    { destruct (SFltb (Simd.lane v i) (F32.of_Z 1)) eqn:E; [|reflexivity].
      apply SFltb_SFleb in E. apply SFltb_not_SFleb in L. congruence. }
    rewrite L1. rewrite of_Z_1. reflexivity.
  - intros i U. rewrite saturate_lane. now apply saturate_lane_fixed.
  - apply float4_ext. intros i.
    rewrite saturate_lane with (v := Simd.saturate v).
    apply saturate_lane_fixed. rewrite saturate_lane. apply saturate_lane_unit.
Qed.

(** The lanes NaN, -2, 1/2 and 3 become 1, 0, 1/2 and 1. *)
Lemma saturate_clamps_witness :
  let v := Simd.make F32.nan (F32.of_Z (-2)) (F32.of_Z_pow2 1 (-1)) (F32.of_Z 3) in
  Simd.saturate v
  = Simd.make (F32.of_Z 1) F32.pos_zero (F32.of_Z_pow2 1 (-1)) (F32.of_Z 1) /\
  F32.is_nan (Simd.lane v 0) = true /\
  Simd.lane (Simd.saturate v) 0 = F32.of_Z 1 /\
  SFltb (Simd.lane v 1) F32.pos_zero = true /\
  Simd.lane (Simd.saturate v) 1 = F32.pos_zero /\
  Simd.in_unit_interval (Simd.lane v 2) = true /\
  Simd.lane (Simd.saturate v) 2 = Simd.lane v 2 /\
  SFltb (F32.of_Z 1) (Simd.lane v 3) = true /\
  Simd.lane (Simd.saturate v) 3 = F32.of_Z 1.
Proof.
  intros v.
  destruct (saturate_clamps v) as (_ & N & B & A & U & _).
  split; [vm_compute; reflexivity|].
  split; [reflexivity|]. split; [apply N; reflexivity|].
  split; [vm_compute; reflexivity|]. split; [apply B; vm_compute; reflexivity|].
  split; [vm_compute; reflexivity|]. split; [apply U; vm_compute; reflexivity|].
  split; [vm_compute; reflexivity|]. apply A; vm_compute; reflexivity.
Defined.

(** ** Unary [+] and [-] *)

(** X18.  Unary minus is [0 - v] and unary plus is [0 + v]: on every lane
    that is not a zero, [-v] is the exact negation (sign flipped, same
    magnitude; an infinity changes sign, a NaN stays a NaN) and [+v] is the
    lane itself; on a zero lane, of either sign, both return [+0]: [-v]
    does not produce [-0] from [+0], and [+v] turns [-0] into [+0]. *)
Theorem unary_minus_plus (v : Simd.float4) (i : nat) :
  Simd.lane (Simd.neg v) i
  = match Simd.lane v i with
    | S754_zero _ => F32.pos_zero
    | x => SFopp x
    end /\
  Simd.lane (Simd.pos v) i
  = match Simd.lane v i with
    | S754_zero _ => F32.pos_zero
    | x => x
    end.
Proof.
  unfold Simd.neg, Simd.pos, Simd.mm_sub_ps, Simd.mm_add_ps, Simd.mm_setzero_ps.
  rewrite !lane_zip4, !lane_set1.
  destruct (Simd.lane v i) as [[|]|[|]| |[|] m e]; split; reflexivity.
Qed.

(** ** Comparisons *)

Lemma compare_lanes (a b : F32.float) :
  negb (SFeqb a b) = negb (SFeqb a b) /\
  SFleb a b = SFltb a b || SFeqb a b /\
  (F32.is_nan a || F32.is_nan b = true ->
   SFltb a b = false /\ SFltb b a = false /\ SFleb a b = false /\
   SFleb b a = false /\ SFeqb a b = false) /\
  (F32.is_nan a || F32.is_nan b = false ->
   (SFltb a b = true /\ SFeqb a b = false /\ SFltb b a = false) \/
   (SFltb a b = false /\ SFeqb a b = true /\ SFltb b a = false) \/
   (SFltb a b = false /\ SFeqb a b = false /\ SFltb b a = true)).
Proof.
  split; [reflexivity|]. split; [|split].
  - unfold SFleb, SFltb, SFeqb. destruct (SFcompare a b) as [[| |]|]; reflexivity.
  - unfold SFleb, SFltb, SFeqb.
    destruct a as [s|s| |s m e], b as [s'|s'| |s' m' e']; cbn; intros N;
      try discriminate; repeat split; reflexivity.
  - unfold SFltb, SFeqb.
    destruct a as [s|s| |s m e], b as [s'|s'| |s' m' e']; intros N;
      try discriminate N; cbn [SFcompare];
      repeat match goal with s : bool |- _ => destruct s end;
      try (left; repeat split; reflexivity);
      try (right; left; repeat split; reflexivity);
      try (right; right; repeat split; reflexivity);
      change (Pos.compare_cont Eq) with Pos.compare;
      repeat match goal with
             | |- context [Z.compare ?x ?y] => destruct (Z.compare_spec x y)
             | |- context [Pos.compare ?x ?y] => destruct (Pos.compare_spec x y)
             end; cbn [CompOpp]; try lia;
      first [ left; repeat split; reflexivity
            | right; left; repeat split; reflexivity
            | right; right; repeat split; reflexivity ].
Qed.

(** X19.  The six comparison operators agree with one another on every
    lane: [!=] is the complement of [==], [>] and [>=] are [<] and [<=]
    with the operands exchanged, and [<=] is the union of [<] and [==].
    On a lane where an operand is a NaN only [!=] is set; on any other
    lane exactly one of [<], [==], [>] is set. *)
Theorem comparisons_consistent (u v : Simd.float4) (i : nat) :
  Simd.bit (Simd.neq u v) i = negb (Simd.bit (Simd.eq u v) i) /\
  Simd.bit (Simd.gt u v) i = Simd.bit (Simd.lt v u) i /\
  Simd.bit (Simd.ge u v) i = Simd.bit (Simd.le v u) i /\
  Simd.bit (Simd.le u v) i = Simd.bit (Simd.lt u v) i || Simd.bit (Simd.eq u v) i /\
  (F32.is_nan (Simd.lane u i) || F32.is_nan (Simd.lane v i) = true ->
   Simd.bit (Simd.lt u v) i = false /\ Simd.bit (Simd.gt u v) i = false /\
   Simd.bit (Simd.le u v) i = false /\ Simd.bit (Simd.ge u v) i = false /\
   Simd.bit (Simd.eq u v) i = false /\ Simd.bit (Simd.neq u v) i = true) /\
  (F32.is_nan (Simd.lane u i) || F32.is_nan (Simd.lane v i) = false ->
   (Simd.bit (Simd.lt u v) i = true /\ Simd.bit (Simd.eq u v) i = false
    /\ Simd.bit (Simd.gt u v) i = false) \/
   (Simd.bit (Simd.lt u v) i = false /\ Simd.bit (Simd.eq u v) i = true
    /\ Simd.bit (Simd.gt u v) i = false) \/
   (Simd.bit (Simd.lt u v) i = false /\ Simd.bit (Simd.eq u v) i = false
    /\ Simd.bit (Simd.gt u v) i = true)).
Proof.
  assert (Simd.bit (Simd.neq u v) i
          = negb (SFeqb (Simd.lane u i) (Simd.lane v i))) as Neq.
  { destruct u, v. destruct i as [|[|[|i]]]; reflexivity. }
  unfold Simd.eq, Simd.lt, Simd.gt, Simd.le, Simd.ge, Simd.mm_cmpeq_ps,
    Simd.mm_cmplt_ps, Simd.mm_cmpgt_ps, Simd.mm_cmple_ps, Simd.mm_cmpge_ps.
  rewrite Neq, !bit_cmp4.
  destruct (compare_lanes (Simd.lane u i) (Simd.lane v i)) as (_ & Le & Nan & Ord).
  split; [reflexivity|]. split; [reflexivity|]. split; [reflexivity|].
  split; [exact Le|]. split.
  - intros N. destruct (Nan N) as (A & B & C & D & E).
    rewrite A, B, C, D, E. repeat split.
  - exact Ord.
Qed.

Lemma comparisons_consistent_witness :
  let u := Simd.make F32.nan (F32.of_Z 1) (F32.of_Z 2) (F32.of_Z 3) in
  let v := Simd.broadcast (F32.of_Z 2) in
  (Simd.bit (Simd.lt u v) 0 = false /\ Simd.bit (Simd.gt u v) 0 = false /\
   Simd.bit (Simd.le u v) 0 = false /\ Simd.bit (Simd.ge u v) 0 = false /\
   Simd.bit (Simd.eq u v) 0 = false /\ Simd.bit (Simd.neq u v) 0 = true) /\
  ((Simd.bit (Simd.lt u v) 1 = true /\ Simd.bit (Simd.eq u v) 1 = false
    /\ Simd.bit (Simd.gt u v) 1 = false) \/
   (Simd.bit (Simd.lt u v) 1 = false /\ Simd.bit (Simd.eq u v) 1 = true
    /\ Simd.bit (Simd.gt u v) 1 = false) \/
   (Simd.bit (Simd.lt u v) 1 = false /\ Simd.bit (Simd.eq u v) 1 = false
    /\ Simd.bit (Simd.gt u v) 1 = true)).
Proof.
  intros u v. split.
  - apply (comparisons_consistent u v 0). reflexivity.
  - apply (comparisons_consistent u v 1). reflexivity.
Defined.

(** ** Lane order: constructors, [load], [store], [get] and the shuffles *)

(** X20.  With indices between 0 and 3, [shuffle<U0,U1,V2,V3>(u, v)]
    returns the lanes [u[U0]], [u[U1]], [v[V2]], [v[V3]], in that order,
    and [shuffle<V0,V1,V2,V3>(v)] returns [v[V0]], [v[V1]], [v[V2]],
    [v[V3]]: the template arguments are in lane order, although
    [_MM_SHUFFLE] takes them in reverse. *)
Theorem shuffle_picks_lanes (U0 U1 V2 V3 : Z) (u v : Simd.float4) :
  (0 <= U0 < 4)%Z -> (0 <= U1 < 4)%Z -> (0 <= V2 < 4)%Z -> (0 <= V3 < 4)%Z ->
  Simd.shuffle2 U0 U1 V2 V3 u v
  = Simd.mk_float4 (Simd.select_lane u U0) (Simd.select_lane u U1)
                   (Simd.select_lane v V2) (Simd.select_lane v V3) /\
  Simd.shuffle U0 U1 V2 V3 v
  = Simd.mk_float4 (Simd.select_lane v U0) (Simd.select_lane v U1)
                   (Simd.select_lane v V2) (Simd.select_lane v V3).
Proof.
  intros R0 R1 R2 R3.
  assert (U0 = 0 \/ U0 = 1 \/ U0 = 2 \/ U0 = 3)%Z as C0 by lia.
  assert (U1 = 0 \/ U1 = 1 \/ U1 = 2 \/ U1 = 3)%Z as C1 by lia.
  assert (V2 = 0 \/ V2 = 1 \/ V2 = 2 \/ V2 = 3)%Z as C2 by lia.
  assert (V3 = 0 \/ V3 = 1 \/ V3 = 2 \/ V3 = 3)%Z as C3 by lia.
  clear R0 R1 R2 R3.
  destruct C0 as [->|[->|[->| ->]]], C1 as [->|[->|[->| ->]]],
    C2 as [->|[->|[->| ->]]], C3 as [->|[->|[->| ->]]];
    split; reflexivity.
Qed.

Lemma shuffle_picks_lanes_witness :
  let u := Simd.make (F32.of_Z 10) (F32.of_Z 11) (F32.of_Z 12) (F32.of_Z 13) in
  let v := Simd.make (F32.of_Z 20) (F32.of_Z 21) (F32.of_Z 22) (F32.of_Z 23) in
  Simd.shuffle2 3 0 1 2 u v
  = Simd.mk_float4 (Simd.select_lane u 3) (Simd.select_lane u 0)
                   (Simd.select_lane v 1) (Simd.select_lane v 2) /\
  Simd.shuffle 3 0 1 2 v
  = Simd.mk_float4 (Simd.select_lane v 3) (Simd.select_lane v 0)
                   (Simd.select_lane v 1) (Simd.select_lane v 2).
Proof.
  intros u v. apply (@shuffle_picks_lanes 3%Z 0%Z 1%Z 2%Z u v); lia.
Defined.

(** X21.  Lane order of the other data movements.  [float4(x, y, z, w)]
    holds [x] in lane 0 and [w] in lane 3, so that [store] writes
    [x, y, z, w]; [load] and [store] are inverse to each other; [get<I>]
    reads lane [I] and is rejected for [I >= 4].  [move_lo(u, v)] is
    [shuffle<0,1,0,1>(u, v)] and [move_hi(u, v)] is [shuffle<2,3,2,3>(v, u)],
    with the operands exchanged.  [interleave_lo] and [interleave_hi] lose
    nothing: [shuffle<0,2,0,2>] of the two gives back [u] and
    [shuffle<1,3,1,3>] gives back [v]. *)
Theorem lane_order :
  (forall x y z w : F32.float,
      Simd.store (Simd.make x y z w) = [x; y; z; w] /\
      Simd.get 0 (Simd.make x y z w) = Some x /\
      Simd.get 1 (Simd.make x y z w) = Some y /\
      Simd.get 2 (Simd.make x y z w) = Some z /\
      Simd.get 3 (Simd.make x y z w) = Some w /\
      Simd.from_array [x; y; z; w] = Simd.make x y z w /\
      Simd.store (Simd.load [x; y; z; w]) = [x; y; z; w]) /\
  (forall (v : Simd.float4) (I : nat),
      Simd.load (Simd.store v) = v /\
      ((4 <= I)%nat -> Simd.get I v = None) /\
      ((I < 4)%nat -> Simd.get I v = Some (Simd.lane v I))) /\
  (forall (s : F32.float) (I : nat), Simd.lane (Simd.broadcast s) I = s) /\
  (forall u v : Simd.float4,
      Simd.move_lo u v = Simd.shuffle2 0 1 0 1 u v /\
      Simd.move_hi u v = Simd.shuffle2 2 3 2 3 v u /\
      Simd.shuffle2 0 2 0 2 (Simd.interleave_lo u v) (Simd.interleave_hi u v) = u /\
      Simd.shuffle2 1 3 1 3 (Simd.interleave_lo u v) (Simd.interleave_hi u v) = v /\
      Simd.shuffle 0 1 2 3 v = v).
Proof.
  split; [|split; [|split]].
  - intros x y z w. repeat split.
  - intros [a b c d] I. split; [reflexivity|]. split.
    + intros L. unfold Simd.get.
      destruct (Nat.ltb_spec I 4); [lia|reflexivity].
    + intros L. unfold Simd.get.
      destruct (Nat.ltb_spec I 4); [|lia].
      do 4 (destruct I as [|I]; [reflexivity|]). lia.
  - intros s I. apply lane_set1.
  - intros [a b c d] [a' b' c' d']. repeat split.
Qed.

Lemma lane_order_witness :
  (4 <= 7)%nat /\ Simd.get 7 Simd.mm_setzero_ps = None /\
  (2 < 4)%nat /\
  Simd.get 2 (Simd.make F32.nan F32.pos_inf F32.neg_inf F32.pos_zero)
  = Some F32.neg_inf.
Proof.
  destruct lane_order as (_ & G & _).
  split; [lia|]. split; [apply G; lia|].
  split; [lia|].
  apply (proj2 (proj2 (G (Simd.make F32.nan F32.pos_inf F32.neg_inf F32.pos_zero)
                         2%nat))).
  lia.
Defined.

(** ** [select] and [abs] *)

Lemma land_all_ones (w : Z) : Simd.is_word w = true -> Z.land 0xFFFFFFFF w = w.
Proof.
  unfold Simd.is_word. intros W. apply andb_true_iff in W. destruct W as [L U].
  apply Z.leb_le in L. apply Z.ltb_lt in U.
  rewrite Z.land_comm. change 0xFFFFFFFF%Z with (Z.ones 32).
  rewrite Z.land_ones by lia. apply Z.mod_small. lia.
Qed.

Lemma select_word (sse4_1 : bool) (m : bool) (a b : Z) :
  Simd.is_word a = true -> Simd.is_word b = true ->
  (if sse4_1
   then if Z.testbit (if m then 0xFFFFFFFF else 0) 31 then a else b
   else Z.lor (Z.land (if m then 0xFFFFFFFF else 0) a)
              (Z.land (Z.lxor (if m then 0xFFFFFFFF else 0) 0xFFFFFFFF) b))%Z
  = if m then a else b.
Proof.
  intros Wa Wb. destruct sse4_1, m; try reflexivity.
  - rewrite land_all_ones by assumption.
    change (Z.lxor 0xFFFFFFFF 0xFFFFFFFF) with 0%Z.
    rewrite Z.land_0_l. apply Z.lor_0_r.
  - change (Z.lxor 0 0xFFFFFFFF) with 0xFFFFFFFF%Z.
    rewrite land_all_ones by assumption.
    rewrite Z.land_0_l. apply Z.lor_0_l.
Qed.

(** X22.  [select(m, a, b)] with a mask as the comparisons produce it
    (every lane all ones or all zeros) returns, lane by lane, [a] where the
    mask is set and [b] where it is clear, and the two branches of the
    [#if] (the SSE4.1 blend and the and/andnot/or fallback) agree.  On a
    mask lane that is neither all ones nor all zeros the two branches
    differ: the blend looks at the sign bit only, the fallback merges
    bitwise. *)
Theorem select_picks_lanes :
  (forall (sse4_1 : bool) (m : Simd.mask4) (a b : Simd.m128),
      Simd.words_ok a = true -> Simd.words_ok b = true ->
      Simd.select sse4_1 (Simd.mask_bits m) a b = Simd.pick m a b) /\
  (Simd.words_ok (Simd.mm_set1_epi32 0x80000000) = true /\
   Simd.select true (Simd.mm_set1_epi32 0x80000000)
     (Simd.mm_set1_epi32 0x3F800000) (Simd.mm_set1_epi32 0x40000000)
   = Simd.mm_set1_epi32 0x3F800000 /\
   Simd.select false (Simd.mm_set1_epi32 0x80000000)
     (Simd.mm_set1_epi32 0x3F800000) (Simd.mm_set1_epi32 0x40000000)
   = Simd.mm_set1_epi32 0x40000000).
Proof.
  split.
  - intros sse4_1 [m0 m1 m2 m3] [a0 a1 a2 a3] [b0 b1 b2 b3].
    unfold Simd.words_ok; cbn [Simd.word0 Simd.word1 Simd.word2 Simd.word3].
    intros Wa Wb.
    apply andb_true_iff in Wa. destruct Wa as [Wa Wa3].
    apply andb_true_iff in Wa. destruct Wa as [Wa Wa2].
    apply andb_true_iff in Wa. destruct Wa as [Wa0 Wa1].
    apply andb_true_iff in Wb. destruct Wb as [Wb Wb3].
    apply andb_true_iff in Wb. destruct Wb as [Wb Wb2].
    apply andb_true_iff in Wb. destruct Wb as [Wb0 Wb1].
    pose proof (select_word sse4_1 m0 a0 b0) as E0.
    pose proof (select_word sse4_1 m1 a1 b1) as E1.
    pose proof (select_word sse4_1 m2 a2 b2) as E2.
    pose proof (select_word sse4_1 m3 a3 b3) as E3.
    unfold Simd.pick; cbn [Simd.bit0 Simd.bit1 Simd.bit2 Simd.bit3
      Simd.word0 Simd.word1 Simd.word2 Simd.word3].
    rewrite <- E0, <- E1, <- E2, <- E3 by assumption.
    destruct sse4_1; reflexivity.
  - repeat split; vm_compute; reflexivity.
Qed.

Lemma select_picks_lanes_witness :
  let m := Simd.mk_mask4 true false false true in
  let a := Simd.mk_m128 1 2 3 4 in
  let b := Simd.mk_m128 5 6 7 8 in
  Simd.words_ok a = true /\ Simd.words_ok b = true /\
  Simd.select true (Simd.mask_bits m) a b = Simd.mk_m128 1 6 7 4 /\
  Simd.select false (Simd.mask_bits m) a b = Simd.mk_m128 1 6 7 4.
Proof.
  intros m a b.
  split; [reflexivity|]. split; [reflexivity|]. split.
  - apply (proj1 select_picks_lanes true m a b); reflexivity.
  - apply (proj1 select_picks_lanes false m a b); reflexivity.
Defined.

Lemma land_low_31 (w : Z) :
  Simd.is_word w = true ->
  Z.land w 0x7FFFFFFF = (w mod 2 ^ 31)%Z /\
  Simd.is_word (Z.land w 0x7FFFFFFF) = true /\
  Z.testbit (Z.land w 0x7FFFFFFF) 31 = false /\
  Z.land (Z.land w 0x7FFFFFFF) 0x7FFFFFFF = Z.land w 0x7FFFFFFF.
Proof.
  unfold Simd.is_word. intros W. apply andb_true_iff in W. destruct W as [L U].
  apply Z.leb_le in L. apply Z.ltb_lt in U.
  change 0x7FFFFFFF%Z with (Z.ones 31). rewrite !Z.land_ones by lia.
  pose proof (Z.mod_pos_bound w (2 ^ 31) ltac:(lia)) as B.
  split; [reflexivity|]. split; [|split].
  - apply andb_true_iff. split; [apply Z.leb_le|apply Z.ltb_lt]; lia.
  - rewrite Z.mod_pow2_bits_high by lia. reflexivity.
  - apply Z.mod_mod. lia.
Qed.

Lemma bits_of_abs (x : F32.float) :
  F32.well_formed x = true ->
  Z.land (F32.bits x) 0x7FFFFFFF = F32.bits (SFabs x).
Proof.
  intros W. rewrite clear_sign_bit by assumption.
  destruct x as [s|s| |s m e]; reflexivity.
Qed.

(** X23.  [abs] clears the sign bit of every lane and leaves the other 31
    bits as they are: each result lane is the input lane modulo [2^31], and
    [abs] is idempotent.  On the bit patterns of four floats it returns the
    patterns of their absolute values: [-0.0] becomes [+0.0], [-inf]
    becomes [+inf], a finite number keeps its magnitude. *)
Theorem abs_clears_sign_bit :
  (forall u : Simd.m128,
      Simd.words_ok u = true ->
      Simd.abs u = Simd.mk_m128 (Simd.word0 u mod 2 ^ 31) (Simd.word1 u mod 2 ^ 31)
                                (Simd.word2 u mod 2 ^ 31) (Simd.word3 u mod 2 ^ 31)
      /\ Simd.words_ok (Simd.abs u) = true
      /\ Simd.abs (Simd.abs u) = Simd.abs u) /\
  (forall v : Simd.float4,
      Simd.well_formed v = true ->
      Simd.abs (Simd.bits_of v) = Simd.bits_of (Simd.map4 SFabs v)).
Proof.
  split.
  - intros [a b c d]. unfold Simd.words_ok;
      cbn [Simd.word0 Simd.word1 Simd.word2 Simd.word3].
    intros W.
    apply andb_true_iff in W. destruct W as [W Wd].
    apply andb_true_iff in W. destruct W as [W Wc].
    apply andb_true_iff in W. destruct W as [Wa Wb].
    destruct (land_low_31 a) as (A1 & A2 & _ & A4); trivial.
    destruct (land_low_31 b) as (B1 & B2 & _ & B4); trivial.
    destruct (land_low_31 c) as (C1 & C2 & _ & C4); trivial.
    destruct (land_low_31 d) as (D1 & D2 & _ & D4); trivial.
    unfold Simd.abs, Simd.mm_and_ps, Simd.zip_words, Simd.mm_set1_epi32,
      Simd.words_ok; cbn [Simd.word0 Simd.word1 Simd.word2 Simd.word3].
    rewrite A4, B4, C4, D4, A2, B2, C2, D2, A1, B1, C1, D1.
    repeat split.
  - intros [a b c d]. unfold Simd.well_formed;
      cbn [Simd.lane0 Simd.lane1 Simd.lane2 Simd.lane3].
    intros W.
    apply andb_true_iff in W. destruct W as [W Wd].
    apply andb_true_iff in W. destruct W as [W Wc].
    apply andb_true_iff in W. destruct W as [Wa Wb].
    unfold Simd.abs, Simd.mm_and_ps, Simd.zip_words, Simd.mm_set1_epi32,
      Simd.bits_of, Simd.map4;
      cbn [Simd.word0 Simd.word1 Simd.word2 Simd.word3
           Simd.lane0 Simd.lane1 Simd.lane2 Simd.lane3].
    now rewrite !bits_of_abs.
Qed.

Lemma abs_clears_sign_bit_witness :
  let v := Simd.make (F32.of_Z (-3)) (S754_zero true) F32.neg_inf (F32.of_Z 5) in
  Simd.well_formed v = true /\
  Simd.bits_of v = Simd.mk_m128 0xC0400000 0x80000000 0xFF800000 0x40A00000 /\
  Simd.abs (Simd.bits_of v)
  = Simd.bits_of (Simd.make (F32.of_Z 3) F32.pos_zero F32.pos_inf (F32.of_Z 5)) /\
  Simd.words_ok (Simd.bits_of v) = true /\
  Simd.abs (Simd.abs (Simd.bits_of v)) = Simd.abs (Simd.bits_of v).
Proof.
  intros v.
  assert (Simd.well_formed v = true) as W by (vm_compute; reflexivity).
  assert (Simd.words_ok (Simd.bits_of v) = true) as K by (vm_compute; reflexivity).
  split; [exact W|]. split; [vm_compute; reflexivity|]. split.
  - rewrite (proj2 abs_clears_sign_bit v W). vm_compute. reflexivity.
  - split; [exact K|].
    apply (proj1 abs_clears_sign_bit (Simd.bits_of v) K).
Defined.

(** ** [ceil] and [floor] without SSE4.1 *)

Lemma ceil_sse2_lane (v : Simd.float4) (i : nat) :
  Simd.lane (Simd.ceil_sse2 v) i
  = let c := F32.of_Z (Simd.cvtt_lane (Simd.lane v i)) in
    F32.fsub c (F32.of_Z (if SFltb c (Simd.lane v i) then -1 else 0)).
Proof. destruct v as [a b c d]. destruct i as [|[|[|i]]]; reflexivity. Qed.

Lemma floor_sse2_lane (v : Simd.float4) (i : nat) :
  Simd.lane (Simd.floor_sse2 v) i
  = let c := F32.of_Z (Simd.cvtt_lane (Simd.lane v i)) in
    F32.fadd c (F32.of_Z (if SFltb (Simd.lane v i) c then -1 else 0)).
Proof. destruct v as [a b c d]. destruct i as [|[|[|i]]]; reflexivity. Qed.

Lemma cvtt_out_of_range (x : F32.float) :
  Simd.out_of_int32 x = true -> Simd.cvtt_lane x = (- 2 ^ 31)%Z.
Proof.
  unfold Simd.out_of_int32, Simd.cvtt_lane.
  destruct (Simd.truncate x) as [n|]; [|reflexivity].
  destruct (Simd.fits_int32 n); [discriminate|reflexivity].
Qed.

Lemma indefinite_minus :
  F32.fsub (F32.of_Z (- 2 ^ 31)) (F32.of_Z (-1)) = F32.of_Z (- 2 ^ 31) /\
  F32.fsub (F32.of_Z (- 2 ^ 31)) (F32.of_Z 0) = F32.of_Z (- 2 ^ 31) /\
  F32.fadd (F32.of_Z (- 2 ^ 31)) (F32.of_Z (-1)) = F32.of_Z (- 2 ^ 31) /\
  F32.fadd (F32.of_Z (- 2 ^ 31)) (F32.of_Z 0) = F32.of_Z (- 2 ^ 31).
Proof. repeat split; vm_compute; reflexivity. Qed.

(** X24.  Without SSE4.1, [ceil] and [floor] go through a conversion to
    32-bit integers.  On a lane that the conversion cannot represent (a
    NaN, an infinity, or a number whose integer part is outside
    [[-2^31, 2^31)]) both return [-2147483648.0], whatever the lane held. *)
Theorem ceil_floor_out_of_range (v : Simd.float4) (i : nat) :
  Simd.out_of_int32 (Simd.lane v i) = true ->
  Simd.lane (Simd.ceil_sse2 v) i = F32.of_Z (- 2 ^ 31) /\
  Simd.lane (Simd.floor_sse2 v) i = F32.of_Z (- 2 ^ 31).
Proof.
  intros O. rewrite ceil_sse2_lane, floor_sse2_lane. cbv zeta.
  rewrite (cvtt_out_of_range _ O).
  destruct indefinite_minus as (A & B & C & D).
  split.
  - destruct (SFltb _ _); assumption.
  - destruct (SFltb _ _); assumption.
Qed.

(** The lanes NaN, [+inf], [10^10] and [-2^40] all give [-2^31]. *)
Lemma ceil_floor_out_of_range_witness :
  let v := Simd.make F32.nan F32.pos_inf (F32.of_Z 10000000000)
                     (F32.of_Z (- 2 ^ 40)) in
  Simd.ceil_sse2 v = Simd.broadcast (F32.of_Z (- 2 ^ 31)) /\
  Simd.floor_sse2 v = Simd.broadcast (F32.of_Z (- 2 ^ 31)) /\
  Simd.out_of_int32 (Simd.lane v 2) = true /\
  Simd.lane (Simd.ceil_sse2 v) 2 = F32.of_Z (- 2 ^ 31) /\
  Simd.lane (Simd.floor_sse2 v) 2 = F32.of_Z (- 2 ^ 31).
Proof.
  intros v.
  split; [vm_compute; reflexivity|]. split; [vm_compute; reflexivity|].
  assert (Simd.out_of_int32 (Simd.lane v 2) = true) as O
      by (vm_compute; reflexivity).
  split; [exact O|]. exact (ceil_floor_out_of_range v 2 O).
Defined.


(* ================================================================== *)
(** * Further properties of [area]                                     *)
(* ================================================================== *)

Lemma not_negative_SFltb (x : F32.float) :
  not_negative x -> SFltb x F32.pos_zero = false.
Proof.
  destruct x as [s|s| |s m e]; cbn; intros N; subst; reflexivity.
Qed.

Lemma round_aux_not_negative (mx ex : Z) (lx : location) :
  (0 <= mx)%Z ->
  not_negative (binary_round_aux F32.prec F32.emax false mx ex lx).
Proof.
  intros L. pose proof (@binary_round_aux_sign false mx ex lx L) as S.
  destruct (binary_round_aux F32.prec F32.emax false mx ex lx);
    cbn; trivial.
Qed.

Lemma sqrt_core_nonneg (m : positive) (e : Z) :
  (0 <= fst (fst (SFsqrt_core_binary F32.prec F32.emax (Zpos m) e)))%Z.
Proof.
  unfold SFsqrt_core_binary.
  set (s := (e - 2 * _)%Z).
  set (m' := match s with Z0 => Zpos m | Zpos _ => Z.shiftl (Zpos m) s | Zneg _ => 0%Z end).
  assert (0 <= m')%Z as P.
  { subst m'. destruct s; try lia. apply Z.shiftl_nonneg. lia. }
  pose proof (Z.sqrtrem_spec m' P) as S.
  destruct (Z.sqrtrem m') as [q r]. cbn [fst]. lia.
Qed.

Lemma fsqrt_not_negative (x : F32.float) : not_negative (F32.fsqrt x).
Proof.
  unfold F32.fsqrt, SFsqrt.
  destruct x as [s|[|]| |[|] m e]; cbn [not_negative]; trivial.
  pose proof (sqrt_core_nonneg m e) as P.
  destruct (SFsqrt_core_binary F32.prec F32.emax (Zpos m) e) as [[mz ez] lz].
  cbn [fst] in P. now apply round_aux_not_negative.
Qed.

Lemma half_value : (half : F32.float) = S754_finite false 8388608 (-24).
Proof. vm_compute. reflexivity. Qed.

Lemma fmul_half_not_negative (x : F32.float) :
  not_negative x -> not_negative (F32.fmul half x).
Proof.
  rewrite half_value. unfold F32.fmul, SFmul.
  destruct x as [s|s| |s m e]; cbn [not_negative xorb]; trivial.
  intros ->. cbn [xorb]. apply round_aux_not_negative. lia.
Qed.

(** X26.  In binary32, [area] is never negative, whatever the triangle:
    [area < 0] is false, and the area is a NaN or a value with
    [0 <= area].  The factor [0.5] is positive and the length is a square
    root, which IEEE arithmetic never returns with a negative value. *)
Theorem area_not_negative (t : basic_triangle F32.float) :
  SFltb (Triangle.area t) zero = false /\
  (F32.is_nan (Triangle.area t) = true \/ SFleb zero (Triangle.area t) = true).
Proof.
  assert (not_negative (Triangle.area t)) as N.
  { unfold Triangle.area, Vector3.length.
    apply fmul_half_not_negative. apply fsqrt_not_negative. }
  split; [now apply not_negative_SFltb|].
  destruct (Triangle.area t) as [s|s| |s m e]; cbn in N; subst; auto;
    right; reflexivity.
Qed.

(* ================================================================== *)
(** * Rounding of exactly representable values                         *)
(* ================================================================== *)

Unset Implicit Arguments.

Lemma iter_pos_nat {A : Type} (f : A -> A) (p : positive) (x : A) :
  iter_pos f p x = Nat.iter (Pos.to_nat p) f x.
Proof.
  revert x. induction p as [p IH|p IH|]; intros x; cbn [iter_pos].
  - rewrite !IH, Pos2Nat.inj_xI.
    replace (S (2 * Pos.to_nat p)) with (Pos.to_nat p + Pos.to_nat p + 1)%nat by lia.
    rewrite !Nat.iter_add. reflexivity.
  - rewrite !IH, Pos2Nat.inj_xO.
    replace (2 * Pos.to_nat p)%nat with (Pos.to_nat p + Pos.to_nat p)%nat by lia.
    rewrite Nat.iter_add. reflexivity.
  - reflexivity.
Qed.

(** One shift of a non-negative mantissa: the quotient by 2, the bit
    shifted out, and the sticky bit. *)
Lemma shr_1_spec (m : Z) (r s : bool) :
  (0 <= m)%Z ->
  shr_1 {| shr_m := m; shr_r := r; shr_s := s |}
  = {| shr_m := m / 2; shr_r := Z.odd m; shr_s := r || s |}.
Proof.
  intros L. rewrite <- Z.div2_div.
  destruct m as [|[p|p|]|]; try lia; reflexivity.
Qed.

Lemma mod_pow2_succ (m : Z) (j : Z) :
  (0 <= j)%Z ->
  (m mod 2 ^ (j + 1) = m mod 2 ^ j + 2 ^ j * (if Z.testbit m j then 1 else 0))%Z.
Proof.
  intros L. rewrite Z.pow_add_r by lia. change (2 ^ 1)%Z with 2%Z.
  rewrite Z.rem_mul_r by lia.
  rewrite Z.testbit_odd, Z.shiftr_div_pow2 by lia.
  rewrite Zmod_odd. reflexivity.
Qed.

(** [j + 1] shifts of a non-negative mantissa that starts exact. *)
Lemma shr_iter_spec (m : Z) (j : nat) :
  (0 <= m)%Z ->
  Nat.iter (S j) shr_1 {| shr_m := m; shr_r := false; shr_s := false |}
  = {| shr_m := m / 2 ^ (Z.of_nat j + 1);
       shr_r := Z.testbit m (Z.of_nat j);
       shr_s := negb (m mod 2 ^ Z.of_nat j =? 0)%Z |}.
Proof.
  intros L. induction j as [|j IH].
  - cbn [Nat.iter]. rewrite shr_1_spec by assumption.
    change (Z.of_nat 0) with 0%Z. rewrite Z.bit0_odd.
    change (2 ^ (0 + 1))%Z with 2%Z. change (2 ^ 0)%Z with 1%Z.
    rewrite Z.mod_1_r. reflexivity.
  - change (Nat.iter (S (S j)) shr_1 ?x) with (shr_1 (Nat.iter (S j) shr_1 x)).
    rewrite IH. rewrite shr_1_spec
      by (apply Z.div_pos; [assumption|apply Z.pow_pos_nonneg; lia]).
    rewrite Nat2Z.inj_succ. unfold Z.succ.
    f_equal.
    + rewrite Z.div_div by (try apply Z.pow_pos_nonneg; lia).
      rewrite <- (Z.pow_add_r 2 _ 1) by lia. reflexivity.
    + rewrite Z.testbit_odd, Z.shiftr_div_pow2 by lia. reflexivity.
    + rewrite (mod_pow2_succ m (Z.of_nat j)) by lia.
      pose proof (Z.mod_pos_bound m (2 ^ Z.of_nat j)
                    ltac:(apply Z.pow_pos_nonneg; lia)) as B.
      assert (0 < 2 ^ Z.of_nat j)%Z as P by (apply Z.pow_pos_nonneg; lia).
      destruct (Z.testbit m (Z.of_nat j)).
      * cbn [orb]. symmetry. apply negb_true_iff. apply Z.eqb_neq. lia.
      * cbn [orb]. rewrite Z.mul_0_r, Z.add_0_r. reflexivity.
Qed.

(** Shifting out bits that are all zero is exact. *)
Lemma shr_exact (m e : Z) (p : positive) :
  (0 <= m)%Z -> (m mod 2 ^ Zpos p = 0)%Z ->
  shr {| shr_m := m; shr_r := false; shr_s := false |} e (Zpos p)
  = ({| shr_m := m / 2 ^ Zpos p; shr_r := false; shr_s := false |},
     (e + Zpos p)%Z).
Proof.
  intros L D. unfold shr. rewrite iter_pos_nat.
  destruct (Pos2Nat.is_succ p) as [j Ej]. rewrite Ej.
  rewrite shr_iter_spec by assumption.
  assert (Zpos p = Z.of_nat j + 1)%Z as Ep by lia.
  rewrite <- Ep.
  assert (0 < 2 ^ Z.of_nat j)%Z as P by (apply Z.pow_pos_nonneg; lia).
  pose proof (mod_pow2_succ m (Z.of_nat j) ltac:(lia)) as S.
  rewrite <- Ep, D in S.
  pose proof (Z.mod_pos_bound m (2 ^ Z.of_nat j) P) as B.
  destruct (Z.testbit m (Z.of_nat j)).
  - lia.
  - assert (m mod 2 ^ Z.of_nat j = 0)%Z as Z0 by lia.
    rewrite Z0. reflexivity.
Qed.

(** A canonical mantissa is left as it is. *)
Lemma binary_round_aux_canonical (s : bool) (m : positive) (e : Z) :
  bounded F32.prec F32.emax m e = true ->
  binary_round_aux F32.prec F32.emax s (Zpos m) e loc_Exact = S754_finite s m e.
Proof.
  intros B. unfold bounded, canonical_mantissa in B.
  apply andb_true_iff in B. destruct B as [C U]. apply Z.eqb_eq in C.
  unfold binary_round_aux, shr_fexp.
  cbn [Zdigits2 shr_record_of_loc]. rewrite C, Z.sub_diag.
  cbn [shr shr_m loc_of_shr_record round_nearest_even Zdigits2 shr_record_of_loc].
  rewrite C, Z.sub_diag. cbn [shr shr_m]. now rewrite U.
Qed.

(** The number of digits of a product by a power of two. *)
Lemma digits_shift (m m' : positive) (j : Z) :
  (0 <= j)%Z -> (Zpos m' = Zpos m * 2 ^ j)%Z ->
  (Zpos (digits2_pos m') = Zpos (digits2_pos m) + j)%Z.
Proof.
  intros L E.
  pose proof (digits2_pos_bounds m) as [L1 U1].
  pose proof (digits2_pos_bounds m') as [L2 U2].
  rewrite E in L2, U2.
  assert (0 < 2 ^ j)%Z as P by (apply Z.pow_pos_nonneg; lia).
  assert (2 ^ (Zpos (digits2_pos m) - 1 + j) < 2 ^ Zpos (digits2_pos m'))%Z as A.
  { rewrite Z.pow_add_r by lia. nia. }
  assert (2 ^ (Zpos (digits2_pos m') - 1) < 2 ^ (Zpos (digits2_pos m) + j))%Z as B.
  { rewrite (Z.pow_add_r 2 (Zpos (digits2_pos m))) by lia. nia. }
  apply Z.pow_lt_mono_r_iff in A; [|lia|lia].
  apply Z.pow_lt_mono_r_iff in B; [|lia|lia].
  lia.
Qed.

(** Rounding is the identity on the values that binary32 represents:
    [M * 2^e], equal to the canonical [m' * 2^e'], rounds to [(m', e')]. *)
Lemma binary_round_value (s : bool) (M m' : positive) (e e' : Z) :
  bounded F32.prec F32.emax m' e' = true ->
  (e' <= e /\ Zpos m' = Zpos M * 2 ^ (e - e')
   \/ e < e' /\ Zpos M = Zpos m' * 2 ^ (e' - e))%Z ->
  binary_round F32.prec F32.emax s M e = S754_finite s m' e'.
Proof.
  intros B V.
  assert (fexp F32.prec F32.emax (Zpos (digits2_pos M) + e) = e') as F.
  { pose proof B as B'. unfold bounded, canonical_mantissa in B'.
    apply andb_true_iff in B'. destruct B' as [C _]. apply Z.eqb_eq in C.
    transitivity (fexp F32.prec F32.emax (Zpos (digits2_pos m') + e'));
      [|exact C].
    f_equal.
    destruct V as [[L E]|[L E]].
    - rewrite (digits_shift M m' (e - e')) by (trivial; lia). lia.
    - rewrite (digits_shift m' M (e' - e)) by (trivial; lia). lia. }
  unfold binary_round. rewrite F.
  destruct V as [[L E]|[L E]].
  - pose proof (@shl_align_value M e e' L) as A.
    destruct (shl_align M e e') as [mz ez] eqn:S. cbn [fst] in A.
    assert (ez = e') as ->.
    { revert S. unfold shl_align. destruct (e' - e)%Z eqn:D; intros S;
        inversion S; lia. }
    assert (mz = m') as -> by lia.
    now apply binary_round_aux_canonical.
  - assert (shl_align M e e' = (M, e)) as ->.
    { unfold shl_align. destruct (e' - e)%Z eqn:D; try reflexivity; lia. }
    unfold binary_round_aux, shr_fexp. cbn [Zdigits2 shr_record_of_loc].
    rewrite F.
    destruct (e' - e)%Z as [|p|p] eqn:D; try lia.
    assert (0 < 2 ^ Zpos p)%Z as P by (apply Z.pow_pos_nonneg; lia).
    rewrite shr_exact; [|lia|rewrite E; apply Z.mod_mul; lia].
    rewrite E, Z.div_mul by lia.
    cbn [shr_m loc_of_shr_record round_nearest_even].
    replace (e + Zpos p)%Z with e' by lia.
    pose proof (binary_round_aux_canonical s m' e' B) as R.
    unfold binary_round_aux, shr_fexp in R.
    cbn [Zdigits2 shr_record_of_loc shr_m loc_of_shr_record round_nearest_even] in R.
    revert R.
    destruct (shr {| shr_m := Zpos m'; shr_r := false; shr_s := false |} e'
                  (fexp F32.prec F32.emax (Zpos (digits2_pos m') + e') - e'))
      as [mrs1 e1] eqn:S1.
    intros R.
    assert (mrs1 = {| shr_m := Zpos m'; shr_r := false; shr_s := false |}
            /\ e1 = e') as [-> ->].
    { pose proof B as B'. unfold bounded, canonical_mantissa in B'.
      apply andb_true_iff in B'. destruct B' as [C _]. apply Z.eqb_eq in C.
      rewrite C, Z.sub_diag in S1. cbn [shr] in S1. now inversion S1. }
    cbn [shr_m loc_of_shr_record round_nearest_even] in R. exact R.
Qed.

(** The same for [binary_normalize], on a signed mantissa. *)
Lemma binary_normalize_value (s : bool) (M m' : positive) (e e' : Z) :
  bounded F32.prec F32.emax m' e' = true ->
  (e' <= e /\ Zpos m' = Zpos M * 2 ^ (e - e')
   \/ e < e' /\ Zpos M = Zpos m' * 2 ^ (e' - e))%Z ->
  binary_normalize F32.prec F32.emax (cond_Zopp s (Zpos M)) e false
  = S754_finite s m' e'.
Proof.
  intros B V. destruct s; cbn [cond_Zopp Z.opp binary_normalize];
    now apply binary_round_value.
Qed.

(* ================================================================== *)
(** * [ceil] and [floor] without SSE4.1, on the lanes that fit         *)
(* ================================================================== *)

Lemma of_Z_0 : F32.of_Z 0 = S754_zero false.
Proof. reflexivity. Qed.

Lemma of_Z_m1 : F32.of_Z (-1) = S754_finite true 8388608 (-23).
Proof. vm_compute. reflexivity. Qed.

(** The float of an integer that binary32 represents. *)
Lemma of_Z_value (s : bool) (p m : positive) (e : Z) :
  bounded F32.prec F32.emax m e = true ->
  (e <= 0 /\ Zpos m = Zpos p * 2 ^ (- e)
   \/ 0 < e /\ Zpos p = Zpos m * 2 ^ e)%Z ->
  F32.of_Z (cond_Zopp s (Zpos p)) = S754_finite s m e.
Proof.
  intros B V. unfold F32.of_Z, F32.of_Z_pow2.
  apply binary_normalize_value; trivial.
  destruct V as [[L E]|[L E]]; [left|right]; (split; [lia|]);
    rewrite E; f_equal; f_equal; lia.
Qed.

Lemma digits_unique (p : positive) (d : Z) :
  (2 ^ (d - 1) <= Zpos p < 2 ^ d)%Z -> (0 < d)%Z -> Zpos (digits2_pos p) = d.
Proof.
  intros [L U] P.
  pose proof (digits2_pos_bounds p) as [L' U'].
  assert (2 ^ (d - 1) < 2 ^ Zpos (digits2_pos p))%Z as A by lia.
  assert (2 ^ (Zpos (digits2_pos p) - 1) < 2 ^ d)%Z as B by lia.
  apply Z.pow_lt_mono_r_iff in A; [|lia|lia].
  apply Z.pow_lt_mono_r_iff in B; [|lia|lia].
  lia.
Qed.

(** A mantissa of 24 bits is canonical at every exponent of the normal
    range. *)
Lemma bounded_24 (m : positive) (e : Z) :
  (2 ^ 23 <= Zpos m < 2 ^ 24)%Z -> (-149 <= e <= 104)%Z ->
  bounded F32.prec F32.emax m e = true.
Proof.
  intros R E. unfold bounded, canonical_mantissa, fexp, emin, F32.prec, F32.emax.
  rewrite (digits_unique m 24) by (trivial; lia).
  apply andb_true_iff. split; [apply Z.eqb_eq|apply Z.leb_le]; lia.
Qed.

(** Every integer [0 < n <= 2^24] has a canonical form with an exponent
    between -23 and 0. *)
Lemma int_canonical (n : positive) :
  (Zpos n < 2 ^ 24)%Z ->
  exists (m : positive) (e : Z),
    bounded F32.prec F32.emax m e = true /\ (-23 <= e <= 0)%Z /\
    (Zpos m = Zpos n * 2 ^ (- e))%Z.
Proof.
  intros U.
  pose proof (digits2_pos_bounds n) as [L' U'].
  set (d := Zpos (digits2_pos n)) in *.
  assert (0 < d)%Z as Pd by (subst d; lia).
  assert (d <= 24)%Z as Dd.
  { assert (2 ^ (d - 1) < 2 ^ 24)%Z as A by lia.
    apply Z.pow_lt_mono_r_iff in A; lia. }
  assert (0 < 2 ^ (24 - d))%Z as P by (apply Z.pow_pos_nonneg; lia).
  destruct (Zpos n * 2 ^ (24 - d))%Z as [|m|m] eqn:E; try lia.
  exists m, (d - 24)%Z.
  assert (2 ^ 23 <= Zpos m < 2 ^ 24)%Z as R.
  { rewrite <- E.
    assert (2 ^ 23 = 2 ^ (d - 1) * 2 ^ (24 - d))%Z as E23
        by (rewrite <- Z.pow_add_r by lia; f_equal; lia).
    assert (2 ^ 24 = 2 ^ d * 2 ^ (24 - d))%Z as E24
        by (rewrite <- Z.pow_add_r by lia; f_equal; lia).
    rewrite E23, E24.
    revert L' U' P. generalize (2 ^ (d - 1))%Z (2 ^ d)%Z (2 ^ (24 - d))%Z.
    intros; nia. }
  split; [apply bounded_24; trivial; lia|].
  split; [lia|].
  replace (- (d - 24))%Z with (24 - d)%Z by lia. lia.
Qed.

(** An integer scaled by a power of two, at the opposite exponent, is
    normalised to the float of the integer. *)
Lemma normalize_int_scaled (s : bool) (n : positive) (j : Z) :
  (Zpos n < 2 ^ 24)%Z -> (0 <= j <= 23)%Z ->
  binary_normalize F32.prec F32.emax (cond_Zopp s (Zpos n * 2 ^ j)) (- j) false
  = F32.of_Z (cond_Zopp s (Zpos n)).
Proof.
  intros U J.
  destruct (int_canonical n U) as (m & e & B & E & V).
  rewrite (of_Z_value s n m e B) by (left; split; [lia|exact V]).
  assert (0 < 2 ^ j)%Z as P by (apply Z.pow_pos_nonneg; lia).
  destruct (Zpos n * 2 ^ j)%Z as [|M|M] eqn:EM; try lia.
  apply binary_normalize_value; trivial.
  destruct (Z.le_gt_cases e (- j)) as [C|C]; [left|right]; split; try lia.
  - rewrite <- EM, V, <- Z.mul_assoc, <- Z.pow_add_r by lia.
    f_equal. f_equal. lia.
  - rewrite <- EM, V, <- Z.mul_assoc, <- Z.pow_add_r by lia.
    f_equal. f_equal. lia.
Qed.

Lemma small_int_value (s : bool) (n : positive) :
  (Zpos n < 2 ^ 24)%Z ->
  Simd.has_value (F32.of_Z (cond_Zopp s (Zpos n))) (cond_Zopp s (Zpos n)) = true.
Proof.
  intros U.
  destruct (int_canonical n U) as (m & e & B & E & V).
  rewrite (of_Z_value s n m e B) by (left; split; [lia|exact V]).
  unfold Simd.has_value.
  destruct e as [|pe|k]; try lia; apply Z.eqb_eq.
  - change (- 0)%Z with 0%Z in V. destruct s; cbn [cond_Zopp]; lia.
  - change (- Zneg k)%Z with (Zpos k) in V. rewrite Z.pow_pos_fold.
    destruct s; cbn [cond_Zopp]; lia.
Qed.

(** Adding and subtracting one on small integers is exact. *)
Lemma of_Z_succ_sub (a : Z) :
  (0 <= a < 2 ^ 23)%Z ->
  F32.fsub (F32.of_Z a) (F32.of_Z (-1)) = F32.of_Z (a + 1).
Proof.
  intros R. rewrite of_Z_m1.
  destruct a as [|n|n]; try lia.
  - vm_compute. reflexivity.
  - assert (Zpos n < 2 ^ 24)%Z as U by lia.
    destruct (int_canonical n U) as (m & e & B & E & V).
    change (F32.of_Z (Zpos n)) with (F32.of_Z (cond_Zopp false (Zpos n))).
    rewrite (of_Z_value false n m e B) by (left; split; [lia|exact V]).
    unfold F32.fsub, SFsub.
    rewrite Z.min_r by lia.
    rewrite shl_align_value by lia. rewrite shl_align_value by lia.
    cbn [cond_Zopp]. rewrite Z.sub_diag. change (2 ^ 0)%Z with 1%Z.
    replace (Zpos m * 2 ^ (e - -23) - - (8388608 * 1))%Z
      with ((Zpos n + 1) * 2 ^ 23)%Z.
    + destruct (Zpos n + 1)%Z as [|n1|n1] eqn:E1; try lia.
      apply (normalize_int_scaled false n1 23); lia.
    + rewrite V, <- Z.mul_assoc, <- Z.pow_add_r by lia.
      replace (- e + (e - -23))%Z with 23%Z by lia. lia.
Qed.

Lemma of_Z_pred_add (a : Z) :
  (0 <= a < 2 ^ 23)%Z ->
  F32.fadd (F32.of_Z (- a)) (F32.of_Z (-1)) = F32.of_Z (- a - 1).
Proof.
  intros R. rewrite of_Z_m1.
  destruct a as [|n|n]; try lia.
  - vm_compute. reflexivity.
  - assert (Zpos n < 2 ^ 24)%Z as U by lia.
    destruct (int_canonical n U) as (m & e & B & E & V).
    change (- Zpos n)%Z with (cond_Zopp true (Zpos n)).
    rewrite (of_Z_value true n m e B) by (left; split; [lia|exact V]).
    unfold F32.fadd, SFadd.
    rewrite Z.min_r by lia.
    rewrite shl_align_value by lia. rewrite shl_align_value by lia.
    cbn [cond_Zopp]. rewrite Z.sub_diag. change (2 ^ 0)%Z with 1%Z.
    replace (- (Zpos m * 2 ^ (e - -23)) + - (8388608 * 1))%Z
      with (cond_Zopp true ((Zpos n + 1) * 2 ^ 23))%Z.
    + destruct (Zpos n + 1)%Z as [|n1|n1] eqn:E1; try lia.
      pose proof (normalize_int_scaled true n1 23 ltac:(lia) ltac:(lia)) as Nm.
      change (- (23))%Z with (-23)%Z in Nm. rewrite Nm.
      f_equal. cbn [cond_Zopp]. lia.
    + cbn [cond_Zopp]. rewrite V, <- Z.mul_assoc, <- Z.pow_add_r by lia.
      replace (- e + (e - -23))%Z with 23%Z by lia. lia.
Qed.

Lemma fsub_pos_zero (y : F32.float) : F32.fsub y (F32.of_Z 0) = y.
Proof. rewrite of_Z_0. destruct y as [[|]|[|]| |[|] m e]; reflexivity. Qed.

Lemma fadd_pos_zero (y : F32.float) :
  y <> S754_zero true -> F32.fadd y (F32.of_Z 0) = y.
Proof.
  rewrite of_Z_0. destruct y as [[|]|[|]| |[|] m e]; intros N;
    try reflexivity. now contradiction N.
Qed.

Lemma SFltb_irrefl (x : F32.float) : SFltb x x = false.
Proof.
  unfold SFltb. destruct x as [s|[|]| |[|] m e]; cbn [SFcompare]; trivial.
  - rewrite Z.compare_refl.
    change (Pos.compare_cont Eq m m) with (Pos.compare m m).
    now rewrite Pos.compare_refl.
  - rewrite Z.compare_refl.
    change (Pos.compare_cont Eq m m) with (Pos.compare m m).
    now rewrite Pos.compare_refl.
Qed.

(** Two finite floats with the same sign and exponent compare as their
    mantissas do. *)
Lemma SFltb_same_exponent (s : bool) (m1 m2 : positive) (e : Z) :
  SFltb (S754_finite s m1 e) (S754_finite s m2 e)
  = if s then (m2 <? m1)%positive else (m1 <? m2)%positive.
Proof.
  unfold SFltb. cbn [SFcompare]. rewrite Z.compare_refl.
  change (Pos.compare_cont Eq m1 m2) with (Pos.compare m1 m2).
  unfold Pos.ltb. rewrite (Pos.compare_antisym m1 m2).
  destruct s; destruct (Pos.compare m1 m2); reflexivity.
Qed.

(** ** Integer lanes *)

Lemma integer_lane (s : bool) (m : positive) (e : Z) :
  bounded F32.prec F32.emax m e = true ->
  (0 <= e \/ e < 0 /\ Zpos m mod 2 ^ (- e) = 0)%Z ->
  exists n : Z,
    Simd.truncate (S754_finite s m e) = Some n /\
    Simd.ceil_int (S754_finite s m e) = Some n /\
    Simd.floor_int (S754_finite s m e) = Some n /\
    F32.of_Z n = S754_finite s m e /\
    Simd.has_value (S754_finite s m e) n = true.
Proof.
  intros B [L|[L D]].
  - exists (cond_Zopp s (Zpos m * 2 ^ e))%Z.
    assert (0 < 2 ^ e)%Z as P by (apply Z.pow_pos_nonneg; lia).
    assert (cond_Zopp s (Zpos m) * 2 ^ e = cond_Zopp s (Zpos m * 2 ^ e))%Z as C
        by (destruct s; cbn [cond_Zopp]; lia).
    unfold Simd.truncate, Simd.ceil_int, Simd.floor_int, Simd.has_value.
    destruct e as [|pe|k]; try lia; rewrite ?C;
      (split; [reflexivity|]); (split; [reflexivity|]); (split; [reflexivity|]);
      (split; [|apply Z.eqb_refl]).
    + change (2 ^ 0)%Z with 1%Z. rewrite Z.mul_1_r.
      apply of_Z_value; trivial. left. split; [lia|]. cbn. lia.
    + destruct (Zpos m * 2 ^ Zpos pe)%Z as [|p|p] eqn:E; try lia.
      apply of_Z_value; trivial. right. split; [lia|]. symmetry. exact E.
  - destruct e as [|pe|k]; try lia.
    change (- Zneg k)%Z with (Zpos k) in D.
    assert (0 < 2 ^ Zpos k)%Z as P by (apply Z.pow_pos_nonneg; lia).
    pose proof (Z.div_mod (Zpos m) (2 ^ Zpos k) ltac:(lia)) as DM.
    rewrite D, Z.add_0_r in DM.
    exists (cond_Zopp s (Zpos m / 2 ^ Zpos k))%Z.
    unfold Simd.truncate, Simd.ceil_int, Simd.floor_int, Simd.has_value.
    rewrite !Z.pow_pos_fold.
    destruct (Zpos m / 2 ^ Zpos k)%Z as [|a|a] eqn:Ea; try lia.
    split; [reflexivity|]. split; [|split; [|split]].
    + f_equal. destruct s; cbn [cond_Zopp].
      * rewrite Z.opp_involutive, Ea. reflexivity.
      * change (- Zpos m)%Z with (- (Zpos m))%Z.
        rewrite Z.div_opp_l_z by lia. rewrite Ea. reflexivity.
    + f_equal. destruct s; cbn [cond_Zopp].
      * change (Zneg m) with (- (Zpos m))%Z.
        rewrite Z.div_opp_l_z by lia. rewrite Ea. reflexivity.
      * exact Ea.
    + apply of_Z_value; trivial. left. split; [lia|].
      change (- Zneg k)%Z with (Zpos k). lia.
    + apply Z.eqb_eq. destruct s; cbn [cond_Zopp]; lia.
Qed.

(** ** Lanes that are not integers *)

Lemma fraction_lane (s : bool) (m : positive) (k : positive) :
  bounded F32.prec F32.emax m (Zneg k) = true ->
  (Zpos m mod 2 ^ Zpos k <> 0)%Z ->
  let a := (Zpos m / 2 ^ Zpos k)%Z in
  (0 <= a < 2 ^ 23)%Z /\
  Simd.truncate (S754_finite s m (Zneg k)) = Some (cond_Zopp s a) /\
  Simd.ceil_int (S754_finite s m (Zneg k)) = Some (if s then - a else a + 1)%Z /\
  Simd.floor_int (S754_finite s m (Zneg k)) = Some (if s then - a - 1 else a)%Z /\
  SFltb (F32.of_Z (cond_Zopp s a)) (S754_finite s m (Zneg k)) = negb s /\
  SFltb (S754_finite s m (Zneg k)) (F32.of_Z (cond_Zopp s a)) = s.
Proof.
  intros B D a.
  assert (0 < 2 ^ Zpos k)%Z as P by (apply Z.pow_pos_nonneg; lia).
  pose proof (Z.div_mod (Zpos m) (2 ^ Zpos k) ltac:(lia)) as DM.
  pose proof (Z.mod_pos_bound (Zpos m) (2 ^ Zpos k) P) as MB.
  fold a in DM.
  destruct (bounded_digits m (Zneg k) B) as (E & Dg & N).
  pose proof (digits2_pos_bounds m) as [Lm Um].
  assert (Zpos m < 2 ^ 24)%Z as U24.
  { apply Z.lt_le_trans with (1 := Um). apply Z.pow_le_mono_r; lia. }
  assert (0 <= a)%Z as A0 by (subst a; apply Z.div_pos; lia).
  assert (a < 2 ^ 23)%Z as A1.
  { subst a. apply Z.div_lt_upper_bound; [lia|].
    assert (2 ^ 1 <= 2 ^ Zpos k)%Z by (apply Z.pow_le_mono_r; lia).
    change (2 ^ 1)%Z with 2%Z in *. change (2 ^ 24)%Z with (2 * 2 ^ 23)%Z in U24.
    nia. }
  split; [lia|].
  unfold Simd.truncate, Simd.ceil_int, Simd.floor_int.
  rewrite !Z.pow_pos_fold. fold a.
  split; [reflexivity|]. split; [|split].
  - f_equal. destruct s; cbn [cond_Zopp].
    + rewrite Z.opp_involutive. reflexivity.
    + change (- Zpos m)%Z with (- (Zpos m))%Z.
      rewrite Z.div_opp_l_nz by lia. fold a. lia.
  - f_equal. destruct s; cbn [cond_Zopp].
    + change (Zneg m) with (- (Zpos m))%Z.
      rewrite Z.div_opp_l_nz by lia. fold a. lia.
    + reflexivity.
  - destruct a as [|pa|pa] eqn:Ea; try lia.
    + (* the integer part is zero *)
      destruct s; cbn [cond_Zopp Z.opp]; rewrite of_Z_0; split; reflexivity.
    + (* the integer part is positive: same exponent, smaller mantissa *)
      assert (Zpos k <= 23)%Z as K.
      { destruct (Z.le_gt_cases (Zpos k) 23) as [C|C]; trivial.
        assert (2 ^ 24 <= 2 ^ Zpos k)%Z by (apply Z.pow_le_mono_r; lia).
        assert (Zpos m / 2 ^ Zpos k = 0)%Z by (apply Z.div_small; lia).
        subst a. lia. }
      rewrite N in Lm by lia. change (2 ^ (24 - 1))%Z with (2 ^ 23)%Z in Lm.
      assert (2 ^ 23 = 2 ^ (23 - Zpos k) * 2 ^ Zpos k)%Z as Split
          by (rewrite <- Z.pow_add_r by lia; f_equal; lia).
      assert (0 < 2 ^ (23 - Zpos k))%Z by (apply Z.pow_pos_nonneg; lia).
      assert (2 ^ (23 - Zpos k) <= Zpos pa)%Z as LA.
      { rewrite Split in Lm. revert Lm DM MB P.
        generalize (2 ^ (23 - Zpos k))%Z (2 ^ Zpos k)%Z (Zpos m mod 2 ^ Zpos k)%Z.
        intros; nia. }
      destruct (Zpos pa * 2 ^ Zpos k)%Z as [|ma|ma] eqn:Em; try lia.
      assert (bounded F32.prec F32.emax ma (Zneg k) = true) as Ba.
      { apply bounded_24; [|lia]. rewrite <- Em. split; [nia|lia]. }
      rewrite (of_Z_value s pa ma (Zneg k) Ba)
        by (left; split; [lia|change (- Zneg k)%Z with (Zpos k); lia]).
      rewrite !SFltb_same_exponent.
      assert (Zpos ma < Zpos m)%Z as Lt by lia.
      destruct s; cbn [negb]; split;
        first [ apply Pos.ltb_lt; lia | apply Pos.ltb_ge; lia ].
Qed.

Lemma small_value (n : Z) :
  (- 2 ^ 24 < n < 2 ^ 24)%Z ->
  Simd.has_value (F32.of_Z n) n = true /\
  F32.fadd (F32.of_Z n) (F32.of_Z 0) = F32.of_Z n.
Proof.
  intros R. destruct n as [|p|p].
  - split; reflexivity.
  - change (Zpos p) with (cond_Zopp false (Zpos p)).
    split; [apply small_int_value; lia|].
    destruct (int_canonical p ltac:(lia)) as (m & e & B & E & V).
    rewrite (of_Z_value false p m e B) by (left; split; [lia|exact V]).
    apply fadd_pos_zero. discriminate.
  - change (Zneg p) with (cond_Zopp true (Zpos p)).
    split; [apply small_int_value; lia|].
    destruct (int_canonical p ltac:(lia)) as (m & e & B & E & V).
    rewrite (of_Z_value true p m e B) by (left; split; [lia|exact V]).
    apply fadd_pos_zero. discriminate.
Qed.

Lemma cvtt_in_range (x : F32.float) (n : Z) :
  Simd.out_of_int32 x = false -> Simd.truncate x = Some n ->
  Simd.cvtt_lane x = n.
Proof.
  unfold Simd.out_of_int32, Simd.cvtt_lane. intros O T. rewrite T in *.
  destruct (Simd.fits_int32 n); [reflexivity|discriminate].
Qed.

(** X27.  Without SSE4.1, on every lane that holds a binary32 number whose
    integer part fits a signed 32-bit integer, [ceil] returns the float
    that is exactly the least integer not below the lane and [floor] the
    float that is exactly the greatest integer not above it (a zero result
    is [+0.0]). *)
Theorem ceil_floor_in_range (v : Simd.float4) (i : nat) :
  F32.well_formed (Simd.lane v i) = true ->
  Simd.out_of_int32 (Simd.lane v i) = false ->
  exists c f : Z,
    Simd.ceil_int (Simd.lane v i) = Some c /\
    Simd.floor_int (Simd.lane v i) = Some f /\
    Simd.lane (Simd.ceil_sse2 v) i = F32.of_Z c /\
    Simd.has_value (Simd.lane (Simd.ceil_sse2 v) i) c = true /\
    Simd.lane (Simd.floor_sse2 v) i = F32.of_Z f /\
    Simd.has_value (Simd.lane (Simd.floor_sse2 v) i) f = true.
Proof.
  rewrite ceil_sse2_lane, floor_sse2_lane. cbv zeta.
  generalize (Simd.lane v i). clear v i. intros x W O.
  destruct x as [s|s| |s m e]; try discriminate O.
  - (* a zero *)
    exists 0%Z, 0%Z. destruct s; repeat split; reflexivity.
  - assert (0 <= e \/ e < 0 /\ Zpos m mod 2 ^ (- e) = 0
            \/ e < 0 /\ Zpos m mod 2 ^ (- e) <> 0)%Z as Cases.
    { destruct (Z.le_gt_cases 0 e) as [C|C]; [now left|right].
      destruct (Z.eq_dec (Zpos m mod 2 ^ (- e)) 0); [left|right]; split; trivial;
        lia. }
    destruct Cases as [C|[C|[C D]]].
    + (* an integer *)
      destruct (integer_lane s m e W (or_introl C)) as (n & T & Ce & Fl & V & H).
      exists n, n. rewrite (cvtt_in_range _ n O T), V, SFltb_irrefl.
      rewrite fsub_pos_zero, fadd_pos_zero by discriminate.
      repeat split; assumption.
    + destruct (integer_lane s m e W (or_intror C)) as (n & T & Ce & Fl & V & H).
      exists n, n. rewrite (cvtt_in_range _ n O T), V, SFltb_irrefl.
      rewrite fsub_pos_zero, fadd_pos_zero by discriminate.
      repeat split; assumption.
    + (* not an integer *)
      destruct e as [|pe|k]; try lia.
      change (- Zneg k)%Z with (Zpos k) in D.
      destruct (fraction_lane s m k W D) as (R & T & Ce & Fl & L1 & L2).
      cbv zeta in *.
      set (a := (Zpos m / 2 ^ Zpos k)%Z) in *.
      rewrite (cvtt_in_range _ _ O T), L1, L2.
      destruct s; cbn [negb cond_Zopp] in *.
      * exists (- a)%Z, (- a - 1)%Z.
        rewrite fsub_pos_zero, of_Z_pred_add by lia.
        destruct (small_value (- a) ltac:(lia)) as [H1 _].
        destruct (small_value (- a - 1) ltac:(lia)) as [H2 _].
        repeat split; assumption.
      * exists (a + 1)%Z, a.
        rewrite of_Z_succ_sub by lia.
        destruct (small_value a ltac:(lia)) as [H1 A1].
        destruct (small_value (a + 1) ltac:(lia)) as [H2 _].
        rewrite A1. repeat split; assumption.
Qed.

(** The lanes 3/2, -3/2, 2 and -1/2. *)
Lemma ceil_floor_in_range_witness :
  let v := Simd.make (F32.of_Z_pow2 3 (-1)) (F32.of_Z_pow2 (-3) (-1))
                     (F32.of_Z 2) (F32.of_Z_pow2 (-1) (-1)) in
  Simd.ceil_sse2 v
  = Simd.make (F32.of_Z 2) (F32.of_Z (-1)) (F32.of_Z 2) (F32.of_Z 0) /\
  Simd.floor_sse2 v
  = Simd.make (F32.of_Z 1) (F32.of_Z (-2)) (F32.of_Z 2) (F32.of_Z (-1)) /\
  F32.well_formed (Simd.lane v 1) = true /\
  Simd.out_of_int32 (Simd.lane v 1) = false /\
  exists c f : Z,
    Simd.ceil_int (Simd.lane v 1) = Some c /\
    Simd.floor_int (Simd.lane v 1) = Some f /\
    Simd.lane (Simd.ceil_sse2 v) 1 = F32.of_Z c /\
    Simd.has_value (Simd.lane (Simd.ceil_sse2 v) 1) c = true /\
    Simd.lane (Simd.floor_sse2 v) 1 = F32.of_Z f /\
    Simd.has_value (Simd.lane (Simd.floor_sse2 v) 1) f = true.
Proof.
  intros v.
  assert (F32.well_formed (Simd.lane v 1) = true) as W by (vm_compute; reflexivity).
  assert (Simd.out_of_int32 (Simd.lane v 1) = false) as O
      by (vm_compute; reflexivity).
  split; [vm_compute; reflexivity|]. split; [vm_compute; reflexivity|].
  split; [exact W|]. split; [exact O|].
  exact (ceil_floor_in_range v 1 W O).
Defined.

(* ================================================================== *)
(** * [round] without SSE4.1                                           *)
(* ================================================================== *)

Lemma land_bit31 (a : Z) :
  (0 <= a < 2 ^ 31)%Z ->
  Z.land a 0x80000000 = 0%Z /\
  Z.land (0x80000000 + a) 0x80000000 = 0x80000000%Z.
Proof.
  intros R. split.
  - rewrite <- (Z.mod_small a (2 ^ 31)) by lia.
    rewrite <- Z.land_ones by lia. rewrite <- Z.land_assoc.
    change (Z.land (Z.ones 31) 0x80000000) with 0%Z. apply Z.land_0_r.
  - apply Z.bits_inj'. intros n Hn. rewrite Z.land_spec.
    change 0x80000000%Z with (2 ^ 31)%Z.
    destruct (Z.eq_dec n 31) as [->|Ne].
    + rewrite Z.pow2_bits_true by lia. rewrite andb_true_r.
      apply Z.testbit_true; [lia|].
      rewrite <- (Z.mul_1_l (2 ^ 31)) at 1.
      rewrite Z.div_add_l by lia. rewrite Z.div_small by lia. reflexivity.
    + rewrite Z.pow2_bits_false by lia. apply andb_false_r.
Qed.

(** The magic number of [round]: [2^23] with the sign of the lane. *)
Lemma magic_number (x : F32.float) :
  F32.well_formed x = true ->
  F32.of_bits (Z.lor (Z.land (F32.bits x) 0x80000000) 0x4B000000)
  = S754_finite (F32.sign x) 8388608 0.
Proof.
  intros W. pose proof (magnitude_bits_range x W) as R.
  destruct (land_bit31 (F32.magnitude_bits x) R) as [L0 L1].
  unfold F32.bits.
  assert (F32.sign_bit x = if F32.sign x then 0x80000000%Z else 0%Z) as S
      by (destruct x as [[|]|[|]| |[|] m e]; reflexivity).
  rewrite S. destruct (F32.sign x).
  - rewrite L1. vm_compute. reflexivity.
  - rewrite Z.add_0_l, L0. vm_compute. reflexivity.
Qed.

Lemma round_sse2_lane (v : Simd.float4) (i : nat) :
  Simd.lane (Simd.round_sse2 v) i
  = let m := F32.of_bits
               (Z.lor (Z.land (F32.bits (Simd.lane v i)) 0x80000000) 0x4B000000) in
    F32.fsub (F32.fadd (Simd.lane v i) m) m.
Proof. destruct v as [a b c d]. destruct i as [|[|[|i]]]; reflexivity. Qed.

Lemma compare_cont_lt (p q : positive) :
  Pos.compare_cont Eq p q = Lt -> (Zpos p < Zpos q)%Z.
Proof.
  change (Pos.compare_cont Eq p q) with (Pos.compare p q).
  intros L. apply Pos2Z.pos_lt_pos. exact L.
Qed.

Lemma of_Z_2_23 : F32.of_Z (2 ^ 23) = S754_finite false 8388608 0.
Proof. vm_compute. reflexivity. Qed.

(** A canonical finite float below [2^23] in magnitude has a negative
    exponent, and its mantissa is below [2^(23+k)]. *)
Lemma below_2_23 (s : bool) (m : positive) (e : Z) :
  bounded F32.prec F32.emax m e = true ->
  SFltb (SFabs (S754_finite s m e)) (F32.of_Z (2 ^ 23)) = true ->
  exists k : positive, e = Zneg k /\ (Zpos m < 2 ^ (23 + Zpos k))%Z.
Proof.
  intros B. rewrite of_Z_2_23. unfold SFltb. cbn [SFabs SFcompare].
  destruct (bounded_digits m e B) as (E & D & N).
  pose proof (digits2_pos_bounds m) as [Lm Um].
  destruct (Z.compare_spec e 0) as [C|C|C]; try discriminate.
  - subst e. rewrite N in Lm by lia. change (2 ^ (24 - 1))%Z with 8388608%Z in Lm.
    destruct (Pos.compare_cont Eq m 8388608) eqn:Cm; try discriminate.
    apply compare_cont_lt in Cm. lia.
  - intros _. destruct e as [|pe|k]; try lia. exists k. split; [reflexivity|].
    apply Z.lt_le_trans with (1 := Um).
    apply Z.pow_le_mono_r; lia.
Qed.

Lemma nearest_even_bounds (m : Z) (k : positive) :
  (0 <= m < 2 ^ (23 + Zpos k))%Z ->
  (0 <= Simd.nearest_even m k <= 2 ^ 23)%Z.
Proof.
  intros [L U]. unfold Simd.nearest_even.
  assert (0 < 2 ^ Zpos k)%Z as P by (apply Z.pow_pos_nonneg; lia).
  assert (0 <= m / 2 ^ Zpos k)%Z as Q0 by (apply Z.div_pos; lia).
  assert (m / 2 ^ Zpos k < 2 ^ 23)%Z as Q1.
  { apply Z.div_lt_upper_bound; [lia|].
    rewrite Z.pow_add_r in U by lia. lia. }
  destruct (_ <? _)%Z; [lia|]. destruct (_ <? _)%Z; [lia|].
  destruct (Z.even _); lia.
Qed.

(** The first shift of the sum [m + 2^(23+k)]: the quotient, the bit
    shifted out last and the sticky bit. *)
Lemma shr_fexp_sum (M k : positive) :
  (2 ^ (23 + Zpos k) <= Zpos M < 2 ^ (24 + Zpos k))%Z ->
  shr_fexp F32.prec F32.emax (Zpos M) (Zneg k) loc_Exact
  = ({| shr_m := Zpos M / 2 ^ Zpos k;
        shr_r := Z.testbit (Zpos M) (Zpos k - 1);
        shr_s := negb (Zpos M mod 2 ^ (Zpos k - 1) =? 0)%Z |}, 0%Z).
Proof.
  intros R. unfold shr_fexp. cbn [Zdigits2 shr_record_of_loc].
  rewrite (digits_unique M (24 + Zpos k))
    by (try replace (24 + Zpos k - 1)%Z with (23 + Zpos k)%Z by lia; lia).
  replace (fexp F32.prec F32.emax (24 + Zpos k + Zneg k))%Z with 0%Z
    by (unfold fexp, emin, F32.prec, F32.emax; lia).
  change (0 - Zneg k)%Z with (Zpos k). unfold shr.
  rewrite iter_pos_nat.
  destruct (Pos2Nat.is_succ k) as [j Ej]. rewrite Ej.
  rewrite shr_iter_spec by lia.
  assert (Zpos k = Z.of_nat j + 1)%Z as Ek by lia.
  replace (Z.of_nat j) with (Zpos k - 1)%Z by lia.
  replace (Zpos k - 1 + 1)%Z with (Zpos k) by lia.
  f_equal. lia.
Qed.

(** Rounding that quotient gives [2^23] plus the nearest integer. *)
Lemma round_sum (m : Z) (k : positive) :
  (0 <= m)%Z ->
  let M := (m + 2 ^ (23 + Zpos k))%Z in
  round_nearest_even (M / 2 ^ Zpos k)
    (loc_of_shr_record
       {| shr_m := M / 2 ^ Zpos k;
          shr_r := Z.testbit M (Zpos k - 1);
          shr_s := negb (M mod 2 ^ (Zpos k - 1) =? 0)%Z |})
  = (2 ^ 23 + Simd.nearest_even m k)%Z.
Proof.
  intros L M.
  assert (0 < 2 ^ Zpos k)%Z as P by (apply Z.pow_pos_nonneg; lia).
  assert (0 < 2 ^ (Zpos k - 1))%Z as Ph by (apply Z.pow_pos_nonneg; lia).
  assert (2 ^ Zpos k = 2 * 2 ^ (Zpos k - 1))%Z as Pk.
  { rewrite <- (Z.pow_succ_r 2 (Zpos k - 1)) by lia. f_equal. lia. }
  assert (M = m + 2 ^ 23 * 2 ^ Zpos k)%Z as EM
      by (subst M; rewrite Z.pow_add_r by lia; reflexivity).
  assert (M / 2 ^ Zpos k = 2 ^ 23 + m / 2 ^ Zpos k)%Z as Q.
  { rewrite EM, Z.div_add by lia. lia. }
  assert (M mod 2 ^ Zpos k = m mod 2 ^ Zpos k)%Z as Rm.
  { rewrite EM, Z.mod_add by lia. reflexivity. }
  assert (M mod 2 ^ (Zpos k - 1) = m mod 2 ^ (Zpos k - 1))%Z as Rh.
  { rewrite EM, Pk.
    replace (m + 2 ^ 23 * (2 * 2 ^ (Zpos k - 1)))%Z
      with (m + (2 ^ 23 * 2) * 2 ^ (Zpos k - 1))%Z by lia.
    rewrite Z.mod_add by lia. reflexivity. }
  pose proof (mod_pow2_succ M (Zpos k - 1) ltac:(lia)) as S.
  replace (Zpos k - 1 + 1)%Z with (Zpos k) in S by lia.
  rewrite Rm in S.
  pose proof (Z.mod_pos_bound M (2 ^ (Zpos k - 1)) Ph) as B.
  unfold Simd.nearest_even. rewrite Q.
  assert (Z.even (2 ^ 23 + m / 2 ^ Zpos k) = Z.even (m / 2 ^ Zpos k)) as Ev.
  { rewrite Z.even_add. change (Z.even (2 ^ 23)) with true.
    now destruct (Z.even (m / 2 ^ Zpos k)). }
  destruct (Z.testbit M (Zpos k - 1)).
  - destruct (Z.eqb_spec (M mod 2 ^ (Zpos k - 1)) 0) as [Z0|NZ];
      cbn [negb loc_of_shr_record round_nearest_even].
    + (* half way *)
      rewrite Z0 in S. rewrite Ev.
      rewrite (proj2 (Z.ltb_ge _ _)) by lia.
      rewrite (proj2 (Z.ltb_ge _ _)) by lia.
      destruct (Z.even (m / 2 ^ Zpos k)); lia.
    + rewrite (proj2 (Z.ltb_ge _ _)) by lia.
      rewrite (proj2 (Z.ltb_lt _ _)) by lia. lia.
  - destruct (Z.eqb_spec (M mod 2 ^ (Zpos k - 1)) 0) as [Z0|NZ];
      cbn [negb loc_of_shr_record round_nearest_even];
      rewrite (proj2 (Z.ltb_lt _ _)) by lia; lia.
Qed.

(** The sum [x + 2^23], with the sign of [x], for [|x| < 2^23]. *)
Lemma add_magic (s : bool) (m k : positive) :
  bounded F32.prec F32.emax m (Zneg k) = true ->
  (Zpos m < 2 ^ (23 + Zpos k))%Z ->
  let q := (2 ^ 23 + Simd.nearest_even (Zpos m) k)%Z in
  F32.fadd (S754_finite s m (Zneg k)) (S754_finite s 8388608 0)
  = if (q <? 2 ^ 24)%Z then S754_finite s (Z.to_pos q) 0
    else S754_finite s 8388608 1.
Proof.
  intros B U q.
  pose proof (nearest_even_bounds (Zpos m) k ltac:(lia)) as NB.
  assert (0 < 2 ^ Zpos k)%Z as P by (apply Z.pow_pos_nonneg; lia).
  unfold F32.fadd, SFadd.
  rewrite Z.min_l by lia.
  rewrite !shl_align_value by lia.
  rewrite Z.sub_diag. change (2 ^ 0)%Z with 1%Z. rewrite Z.mul_1_r.
  change (0 - Zneg k)%Z with (Zpos k).
  replace (cond_Zopp s (Zpos m) + cond_Zopp s (8388608 * 2 ^ Zpos k))%Z
    with (cond_Zopp s (Zpos m + 2 ^ (23 + Zpos k)))
    by (rewrite Z.pow_add_r by lia; destruct s; cbn [cond_Zopp]; lia).
  assert (2 ^ (23 + Zpos k) <= Zpos m + 2 ^ (23 + Zpos k)
          < 2 ^ (24 + Zpos k))%Z as RM.
  { replace (24 + Zpos k)%Z with (1 + (23 + Zpos k))%Z by lia.
    rewrite (Z.pow_add_r 2 1) by lia. change (2 ^ 1)%Z with 2%Z. lia. }
  pose proof (round_sum (Zpos m) k ltac:(lia)) as RS. cbv zeta in RS.
  destruct (Zpos m + 2 ^ (23 + Zpos k))%Z as [|M|M] eqn:EM; try lia.
  assert (binary_normalize F32.prec F32.emax (cond_Zopp s (Zpos M)) (Zneg k) false
          = binary_round F32.prec F32.emax s M (Zneg k)) as ->
      by (destruct s; reflexivity).
  unfold binary_round.
  assert (shl_align M (Zneg k)
            (fexp F32.prec F32.emax (Zpos (digits2_pos M) + Zneg k))
          = (M, Zneg k)) as ->.
  { rewrite (digits_unique M (24 + Zpos k))
      by (try replace (24 + Zpos k - 1)%Z with (23 + Zpos k)%Z by lia; lia).
    replace (fexp F32.prec F32.emax (24 + Zpos k + Zneg k))%Z with 0%Z
      by (unfold fexp, emin, F32.prec, F32.emax; lia).
    reflexivity. }
  unfold binary_round_aux. rewrite (shr_fexp_sum M k RM).
  cbn [shr_m]. rewrite RS. fold q.
  destruct (Z.ltb_spec q (2 ^ 24)) as [Lq|Lq].
  - (* the rounded mantissa has 24 bits *)
    destruct q as [|pq|pq] eqn:Eq; try lia.
    unfold shr_fexp. cbn [Zdigits2 shr_record_of_loc].
    rewrite (digits_unique pq 24) by (change (24 - 1)%Z with 23%Z; lia).
    replace (fexp F32.prec F32.emax (24 + 0))%Z with 0%Z
      by (unfold fexp, emin, F32.prec, F32.emax; lia).
    cbn [Z.sub Z.opp Z.add shr shr_m]. reflexivity.
  - (* the rounded mantissa is [2^24] *)
    assert (q = 2 ^ 24)%Z as -> by lia.
    vm_compute. reflexivity.
Qed.

(** Taking the magic number away again. *)
Lemma sub_magic (s : bool) (r : Z) :
  (0 <= r <= 2 ^ 23)%Z ->
  let q := (2 ^ 23 + r)%Z in
  F32.fsub (if (q <? 2 ^ 24)%Z then S754_finite s (Z.to_pos q) 0
            else S754_finite s 8388608 1)
           (S754_finite s 8388608 0)
  = F32.of_Z (cond_Zopp s r).
Proof.
  intros R q.
  destruct (Z.ltb_spec q (2 ^ 24)) as [Lq|Lq].
  - unfold F32.fsub, SFsub. rewrite Z.min_id.
    rewrite !shl_align_value by lia.
    rewrite Z.sub_diag. change (2 ^ 0)%Z with 1%Z. rewrite !Z.mul_1_r.
    rewrite Z2Pos.id by (subst q; lia).
    replace (cond_Zopp s q - cond_Zopp s 8388608)%Z with (cond_Zopp s r)
      by (subst q; destruct s; cbn [cond_Zopp]; lia).
    reflexivity.
  - assert (r = 2 ^ 23)%Z as -> by (subst q; lia).
    destruct s; vm_compute; reflexivity.
Qed.

(** One finite lane below [2^23] in magnitude. *)
Lemma round_fraction_lane (s : bool) (m k : positive) :
  bounded F32.prec F32.emax m (Zneg k) = true ->
  (Zpos m < 2 ^ (23 + Zpos k))%Z ->
  F32.fsub (F32.fadd (S754_finite s m (Zneg k)) (S754_finite s 8388608 0))
           (S754_finite s 8388608 0)
  = F32.of_Z (cond_Zopp s (Simd.nearest_even (Zpos m) k)).
Proof.
  intros B U.
  rewrite (add_magic s m k B U).
  apply sub_magic. apply nearest_even_bounds. lia.
Qed.

(** X28.  Without SSE4.1, [round] adds and subtracts [2^23] with the sign
    of the lane.  On every lane that holds a binary32 number of magnitude
    below [2^23] the result is the float that is exactly the nearest
    integer, the even one when the lane lies half way between two integers
    (a zero result is [+0.0]); a NaN or an infinity is returned as it is.
    From [2^23] on the trick is no longer exact: [round(8388609.0)] is
    [8388608.0]. *)
Theorem round_sse2_nearest_even (v : Simd.float4) (i : nat) :
  F32.well_formed (Simd.lane v i) = true ->
  (SFltb (SFabs (Simd.lane v i)) (F32.of_Z (2 ^ 23)) = true ->
   exists n : Z,
     Simd.round_int (Simd.lane v i) = Some n /\
     Simd.lane (Simd.round_sse2 v) i = F32.of_Z n /\
     Simd.has_value (Simd.lane (Simd.round_sse2 v) i) n = true) /\
  (F32.is_finite (Simd.lane v i) = false ->
   Simd.lane (Simd.round_sse2 v) i = Simd.lane v i) /\
  Simd.round_sse2 (Simd.broadcast (F32.of_Z 8388609))
  = Simd.broadcast (F32.of_Z 8388608).
Proof.
  intros W. rewrite round_sse2_lane. cbv zeta.
  rewrite (magic_number _ W).
  split; [|split].
  - generalize dependent (Simd.lane v i). clear v i. intros x W L.
    destruct x as [s|s| |s m e]; try discriminate L.
    + exists 0%Z. destruct s; repeat split; vm_compute; reflexivity.
    + destruct (below_2_23 s m e W L) as (k & -> & U).
      exists (cond_Zopp s (Simd.nearest_even (Zpos m) k)).
      cbn [F32.sign Simd.round_int].
      rewrite (round_fraction_lane s m k W U).
      pose proof (nearest_even_bounds (Zpos m) k ltac:(lia)) as NB.
      split; [reflexivity|]. split; [reflexivity|].
      destruct (Simd.nearest_even (Zpos m) k) as [|r|r] eqn:Er; try lia.
      * destruct s; reflexivity.
      * apply small_int_value. change (2 ^ 24)%Z with (2 * 2 ^ 23)%Z. lia.
  - destruct (Simd.lane v i) as [s|[|]| |s m e]; try discriminate; reflexivity.
  - vm_compute. reflexivity.
Qed.

(** The lanes 5/2, -7/2, 1/4 and -3: halves go to the even neighbour. *)
Lemma round_sse2_nearest_even_witness :
  let v := Simd.make (F32.of_Z_pow2 5 (-1)) (F32.of_Z_pow2 (-7) (-1))
                     (F32.of_Z_pow2 1 (-2)) (F32.of_Z (-3)) in
  Simd.round_sse2 v
  = Simd.make (F32.of_Z 2) (F32.of_Z (-4)) (F32.of_Z 0) (F32.of_Z (-3)) /\
  F32.well_formed (Simd.lane v 1) = true /\
  SFltb (SFabs (Simd.lane v 1)) (F32.of_Z (2 ^ 23)) = true /\
  exists n : Z,
    Simd.round_int (Simd.lane v 1) = Some n /\
    Simd.lane (Simd.round_sse2 v) 1 = F32.of_Z n /\
    Simd.has_value (Simd.lane (Simd.round_sse2 v) 1) n = true.
Proof.
  intros v.
  assert (F32.well_formed (Simd.lane v 1) = true) as W by (vm_compute; reflexivity).
  assert (SFltb (SFabs (Simd.lane v 1)) (F32.of_Z (2 ^ 23)) = true) as L
      by (vm_compute; reflexivity).
  split; [vm_compute; reflexivity|]. split; [exact W|]. split; [exact L|].
  exact (proj1 (round_sse2_nearest_even v 1 W) L).
Defined.
